(** * Turn synchronisation core of the game client

    A shallow embedding of the three TypeScript classes that make up the
    deterministic turn-synchronisation core:

    - [ClientGameRunner] (src/client/ClientGameRunner.ts): the message handler
      that feeds turns to the simulation worker and the worker callback that
      reports hashes and signals turn completion;
    - [Transport] (Transport.ts): the socket wrapper with its outbound buffer;
    - [LocalServer] (LocalServer.ts): the in-process turn source used for
      single-player games and replays.

    JavaScript numbers that hold turn numbers, hashes and millisecond clocks
    are integers here ([Z]); the replay speed multiplier takes the values
    2, 1, 0.5 and 0 and is a rational ([Q]).  Arrays are lists, indexed with
    stdpp's lookup; an index outside the array yields [undefined] in
    JavaScript and reading a property of it throws, which the handlers below
    make explicit.  Every handler is a function from the object's fields to
    the new fields and the list of calls it made on its collaborators, in
    program order. *)

From Stdlib Require Import ZArith QArith List Lia String Bool Recdef.
From stdpp Require Import base list.
Import ListNotations.

Local Open Scope Z_scope.

(** ** Schemas (core/Schemas): the shapes the three classes exchange.

    The payload of an intent is opaque to all of them: it is a type
    parameter. *)

Module Schemas.

Record Turn (Intent : Type) : Type := mkTurn {
  turnNumber : Z;
  intents : list Intent;
  hash : option Z
}.
Arguments mkTurn {Intent} _ _ _.
Arguments turnNumber {Intent} _.
Arguments intents {Intent} _.
Arguments hash {Intent} _.

Inductive ServerMessage (Intent : Type) : Type :=
| ServerStartGameMessage (turns : list (Turn Intent))
| ServerDesyncMessage (turn correctHash clientsWithCorrectHash
                       totalActiveClients yourHash : Z)
| ServerErrorMessage (error message : string)
| ServerTurnMessage (turn : Turn Intent)
| ServerOtherMessage.
Arguments ServerStartGameMessage {Intent} _.
Arguments ServerDesyncMessage {Intent} _ _ _ _ _.
Arguments ServerErrorMessage {Intent} _ _.
Arguments ServerTurnMessage {Intent} _.
Arguments ServerOtherMessage {Intent}.

Inductive ClientMessage (Intent : Type) : Type :=
| ClientIntentMessage (intent : Intent)
| ClientHashMessage (turnNumber hash : Z)
| ClientSendWinnerMessage (winner : string)
| ClientJoinMessage (lastTurn : Z)
| ClientPingMessage.
Arguments ClientIntentMessage {Intent} _.
Arguments ClientHashMessage {Intent} _ _.
Arguments ClientSendWinnerMessage {Intent} _.
Arguments ClientJoinMessage {Intent} _.
Arguments ClientPingMessage {Intent}.

(** [a[i]] for a JavaScript number [i] that holds an integer: [undefined]
    below zero and past the end. *)
Definition index {A : Type} (a : list A) (i : Z) : option A :=
  if i <? 0 then None else a !! Z.to_nat i.

(** Turn numbers [from], [from + 1], ... with no gap. *)
Fixpoint gapless (from : Z) (ns : list Z) : Prop :=
  match ns with
  | [] => True
  | n :: rest => n = from /\ gapless (from + 1) rest
  end.

End Schemas.

(** ** ClientGameRunner *)

Module ClientGameRunner.
Import Schemas.
Section Runner.
Variable Intent : Type.

(** The fields of the class that the two callbacks read or write. *)
Record Runner : Type := mkRunner {
  hasGameStartInfo : bool;   (* this.lobby.gameStartInfo !== undefined *)
  isActive : bool;
  turnsSeen : Z;
  hasJoined : bool;
  lastMessageTime : Z
}.

(** Calls on the collaborators (worker, transport, event bus, view). *)
Inductive Effect : Type :=
| WorkerSendTurn (t : Turn Intent)
| WorkerCleanup
| TransportJoinGame (numTurns : Z)
| TransportTurnComplete
| TransportLeaveGame
| EmitSendHashEvent (tick hash : Z)
| ShowErrorModal (heading : string)
| ConsoleError
| GameViewUpdate
| RendererTick
| SaveGame
| Throw (what : string).

Definition isWorkerSendTurn (e : Effect) : option (Turn Intent) :=
  match e with WorkerSendTurn t => Some t | _ => None end.

(** The turns handed to the worker by a list of calls, in order. *)
Definition sentTurns (es : list Effect) : list (Turn Intent) :=
  omap isWorkerSendTurn es.

Definition set_turnsSeen (n : Z) (r : Runner) : Runner :=
  mkRunner (hasGameStartInfo r) (isActive r) n (hasJoined r)
           (lastMessageTime r).
Definition set_hasJoined (b : bool) (r : Runner) : Runner :=
  mkRunner (hasGameStartInfo r) (isActive r) (turnsSeen r) b
           (lastMessageTime r).
Definition set_lastMessageTime (t : Z) (r : Runner) : Runner :=
  mkRunner (hasGameStartInfo r) (isActive r) (turnsSeen r) (hasJoined r) t.
Definition set_isActive (b : bool) (r : Runner) : Runner :=
  mkRunner (hasGameStartInfo r) b (turnsSeen r) (hasJoined r)
           (lastMessageTime r).

(** [while (turn.turnNumber - 1 > this.turnsSeen) { sendTurn(empty);
    this.turnsSeen++ }].  [seen] is [this.turnsSeen]; the result is the
    counter after the loop and the empty turns sent, oldest first. *)
Function fillGap (tn seen : Z) {measure (fun s => Z.to_nat (tn - 1 - s)) seen}
  : Z * list Effect :=
  if tn - 1 >? seen then
    let (seen', es) := fillGap tn (seen + 1) in
    (seen', WorkerSendTurn (mkTurn seen [] None) :: es)
  else (seen, []).
Proof. intros tn seen H. apply Z.gtb_lt in H. lia. Defined.

(** The body of [for (const turn of message.turns)]. *)
Definition startTurn (turn : Turn Intent) (r : Runner)
  : Runner * list Effect :=
  if turnNumber turn <? turnsSeen r then (r, [])
  else
    let (seen, es) := fillGap (turnNumber turn) (turnsSeen r) in
    (set_turnsSeen (seen + 1) r, es ++ [WorkerSendTurn turn]).

Fixpoint startTurns (turns : list (Turn Intent)) (r : Runner)
  : Runner * list Effect :=
  match turns with
  | [] => (r, [])
  | turn :: rest =>
      let (r1, es1) := startTurn turn r in
      let (r2, es2) := startTurns rest r1 in
      (r2, es1 ++ es2)
  end.

(** [onmessage]: the four [if (message.type === ...)] blocks in order;
    [now] is the value of [Date.now()]. *)
Definition onmessage (now : Z) (message : ServerMessage Intent) (r : Runner)
  : Runner * list Effect :=
  let r := set_lastMessageTime now r in
  match message with
  | ServerStartGameMessage turns => startTurns turns (set_hasJoined true r)
  | ServerDesyncMessage _ _ _ _ _ =>
      if hasGameStartInfo r
      then (r, [ShowErrorModal "error_modal.desync_notice"])
      else (r, [Throw "missing gameStartInfo"])
  | ServerErrorMessage _ _ =>
      (r, [ShowErrorModal "error_modal.connection_error"])
  | ServerTurnMessage turn =>
      if negb (hasJoined r) then (r, [TransportJoinGame 0])
      else if negb (turnsSeen r =? turnNumber turn) then (r, [ConsoleError])
      else (set_turnsSeen (turnsSeen r + 1) r, [WorkerSendTurn turn])
  | ServerOtherMessage => (r, [])
  end.

(** [stop()]. *)
Definition stop (r : Runner) : Runner * list Effect :=
  if negb (isActive r) then (r, [])
  else (set_isActive false r, [WorkerCleanup; TransportLeaveGame]).

(** What the worker hands to the callback of [worker.start]: an error, or
    the updates of one executed turn, of which the callback reads the hash
    updates [(tick, hash)] and whether there is a win update. *)
Inductive WorkerUpdate : Type :=
| ErrorUpdate (errMsg : string)
| GameUpdateViewData (hashUpdates : list (Z * Z)) (hasWin : bool).

(** The callback passed to [this.worker.start]. *)
Definition onWorkerUpdate (gu : WorkerUpdate) (r : Runner)
  : Runner * list Effect :=
  if negb (hasGameStartInfo r) then (r, [Throw "missing gameStartInfo"])
  else
    match gu with
    | ErrorUpdate _ =>
        let (r', es) := stop r in
        (r', ShowErrorModal "error_modal.crashed" :: ConsoleError :: es)
    | GameUpdateViewData hashUpdates hasWin =>
        (r, TransportTurnComplete
              :: map (fun hu => EmitSendHashEvent (fst hu) (snd hu)) hashUpdates
              ++ [GameViewUpdate; RendererTick]
              ++ (if hasWin then [SaveGame] else []))
    end.

End Runner.
Arguments WorkerSendTurn {Intent} _.
Arguments sentTurns {Intent} _.
Arguments startTurn {Intent} _ _.
Arguments startTurns {Intent} _ _.
Arguments onmessage {Intent} _ _ _.
End ClientGameRunner.

(** ** Transport (remote side: socket and outbound buffer) *)

Module Transport.
Import Schemas.
Section Transport.
Variable Intent : Type.

(** [JSON.stringify(msg, replacer)]. *)
Variable stringify : ClientMessage Intent -> string.

(** [WebSocket.readyState]. *)
Inductive ReadyState : Type := CONNECTING | OPEN | CLOSING | CLOSED.

(** The fields of the class.  [socket] is [None] for [this.socket === null]
    and otherwise carries the ready state of the current socket; the
    [onconnect] and [onmessage] callbacks are the same two closures of the
    game runner every time, so they are not stored. *)
Record Transport : Type := mkTransport {
  isLocal : bool;
  socket : option ReadyState;
  buffer : list string;
  pingInterval : bool          (* this.pingInterval !== null *)
}.

(** Calls made by the transport, in program order. *)
Inductive Effect : Type :=
| NewWebSocket
| SocketSend (data : string)
| SocketClose
| Onconnect
| LocalServerStart
| LocalServerOnMessage (msg : ClientMessage Intent)
| LocalServerTurnComplete
| Alert
| ConsoleLog
| Throw (what : string).

Definition isSocketSend (e : Effect) : option string :=
  match e with SocketSend d => Some d | _ => None end.

(** The strings handed to [socket.send] by a list of calls, in order. *)
Definition wire (es : list Effect) : list string := omap isSocketSend es.

Definition set_socket (s : option ReadyState) (t : Transport) : Transport :=
  mkTransport (isLocal t) s (buffer t) (pingInterval t).
Definition set_buffer (b : list string) (t : Transport) : Transport :=
  mkTransport (isLocal t) (socket t) b (pingInterval t).
Definition set_pingInterval (p : bool) (t : Transport) : Transport :=
  mkTransport (isLocal t) (socket t) (buffer t) p.

(** [Array.prototype.pop]: removes and returns the last element,
    [undefined] on an empty array. *)
Definition pop {A : Type} (a : list A) : option A * list A :=
  (last a, removelast a).

(** [Array.prototype.push]. *)
Definition push {A : Type} (a : list A) (x : A) : list A := a ++ [x].

Lemma pop_shorter {A : Type} (a : list A) :
  (0 <? Z.of_nat (length a)) = true ->
  (length (snd (pop a)) < length a)%nat.
Proof.
  intros H. apply Z.ltb_lt in H. destruct a as [|x a]; [simpl in H; lia|].
  assert (Hne : x :: a <> []) by discriminate.
  destruct (exists_last Hne) as [a' [y E]]. rewrite E. unfold pop.
  cbn [snd]. rewrite removelast_last, length_app. simpl. lia.
Qed.

(** [startPing]: remote transports arm the ping interval once. *)
Definition startPing (t : Transport) : Transport :=
  if isLocal t then t else set_pingInterval true t.

(** [killExistingSocket]: the handlers of the old socket are removed, so no
    event of it is handled afterwards. *)
Definition killExistingSocket (t : Transport) : Transport * list Effect :=
  match socket t with
  | None => (t, [])
  | Some OPEN => (set_socket None t, [SocketClose])
  | Some _ => (set_socket None t, [])
  end.

(** [connectRemote]: a new socket, which starts out connecting. *)
Definition connectRemote (t : Transport) : Transport * list Effect :=
  let (t1, es) := killExistingSocket (startPing t) in
  (set_socket (Some CONNECTING) t1, es ++ [NewWebSocket]).

Definition connectLocal (t : Transport) : Transport * list Effect :=
  (t, [LocalServerStart]).

Definition connect (t : Transport) : Transport * list Effect :=
  if isLocal t then connectLocal t else connectRemote t.

Definition reconnect (t : Transport) : Transport * list Effect := connect t.

(** The loop of [socket.onopen]:
    [while (this.buffer.length > 0) { const msg = this.buffer.pop();
       if (msg === undefined) continue; this.socket.send(msg); }]. *)
Function flushBuffer (buf : list string) {measure length buf}
  : list string * list Effect :=
  if 0 <? Z.of_nat (length buf) then
    match fst (pop buf) with
    | None => flushBuffer (snd (pop buf))
    | Some msg =>
        let (buf', es) := flushBuffer (snd (pop buf)) in
        (buf', SocketSend msg :: es)
    end
  else (buf, []).
Proof.
  all: intros; apply pop_shorter; assumption.
Defined.

(** [socket.onopen], run by the browser once the socket is open. *)
Definition onopen (t : Transport) : Transport * list Effect :=
  match socket t with
  | None => (t, [ConsoleLog])
  | Some _ =>
      let (buf, es) := flushBuffer (buffer t) in
      (set_buffer buf t, es ++ [Onconnect])
  end.

(** [socket.onclose]. *)
Definition onclose (code : Z) (t : Transport) : Transport * list Effect :=
  if code =? 1002 then (t, [Alert])
  else if negb (code =? 1000) then reconnect t
  else (t, []).

(** [sendMsg].  [WebSocket.send] throws on a socket that is still
    connecting. *)
Definition sendMsg (msg : ClientMessage Intent) (t : Transport)
  : Transport * list Effect :=
  if isLocal t then (t, [LocalServerOnMessage msg])
  else
    match socket t with
    | None => (t, [])
    | Some CLOSED =>
        let (t1, es) := connectRemote (set_socket None t) in
        (set_buffer (push (buffer t1) (stringify msg)) t1, SocketClose :: es)
    | Some CONNECTING => (t, [Throw "InvalidStateError"])
    | Some _ => (t, [SocketSend (stringify msg)])
    end.

Definition joinGame (numTurns : Z) (t : Transport) : Transport * list Effect :=
  sendMsg (ClientJoinMessage numTurns) t.

Definition isOpen (t : Transport) : bool :=
  match socket t with Some OPEN => true | _ => false end.

(** [sendIntent] and [onSendHashEvent] share their guard. *)
Definition sendIntent (intent : Intent) (t : Transport)
  : Transport * list Effect :=
  if isLocal t || isOpen t then sendMsg (ClientIntentMessage intent) t
  else (t, [ConsoleLog]).

Definition onSendHashEvent (tick hash : Z) (t : Transport)
  : Transport * list Effect :=
  if isLocal t || isOpen t then sendMsg (ClientHashMessage tick hash) t
  else (t, [ConsoleLog]).

Definition turnComplete (t : Transport) : Transport * list Effect :=
  if isLocal t then (t, [LocalServerTurnComplete]) else (t, []).

(** What happens to a transport: calls of its methods by the game runner and
    events of the current socket.  The browser sets the ready state before it
    runs the handler. *)
Inductive Event : Type :=
| CallJoinGame (numTurns : Z)
| CallSendIntent (intent : Intent)
| CallSendHash (tick hash : Z)
| SocketOpened
| SocketClosed (code : Z).

Definition step (e : Event) (t : Transport) : Transport * list Effect :=
  match e with
  | CallJoinGame n => joinGame n t
  | CallSendIntent i => sendIntent i t
  | CallSendHash k h => onSendHashEvent k h t
  | SocketOpened =>
      match socket t with
      | Some _ => onopen (set_socket (Some OPEN) t)
      | None => (t, [])
      end
  | SocketClosed code =>
      match socket t with
      | Some _ => onclose code (set_socket (Some CLOSED) t)
      | None => (t, [])
      end
  end.

Fixpoint run (es : list Event) (t : Transport) : Transport * list Effect :=
  match es with
  | [] => (t, [])
  | e :: rest =>
      let (t1, out1) := step e t in
      let (t2, out2) := run rest t1 in
      (t2, out1 ++ out2)
  end.

End Transport.
Arguments NewWebSocket {Intent}.
Arguments SocketSend {Intent} _.
Arguments SocketClose {Intent}.
Arguments Onconnect {Intent}.
Arguments Alert {Intent}.
Arguments CallJoinGame {Intent} _.
Arguments CallSendIntent {Intent} _.
Arguments CallSendHash {Intent} _ _.
Arguments SocketOpened {Intent}.
Arguments SocketClosed {Intent} _.
Arguments wire {Intent} _.
Arguments sendMsg {Intent} _ _ _.
Arguments joinGame {Intent} _ _ _.
Arguments sendIntent {Intent} _ _ _.
Arguments onSendHashEvent {Intent} _ _ _ _.
Arguments step {Intent} _ _ _.
Arguments run {Intent} _ _ _.
End Transport.

(** ** LocalServer (single-player and replay turn source) *)

Module LocalServer.
Import Schemas.
Section LocalServer.
Variable Intent : Type.

(** The constructor arguments the server reads.  [gameRecord] is
    [lobbyConfig.gameRecord]; when present it carries the turn list that
    [decompressGameRecord(gameRecord).turns] yields for it.  [isReplay] is
    passed separately by the transport (as [gameRecord !== undefined]). *)
Record Config : Type := mkConfig {
  gameRecord : option (list (Turn Intent));
  hasGameStartInfo : bool;      (* lobbyConfig.gameStartInfo !== undefined *)
  turnIntervalMs : Z;           (* lobbyConfig.serverConfig.turnIntervalMs() *)
  isReplay : bool
}.

(** JavaScript truthiness of [this.lobbyConfig.gameRecord]. *)
Definition hasGameRecord (cfg : Config) : bool :=
  match gameRecord cfg with
  | Some _ => true
  | None => false
  end.

(** The fields of the class. *)
Record Server : Type := mkServer {
  replayTurns : list (Turn Intent);
  turns : list (Turn Intent);
  intents : list Intent;
  startedAt : Z;
  paused : bool;
  replaySpeedMultiplier : Q;
  winner : option string;
  turnsExecuted : Z;
  turnStartTime : Z;
  turnCheckInterval : bool      (* the interval timer is armed *)
}.

(** [ReplaySpeedMultiplier] and its default. *)
Definition slow : Q := 2.
Definition normal : Q := 1.
Definition fast : Q := 1 # 2.
Definition fastest : Q := 0.
Definition defaultReplaySpeedMultiplier : Q := normal.

(** The server as the field initialisers leave it. *)
Definition init : Server :=
  mkServer [] [] [] 0 false defaultReplaySpeedMultiplier None 0 0 false.

(** Calls made by the server, in program order.  [clientMessage] delivers a
    server message to the client. *)
Inductive Effect : Type :=
| clientConnect
| clientMessage (message : ServerMessage Intent)
| ClearInterval
| CreatePartialGameRecord (turns : list (Turn Intent)) (winner : option string)
| ConsoleLog
| ConsoleWarn
| ConsoleError
| Throw (what : string).

Definition set_replayTurns (x : list (Turn Intent)) (s : Server) : Server :=
  mkServer x (turns s) (intents s) (startedAt s) (paused s)
           (replaySpeedMultiplier s) (winner s) (turnsExecuted s)
           (turnStartTime s) (turnCheckInterval s).
Definition set_turns (x : list (Turn Intent)) (s : Server) : Server :=
  mkServer (replayTurns s) x (intents s) (startedAt s) (paused s)
           (replaySpeedMultiplier s) (winner s) (turnsExecuted s)
           (turnStartTime s) (turnCheckInterval s).
Definition set_intents (x : list Intent) (s : Server) : Server :=
  mkServer (replayTurns s) (turns s) x (startedAt s) (paused s)
           (replaySpeedMultiplier s) (winner s) (turnsExecuted s)
           (turnStartTime s) (turnCheckInterval s).
Definition set_startedAt (x : Z) (s : Server) : Server :=
  mkServer (replayTurns s) (turns s) (intents s) x (paused s)
           (replaySpeedMultiplier s) (winner s) (turnsExecuted s)
           (turnStartTime s) (turnCheckInterval s).
Definition set_paused (x : bool) (s : Server) : Server :=
  mkServer (replayTurns s) (turns s) (intents s) (startedAt s) x
           (replaySpeedMultiplier s) (winner s) (turnsExecuted s)
           (turnStartTime s) (turnCheckInterval s).
Definition set_replaySpeedMultiplier (x : Q) (s : Server) : Server :=
  mkServer (replayTurns s) (turns s) (intents s) (startedAt s) (paused s)
           x (winner s) (turnsExecuted s)
           (turnStartTime s) (turnCheckInterval s).
Definition set_winner (x : option string) (s : Server) : Server :=
  mkServer (replayTurns s) (turns s) (intents s) (startedAt s) (paused s)
           (replaySpeedMultiplier s) x (turnsExecuted s)
           (turnStartTime s) (turnCheckInterval s).
Definition set_turnsExecuted (x : Z) (s : Server) : Server :=
  mkServer (replayTurns s) (turns s) (intents s) (startedAt s) (paused s)
           (replaySpeedMultiplier s) (winner s) x
           (turnStartTime s) (turnCheckInterval s).
Definition set_turnStartTime (x : Z) (s : Server) : Server :=
  mkServer (replayTurns s) (turns s) (intents s) (startedAt s) (paused s)
           (replaySpeedMultiplier s) (winner s) (turnsExecuted s)
           x (turnCheckInterval s).
Definition set_turnCheckInterval (x : bool) (s : Server) : Server :=
  mkServer (replayTurns s) (turns s) (intents s) (startedAt s) (paused s)
           (replaySpeedMultiplier s) (winner s) (turnsExecuted s)
           (turnStartTime s) x.

(** [turn.hash = h] on a turn object. *)
Definition set_hash (h : option Z) (t : Turn Intent) : Turn Intent :=
  mkTurn (turnNumber t) (Schemas.intents t) h.

(** JavaScript truthiness of an optional number: [undefined] and [0] are
    falsy. *)
Definition truthy (h : option Z) : bool :=
  match h with
  | None => false
  | Some v => negb (v =? 0)
  end.

(** [endGame()]: the timer is cleared; outside a replay the record of the
    game is built from the committed turns and uploaded. *)
Definition endGame (cfg : Config) (s : Server) : Server * list Effect :=
  let s' := set_turnCheckInterval false s in
  if isReplay cfg then (s', [ConsoleLog; ClearInterval])
  else if negb (hasGameStartInfo cfg)
  then (s', [ConsoleLog; ClearInterval; Throw "missing gameStartInfo"])
  else (s', [ConsoleLog; ClearInterval;
             CreatePartialGameRecord (turns s) (winner s)]).

(** The tail of [endTurn()]: seal [this.intents] into a turn, push it, reset
    the intent list to a fresh array and send the turn. *)
Definition commitTurn (s : Server) : Server * list Effect :=
  let pastTurn := mkTurn (Z.of_nat (length (turns s))) (intents s) None in
  (set_intents [] (set_turns (turns s ++ [pastTurn]) s),
   [clientMessage (ServerTurnMessage pastTurn)]).

(** [endTurn()]. *)
Definition endTurn (cfg : Config) (s : Server) : Server * list Effect :=
  if paused s then (s, [])
  else if 0 <? Z.of_nat (length (replayTurns s)) then
    if Z.of_nat (length (replayTurns s)) <=? Z.of_nat (length (turns s))
    then endGame cfg s
    else
      match replayTurns s !! length (turns s) with
      | None => (s, [Throw "TypeError"])
      | Some archived => commitTurn (set_intents (Schemas.intents archived) s)
      end
  else commitTurn s.

(** [Date.now() > this.turnStartTime + turnIntervalMs]. *)
Definition intervalElapsed (cfg : Config) (now : Z) (s : Server) : bool :=
  negb (Qle_bool (inject_Z now)
          (inject_Z (turnStartTime s)
           + inject_Z (turnIntervalMs cfg) * replaySpeedMultiplier s)).

(** The callback of the 5 ms interval set up by [start()]; [now1] and [now2]
    are the two values of [Date.now()] it reads. *)
Definition turnCheck (cfg : Config) (now1 now2 : Z) (s : Server)
  : Server * list Effect :=
  if (turnsExecuted s =? Z.of_nat (length (turns s)))
     && intervalElapsed cfg now1 s
  then endTurn cfg (set_turnStartTime now2 s)
  else (s, []).

(** [start()]; [now] is [Date.now()]. *)
Definition start (cfg : Config) (now : Z) (s : Server) : Server * list Effect :=
  let s1 := set_startedAt now (set_turnCheckInterval true s) in
  let s2 := match gameRecord cfg with
            | Some archived => set_replayTurns archived s1
            | None => s1
            end in
  if negb (hasGameStartInfo cfg)
  then (s2, [clientConnect; Throw "missing gameStartInfo"])
  else (s2, [clientConnect; clientMessage (ServerStartGameMessage [])]).

Definition pause (s : Server) : Server := set_paused true s.
Definition resume (s : Server) : Server := set_paused false s.

(** [turnComplete()]. *)
Definition turnComplete (s : Server) : Server :=
  set_turnsExecuted (turnsExecuted s + 1) s.

(** The listener for [ReplaySpeedChangeEvent]. *)
Definition onReplaySpeedChange (m : Q) (s : Server) : Server :=
  set_replaySpeedMultiplier m s.

(** [onMessage(clientMsg)].  Indexing [this.turns] or [this.replayTurns]
    outside the array gives [undefined], and touching its [hash] throws. *)
Definition onMessage (cfg : Config) (clientMsg : ClientMessage Intent)
  (s : Server) : Server * list Effect :=
  match clientMsg with
  | ClientIntentMessage intent =>
      if hasGameRecord cfg then (s, [])
      else if paused s then (s, [])
      else (set_intents (intents s ++ [intent]) s, [])
  | ClientHashMessage n h =>
      if negb (hasGameRecord cfg) then
        if Z.rem n 100 =? 0 then
          match index (turns s) n with
          | None => (s, [Throw "TypeError"])
          | Some t =>
              (set_turns (<[Z.to_nat n := set_hash (Some h) t]> (turns s)) s,
               [])
          end
        else (s, [])
      else
        match index (replayTurns s) n with
        | None => (s, [Throw "TypeError"])
        | Some archived =>
            match hash archived with
            | Some archivedHash =>
                if negb (truthy (Some archivedHash)) then (s, [ConsoleWarn])
                else if negb (archivedHash =? h)
                then (s, [ConsoleError;
                          clientMessage
                            (ServerDesyncMessage n archivedHash 0 1 h)])
                else (s, [ConsoleLog])
            | None => (s, [ConsoleWarn])
            end
        end
  | ClientSendWinnerMessage w => (set_winner (Some w) s, [])
  | ClientJoinMessage _ => (s, [])
  | ClientPingMessage => (s, [])
  end.

(** What happens to a local server.  The interval fires only while it is
    armed. *)
Inductive Event : Type :=
| Start (now : Z)
| TurnCheck (now1 now2 : Z)
| ReplaySpeedChange (m : Q)
| Pause
| Resume
| Message (clientMsg : ClientMessage Intent)
| TurnComplete
| EndGame.

Definition step (cfg : Config) (e : Event) (s : Server)
  : Server * list Effect :=
  match e with
  | Start now => start cfg now s
  | TurnCheck now1 now2 =>
      if turnCheckInterval s then turnCheck cfg now1 now2 s else (s, [])
  | ReplaySpeedChange m => (onReplaySpeedChange m s, [])
  | Pause => (pause s, [])
  | Resume => (resume s, [])
  | Message clientMsg => onMessage cfg clientMsg s
  | TurnComplete => (turnComplete s, [])
  | EndGame => endGame cfg s
  end.

Fixpoint run (cfg : Config) (es : list Event) (s : Server)
  : Server * list Effect :=
  match es with
  | [] => (s, [])
  | e :: rest =>
      let (s1, out1) := step cfg e s in
      let (s2, out2) := run cfg rest s1 in
      (s2, out1 ++ out2)
  end.

Definition isTurnMessage (e : Effect) : option (Turn Intent) :=
  match e with
  | clientMessage (ServerTurnMessage t) => Some t
  | _ => None
  end.

(** The turns emitted to the client by a list of calls, in order. *)
Definition emitted (out : list Effect) : list (Turn Intent) :=
  omap isTurnMessage out.

Definition isDesync (e : Effect) : bool :=
  match e with
  | clientMessage (ServerDesyncMessage _ _ _ _ _) => true
  | _ => false
  end.

End LocalServer.
Arguments mkConfig {Intent} _ _ _ _.
Arguments gameRecord {Intent} _.
Arguments hasGameStartInfo {Intent} _.
Arguments turnIntervalMs {Intent} _.
Arguments isReplay {Intent} _.
Arguments hasGameRecord {Intent} _.
Arguments mkServer {Intent} _ _ _ _ _ _ _ _ _ _.
Arguments replayTurns {Intent} _.
Arguments turns {Intent} _.
Arguments intents {Intent} _.
Arguments startedAt {Intent} _.
Arguments paused {Intent} _.
Arguments replaySpeedMultiplier {Intent} _.
Arguments winner {Intent} _.
Arguments turnsExecuted {Intent} _.
Arguments turnStartTime {Intent} _.
Arguments turnCheckInterval {Intent} _.
Arguments clientConnect {Intent}.
Arguments clientMessage {Intent} _.
Arguments ClearInterval {Intent}.
Arguments CreatePartialGameRecord {Intent} _ _.
Arguments ConsoleLog {Intent}.
Arguments ConsoleWarn {Intent}.
Arguments ConsoleError {Intent}.
Arguments Throw {Intent} _.
Arguments Start {Intent} _.
Arguments TurnCheck {Intent} _ _.
Arguments ReplaySpeedChange {Intent} _.
Arguments Pause {Intent}.
Arguments Resume {Intent}.
Arguments Message {Intent} _.
Arguments TurnComplete {Intent}.
Arguments EndGame {Intent}.
Arguments set_replayTurns {Intent} _ _.
Arguments set_turns {Intent} _ _.
Arguments set_intents {Intent} _ _.
Arguments set_startedAt {Intent} _ _.
Arguments set_paused {Intent} _ _.
Arguments set_replaySpeedMultiplier {Intent} _ _.
Arguments set_winner {Intent} _ _.
Arguments set_turnsExecuted {Intent} _ _.
Arguments set_turnStartTime {Intent} _ _.
Arguments set_turnCheckInterval {Intent} _ _.
Arguments set_hash {Intent} _ _.
Arguments endGame {Intent} _ _.
Arguments commitTurn {Intent} _.
Arguments endTurn {Intent} _ _.
Arguments intervalElapsed {Intent} _ _ _.
Arguments turnCheck {Intent} _ _ _ _.
Arguments start {Intent} _ _ _.
Arguments pause {Intent} _.
Arguments resume {Intent} _.
Arguments turnComplete {Intent} _.
Arguments onReplaySpeedChange {Intent} _ _.
Arguments onMessage {Intent} _ _ _.
Arguments step {Intent} _ _ _.
Arguments run {Intent} _ _ _.
Arguments isTurnMessage {Intent} _.
Arguments emitted {Intent} _.
Arguments isDesync {Intent} _.
End LocalServer.

(** * Properties *)

(** ** ClientGameRunner: catch-up, live turns and the worker callback *)

Module ClientGameRunnerProps.
Import Schemas ClientGameRunner.

(** The empty turn the catch-up loop synthesises. *)
Definition emptyTurn {Intent : Type} (n : Z) : Turn Intent := mkTurn n [] None.

(** [n] empty turns numbered from [from]. *)
Fixpoint emptyTurns {Intent : Type} (from : Z) (n : nat) : list (Turn Intent) :=
  match n with
  | O => []
  | S k => emptyTurn from :: emptyTurns (from + 1) k
  end.

Section Props.
Context {Intent : Type}.
Implicit Types (r : Runner) (turn : Turn Intent).

Lemma sentTurns_app (es1 es2 : list (Effect Intent)) :
  sentTurns (es1 ++ es2) = sentTurns es1 ++ sentTurns es2.
Proof. unfold sentTurns. apply omap_app. Qed.

(** The loop stops as soon as the counter reaches [tn - 1]: it sends the
    empty turns [seen .. tn - 2] and never the turn [tn - 1]. *)
Lemma fillGap_spec (tn seen : Z) :
  fst (fillGap Intent tn seen) = Z.max seen (tn - 1) /\
  sentTurns (snd (fillGap Intent tn seen))
  = emptyTurns seen (Z.to_nat (tn - 1 - seen)) /\
  length (snd (fillGap Intent tn seen)) = Z.to_nat (tn - 1 - seen).
Proof.
  functional induction (fillGap Intent tn seen).
  - match goal with H : (_ >? _) = true |- _ => apply Z.gtb_lt in H end.
    match goal with H : fillGap _ _ _ = _, IH : _ /\ _ |- _ =>
      rewrite H in IH; destruct IH as (IH1 & IH2 & IH3) end.
    cbn [fst snd] in *.
    replace (Z.to_nat (tn - 1 - seen)) with (S (Z.to_nat (tn - 1 - (seen + 1))))
      by lia.
    repeat split.
    + lia.
    + cbn. unfold sentTurns in IH2. rewrite IH2. reflexivity.
    + cbn. rewrite IH3. reflexivity.
  - assert (tn - 1 <= seen)
      by (destruct (Z.gtb_spec (tn - 1) seen); [discriminate | lia]).
    cbn. replace (Z.to_nat (tn - 1 - seen)) with O by lia.
    repeat split; lia.
Qed.

(** A batch turn below the counter is skipped. *)
Lemma startTurn_seen r turn :
  turnNumber turn < turnsSeen r -> startTurn turn r = (r, []).
Proof. intros H. unfold startTurn. apply Z.ltb_lt in H. now rewrite H. Qed.

(** A batch turn equal to the counter is applied and counted. *)
Lemma startTurn_next r turn :
  turnNumber turn = turnsSeen r ->
  startTurn turn r = (set_turnsSeen (turnsSeen r + 1) r, [WorkerSendTurn turn]).
Proof.
  intros H. unfold startTurn.
  replace (turnNumber turn <? turnsSeen r) with false
    by (symmetry; apply Z.ltb_ge; lia).
  rewrite fillGap_equation.
  replace (turnNumber turn - 1 >? turnsSeen r) with false
    by (symmetry; destruct (Z.gtb_spec (turnNumber turn - 1) (turnsSeen r)); [lia | reflexivity]).
  reflexivity.
Qed.

(** A batch turn ahead of the counter: the worker receives the empty turns
    [turnsSeen .. turnNumber - 2] and then the turn itself; the turn numbered
    [turnNumber - 1] is not sent, and the counter ends at [turnNumber]. *)
Lemma startTurn_ahead r turn :
  turnsSeen r < turnNumber turn ->
  sentTurns (snd (startTurn turn r))
  = emptyTurns (turnsSeen r) (Z.to_nat (turnNumber turn - 1 - turnsSeen r))
    ++ [turn]
  /\ turnsSeen (fst (startTurn turn r)) = turnNumber turn.
Proof.
  intros H. unfold startTurn.
  replace (turnNumber turn <? turnsSeen r) with false
    by (symmetry; apply Z.ltb_ge; lia).
  pose proof (fillGap_spec (turnNumber turn) (turnsSeen r)) as (F1 & F2 & _).
  destruct (fillGap Intent (turnNumber turn) (turnsSeen r)) as [seen es].
  cbn [fst snd] in *. rewrite sentTurns_app, F2. split; [reflexivity|].
  cbn. lia.
Qed.

(** A batch that continues the counter without a gap is handed to the
    worker as it is, and the counter advances by its length. *)
Lemma startTurns_gapless (batch : list (Turn Intent)) r :
  gapless (turnsSeen r) (map turnNumber batch) ->
  startTurns batch r
  = (set_turnsSeen (turnsSeen r + Z.of_nat (length batch)) r,
     map WorkerSendTurn batch).
Proof.
  revert r. induction batch as [|turn batch IH]; intros r H.
  - cbn. rewrite Z.add_0_r. now destruct r.
  - destruct H as [Hn Hrest]. cbn [startTurns].
    rewrite (startTurn_next r turn Hn), IH by exact Hrest.
    cbn [turnsSeen set_turnsSeen length map app]. f_equal.
    unfold set_turnsSeen. cbn. f_equal. lia.
Qed.

End Props.

(** C1 (the code departs from the claim).  A start batch [[turn 2]] received
    with the turns-seen counter at 0 hands the worker the turn numbers 0 and
    2: the loop condition [turn.turnNumber - 1 > this.turnsSeen] stops one
    turn early, turn 1 is never synthesised, and the sequence handed to the
    worker is not gapless. *)
Theorem start_batch_leaves_gap :
  let r0 := mkRunner true true 0 false 0 in
  let batch := [mkTurn 2 ["spawn"%string] None] in
  let res := onmessage 5 (ServerStartGameMessage batch) r0 in
  map turnNumber (sentTurns (snd res)) = [0; 2]
  /\ ~ gapless 0 (map turnNumber (sentTurns (snd res)))
  /\ turnsSeen (fst res) = 2.
Proof.
  cbv zeta. unfold onmessage. cbn [startTurns].
  pose proof (startTurn_ahead (Intent := string)
                (set_hasJoined true (set_lastMessageTime 5 (mkRunner true true 0 false 0)))
                (mkTurn 2 ["spawn"%string] None)) as H.
  cbn [turnsSeen set_hasJoined set_lastMessageTime turnNumber] in H.
  destruct H as [Hs Hc]; [lia|].
  destruct (startTurn _ _) as [r1 es1]. cbn [fst snd] in *.
  rewrite app_nil_r, Hs. cbn.
  repeat split; [|exact Hc].
  intros [_ [Hbad _]]. discriminate Hbad.
Qed.

Section WorkerCallback.
Context {Intent : Type}.

Definition isHashReport (e : Effect Intent) : bool :=
  match e with EmitSendHashEvent _ _ _ => true | _ => false end.

Definition isTurnComplete (e : Effect Intent) : bool :=
  match e with TransportTurnComplete _ => true | _ => false end.

(** The ordering the specification asks for: wherever the turn-complete
    signal occurs in a sequence of calls, no hash report comes after it. *)
Definition completeAfterReports (es : list (Effect Intent)) : Prop :=
  forall pre post,
    es = pre ++ TransportTurnComplete Intent :: post ->
    forallb (fun e => negb (isHashReport e)) post = true.

(** The ordering the callback has: the signal is the first call, and what
    follows it starts with the hash reports, one per hash update, in the
    order of the updates. *)
Definition reportsAfterComplete (hus : list (Z * Z)) (es : list (Effect Intent))
  : Prop :=
  exists rest,
    es = TransportTurnComplete Intent
           :: map (fun hu => EmitSendHashEvent Intent (fst hu) (snd hu)) hus
           ++ rest
    /\ forallb (fun e => negb (isHashReport e) && negb (isTurnComplete e)) rest
       = true.

(** C3 (as amended).  For every update of an executed turn that the worker
    hands to the callback, the turn-complete signal is the first call the
    callback makes; the hash reports, one for each hash update the worker
    computed for that turn, follow it in order, and nothing after them is a
    signal or a report.  The runner is left unchanged. *)
Theorem turn_complete_then_hash_reports (r : Runner) (hus : list (Z * Z))
  (hasWin : bool) :
  hasGameStartInfo r = true ->
  fst (onWorkerUpdate Intent (GameUpdateViewData hus hasWin) r) = r /\
  reportsAfterComplete hus
    (snd (onWorkerUpdate Intent (GameUpdateViewData hus hasWin) r)).
Proof.
  intros H. unfold onWorkerUpdate. rewrite H. cbn [negb fst snd].
  split; [reflexivity|].
  eexists. split; [reflexivity|]. now destruct hasWin.
Qed.

(** On an error update the callback stops the runner; it neither signals
    turn completion nor reports a hash. *)
Lemma error_update_is_silent (r : Runner) (errMsg : string) :
  forallb (fun e => negb (isHashReport e) && negb (isTurnComplete e))
    (snd (onWorkerUpdate Intent (ErrorUpdate errMsg) r)) = true.
Proof.
  unfold onWorkerUpdate, stop.
  destruct (hasGameStartInfo r), (isActive r); reflexivity.
Qed.

(** Live turns: a turn whose number differs from the counter is never
    applied, whatever the state. *)
Lemma live_turn_mismatch (now : Z) (turn : Turn Intent) (r : Runner) :
  turnNumber turn <> turnsSeen r ->
  sentTurns (snd (onmessage now (ServerTurnMessage turn) r)) = []
  /\ turnsSeen (fst (onmessage now (ServerTurnMessage turn) r)) = turnsSeen r.
Proof.
  intros Hne. unfold onmessage.
  cbn [hasJoined turnsSeen set_lastMessageTime].
  destruct (hasJoined r); cbn [negb]; [|split; reflexivity].
  destruct (Z.eqb_spec (turnsSeen r) (turnNumber turn)) as [E|_];
    [congruence | split; reflexivity].
Qed.

(** The claim C10 as stated: a live turn is applied, and the counter goes up
    by one, exactly when the turn's number equals the counter. *)
Definition appliedIffNext (now : Z) (turn : Turn Intent) (r : Runner) : Prop :=
  (snd (onmessage now (ServerTurnMessage turn) r) = [WorkerSendTurn turn]
   /\ turnsSeen (fst (onmessage now (ServerTurnMessage turn) r))
      = turnsSeen r + 1)
  <-> turnNumber turn = turnsSeen r.

(** C10 (as amended).  A live turn whose number differs from the turns-seen
    counter is never applied and leaves the counter unchanged.  Once the
    client has joined (a start message was handled), a live turn is applied
    and the counter incremented by one exactly when its number equals the
    counter.  Before that, no live turn is applied, whatever its number: the
    client asks to join again from turn 0 and the counter stays. *)
Theorem live_turn_applied_iff_next_when_joined
  (now : Z) (turn : Turn Intent) (r : Runner) :
  (turnNumber turn <> turnsSeen r ->
     sentTurns (snd (onmessage now (ServerTurnMessage turn) r)) = []
     /\ turnsSeen (fst (onmessage now (ServerTurnMessage turn) r))
        = turnsSeen r)
  /\ (hasJoined r = true -> appliedIffNext now turn r)
  /\ (hasJoined r = false ->
        snd (onmessage now (ServerTurnMessage turn) r)
        = [TransportJoinGame Intent 0]
        /\ turnsSeen (fst (onmessage now (ServerTurnMessage turn) r))
           = turnsSeen r).
Proof.
  split; [apply live_turn_mismatch|]. split.
  - intros Hj. unfold appliedIffNext, onmessage.
    cbn [hasJoined turnsSeen set_lastMessageTime]. rewrite Hj. cbn [negb].
    destruct (Z.eqb_spec (turnsSeen r) (turnNumber turn)) as [E|Hne];
      cbn [negb fst snd turnsSeen set_turnsSeen].
    + split; [intros _; congruence | intros _; split; reflexivity].
    + split; [intros [Hbad _]; discriminate Hbad | congruence].
  - intros Hj. unfold onmessage.
    cbn [hasJoined turnsSeen set_lastMessageTime]. rewrite Hj.
    split; reflexivity.
Qed.

End WorkerCallback.

(** C3: the claim as stated fails.  For an update carrying one hash update
    the callback signals turn completion first and reports the hash after
    it. *)
Lemma turn_complete_before_hash_report :
  ~ completeAfterReports
      (snd (onWorkerUpdate string (GameUpdateViewData [(7, 42)] false)
              (mkRunner true true 8 true 0))).
Proof.
  intros H. specialize (H [] _ eq_refl). discriminate H.
Qed.

Lemma turn_complete_then_hash_reports_witness :
  fst (onWorkerUpdate string (GameUpdateViewData [(7, 42)] false)
         (mkRunner true true 8 true 0)) = mkRunner true true 8 true 0 /\
  reportsAfterComplete [(7, 42)]
    (snd (onWorkerUpdate string (GameUpdateViewData [(7, 42)] false)
            (mkRunner true true 8 true 0))).
Proof.
  apply (turn_complete_then_hash_reports (Intent := string)
           (mkRunner true true 8 true 0) [(7, 42)] false).
  reflexivity.
Defined.

(** C10: the claim as stated fails.  Before the client has joined, the live
    turn 0 arrives with the counter at 0 and is not applied. *)
Lemma live_turn_not_applied_before_join :
  ~ appliedIffNext 5 (mkTurn 0 ["spawn"%string] None)
      (mkRunner true true 0 false 0).
Proof.
  intros [_ H]. destruct (H eq_refl) as [Hbad _]. discriminate Hbad.
Qed.

(** After joining, with the counter at 3, the live turn 3 is applied. *)
Lemma live_turn_applied_iff_next_when_joined_witness :
  hasJoined (mkRunner true true 3 true 0) = true
  /\ appliedIffNext 5 (mkTurn 3 ["spawn"%string] None)
       (mkRunner true true 3 true 0)
  /\ onmessage 5 (ServerTurnMessage (mkTurn 3 ["spawn"%string] None))
       (mkRunner true true 3 true 0)
     = (mkRunner true true 4 true 5,
        [WorkerSendTurn (mkTurn 3 ["spawn"%string] None)]).
Proof.
  split; [reflexivity|]. split; [|reflexivity].
  apply (live_turn_applied_iff_next_when_joined 5
           (mkTurn 3 ["spawn"%string] None) (mkRunner true true 3 true 0)).
  reflexivity.
Defined.

End ClientGameRunnerProps.

(** ** Transport: flushing the outbound buffer *)

Module TransportProps.
Import Schemas Transport.

Section Props.
Context {Intent : Type} (stringify : ClientMessage Intent -> string).

Lemma pop_snoc {A : Type} (a : list A) (x : A) : pop (a ++ [x]) = (Some x, a).
Proof. unfold pop. now rewrite last_snoc, removelast_last. Qed.

(** The loop empties the buffer and sends it newest first: [pop] takes from
    the end to which [push] appended. *)
Lemma flushBuffer_spec (buf : list string) :
  flushBuffer Intent buf = ([], map SocketSend (rev buf)).
Proof.
  induction buf as [|x buf IH] using rev_ind.
  - now rewrite flushBuffer_equation.
  - rewrite flushBuffer_equation, pop_snoc, length_app. cbn [length fst snd].
    replace (0 <? Z.of_nat (length buf + 1)) with true
      by (symmetry; apply Z.ltb_lt; lia).
    rewrite IH, rev_app_distr. reflexivity.
Qed.

(** When the socket opens, every buffered message is sent exactly once, in
    the reverse of the order of submission, then the open callback runs; the
    buffer is empty afterwards. *)
Lemma onopen_flushes_reversed (t : Transport) (rs : ReadyState) :
  socket t = Some rs ->
  onopen Intent t
  = (set_buffer [] t,
     map SocketSend (rev (buffer t)) ++ [Onconnect]).
Proof.
  intros H. unfold onopen. rewrite H, flushBuffer_spec. reflexivity.
Qed.

(** A message submitted while the socket is closed is appended to the buffer
    and a new socket is requested; nothing goes on the wire. *)
Lemma sendMsg_closed_buffers (msg : ClientMessage Intent) (t : Transport) :
  isLocal t = false -> socket t = Some CLOSED ->
  buffer (fst (sendMsg stringify msg t)) = buffer t ++ [stringify msg]
  /\ socket (fst (sendMsg stringify msg t)) = Some CONNECTING
  /\ wire (snd (sendMsg stringify msg t)) = [].
Proof.
  intros Hl Hs. unfold sendMsg, connectRemote, killExistingSocket, startPing.
  rewrite Hl, Hs. cbn. rewrite Hl. cbn. repeat split.
Qed.

End Props.

(** A serialisation of join messages for the scenario below. *)
Definition showMessage (msg : ClientMessage string) : string :=
  match msg with
  | ClientIntentMessage intent => intent
  | ClientHashMessage _ _ => "hash"
  | ClientSendWinnerMessage _ => "winner"
  | ClientJoinMessage lastTurn =>
      if lastTurn =? 0 then "join from 0" else "join from later"
  | ClientPingMessage => "ping"
  end.




End TransportProps.

(** ** LocalServer: emission, pause, numbering, replay and hashes *)

Module LocalServerProps.
Import Schemas LocalServer.

Section Props.
Context {Intent : Type}.
Implicit Types (cfg : Config Intent) (s : Server Intent) (e : Event Intent).

(** Case analysis on every test of a handler body. *)
Ltac split_tests :=
  repeat match goal with
         | |- context [if ?b then _ else _] => destruct b
         end.

(** *** What a single handler does to the committed turns *)

Lemma emitted_app (o1 o2 : list (Effect Intent)) :
  emitted (o1 ++ o2) = emitted o1 ++ emitted o2.
Proof. unfold emitted. apply omap_app. Qed.

Lemma endGame_emits_nothing cfg s :
  emitted (snd (endGame cfg s)) = [] /\ turns (fst (endGame cfg s)) = turns s
  /\ turnCheckInterval (fst (endGame cfg s)) = false.
Proof.
  unfold endGame. destruct (isReplay cfg); [repeat split|].
  destruct (hasGameStartInfo cfg); repeat split.
Qed.

(** The effect of a handler on [turns] is one of three: nothing, one turn
    appended (and emitted) whose number is the length before, or a hash
    attached to an existing turn. *)
Inductive turnsChange s : Server Intent -> list (Effect Intent) -> Prop :=
| change_none s' out :
    turns s' = turns s -> emitted out = [] -> turnsChange s s' out
| change_commit s' out ints :
    turns s' = turns s ++ [mkTurn (Z.of_nat (length (turns s))) ints None] ->
    emitted out = [mkTurn (Z.of_nat (length (turns s))) ints None] ->
    turnsChange s s' out
| change_hash s' out n t h :
    turns s !! n = Some t ->
    turns s' = <[n := set_hash (Some h) t]> (turns s) ->
    emitted out = [] -> turnsChange s s' out.

Lemma endTurn_change cfg s : turnsChange s (fst (endTurn cfg s)) (snd (endTurn cfg s)).
Proof.
  unfold endTurn. destruct (paused s); [now apply change_none|].
  destruct (0 <? Z.of_nat (length (replayTurns s))).
  - destruct (_ <=? _).
    + apply change_none; apply endGame_emits_nothing.
    + destruct (replayTurns s !! length (turns s)) as [archived|].
      * eapply change_commit; cbn; reflexivity.
      * now apply change_none.
  - eapply change_commit; cbn; reflexivity.
Qed.

Lemma onMessage_change cfg msg s :
  turnsChange s (fst (onMessage cfg msg s)) (snd (onMessage cfg msg s)).
Proof.
  destruct msg as [intent|n h|w|l|]; cbn [onMessage];
    try (now apply change_none).
  - destruct (hasGameRecord cfg); [now apply change_none|].
    destruct (paused s); now apply change_none.
  - destruct (negb _).
    + destruct (Z.rem n 100 =? 0); [|now apply change_none].
      unfold index. destruct (n <? 0); [now apply change_none|].
      destruct (turns s !! Z.to_nat n) as [t|] eqn:E; [|now apply change_none].
      eapply change_hash; [exact E|reflexivity|reflexivity].
    + destruct (index (replayTurns s) n) as [archived|]; [|now apply change_none].
      destruct (hash archived) as [ah|]; [|now apply change_none].
      destruct (negb (truthy (Some ah))); [now apply change_none|].
      destruct (negb (ah =? h)); now apply change_none.
Qed.

Lemma step_change cfg e s :
  turnsChange s (fst (step cfg e s)) (snd (step cfg e s)).
Proof.
  destruct e; cbn [step]; try (now apply change_none).
  - unfold start. destruct (gameRecord cfg), (negb (hasGameStartInfo cfg));
      now apply change_none.
  - destruct (turnCheckInterval s); [|now apply change_none].
    unfold turnCheck. destruct (_ && _); [|now apply change_none].
    pose proof (endTurn_change cfg (set_turnStartTime now2 s)) as H.
    inversion H; subst; [eapply change_none|eapply change_commit|eapply change_hash];
      eauto.
  - apply onMessage_change.
  - apply change_none; apply endGame_emits_nothing.
Qed.

(** *** Numbering and stability of committed turns *)

(** Two turn records with the same number and the same intents; the hash
    may differ. *)
Definition sameTurn (t t' : Turn Intent) : Prop :=
  turnNumber t' = turnNumber t /\ Schemas.intents t' = Schemas.intents t.

(** A turn list numbered 0, 1, 2, ... *)
Definition numbered (l : list (Turn Intent)) : Prop :=
  gapless 0 (map turnNumber l).

Lemma sameTurn_refl (l : list (Turn Intent)) : Forall2 sameTurn l l.
Proof. induction l; constructor; [split; reflexivity | assumption]. Qed.

Lemma sameTurn_trans (l1 l2 l3 : list (Turn Intent)) :
  Forall2 sameTurn l1 l2 -> Forall2 sameTurn l2 l3 -> Forall2 sameTurn l1 l3.
Proof.
  intros H12. revert l3. induction H12 as [|a b l1 l2 [Hn Hi] _ IH];
    intros l3 H23; inversion H23 as [|? c ? l3' [Hn' Hi'] H23']; subst;
    constructor.
  - split; congruence.
  - now apply IH.
Qed.

Lemma sameTurn_numbers (l l' : list (Turn Intent)) :
  Forall2 sameTurn l l' -> map turnNumber l' = map turnNumber l.
Proof.
  induction 1 as [|a b l l' [Hn _] _ IH]; [reflexivity|].
  cbn. now rewrite Hn, IH.
Qed.

Lemma sameTurn_insert (l : list (Turn Intent)) n t h :
  l !! n = Some t -> Forall2 sameTurn l (<[n := set_hash h t]> l).
Proof.
  revert n. induction l as [|a l IH]; intros [|n] H; try discriminate.
  - cbn in H. injection H as ->. constructor;
      [split; reflexivity | apply sameTurn_refl].
  - cbn. constructor; [split; reflexivity | now apply IH].
Qed.

Lemma gapless_app (from : Z) (l1 l2 : list Z) :
  gapless from (l1 ++ l2)
  <-> gapless from l1 /\ gapless (from + Z.of_nat (length l1)) l2.
Proof.
  revert from. induction l1 as [|a l1 IH]; intros from; cbn [app gapless length].
  - rewrite Z.add_0_r. tauto.
  - rewrite IH. replace (from + 1 + Z.of_nat (length l1))
      with (from + Z.of_nat (S (length l1))) by lia. tauto.
Qed.

(** One handler: the committed turns before it, followed by the turns it
    emitted, are the committed turns after it, hashes apart; and what it
    emitted is numbered from the length before. *)
Lemma turnsChange_stable s s' out :
  turnsChange s s' out ->
  Forall2 sameTurn (turns s ++ emitted out) (turns s')
  /\ gapless (Z.of_nat (length (turns s))) (map turnNumber (emitted out)).
Proof.
  intros [s1 o Ht He|s1 o ints Ht He|s1 o n t h Hl Ht He]; rewrite He, Ht.
  - rewrite app_nil_r. split; [apply sameTurn_refl | exact I].
  - split; [apply sameTurn_refl | cbn; auto].
  - rewrite app_nil_r. split; [now apply sameTurn_insert | exact I].
Qed.

Lemma run_stable cfg (evs : list (Event Intent)) s :
  Forall2 sameTurn (turns s ++ emitted (snd (run cfg evs s)))
          (turns (fst (run cfg evs s)))
  /\ gapless (Z.of_nat (length (turns s)))
       (map turnNumber (emitted (snd (run cfg evs s)))).
Proof.
  revert s. induction evs as [|e evs IH]; intros s; cbn [run].
  - cbn. rewrite app_nil_r. split; [apply sameTurn_refl | exact I].
  - pose proof (turnsChange_stable _ _ _ (step_change cfg e s)) as [H1 G1].
    destruct (step cfg e s) as [s1 out1]. cbn [fst snd] in *.
    specialize (IH s1). destruct (run cfg evs s1) as [s2 out2].
    cbn [fst snd] in *. destruct IH as [H2 G2].
    rewrite emitted_app, map_app. split.
    + eapply sameTurn_trans; [|exact H2]. rewrite app_assoc.
      apply Forall2_app; [exact H1 | apply sameTurn_refl].
    + apply gapless_app. split; [exact G1|].
      apply Forall2_length in H1. rewrite length_app in H1.
      rewrite length_map. replace (Z.of_nat (length (turns s))
                                    + Z.of_nat (length (emitted out1)))
        with (Z.of_nat (length (turns s1))) by lia.
      exact G2.
Qed.

(** C7.  Along any sequence of events, starting from a server whose
    committed turns are numbered 0, 1, 2, ...: every turn the server emits
    carries the number of turns committed before it, so the emitted numbers
    continue the committed ones without gap or duplicate; the committed list
    stays numbered 0, 1, 2, ...; and the committed list after the run is,
    record for record, the committed list before it followed by the emitted
    turns, with the same number and the same intents (only a hash may have
    been attached). *)
Theorem committed_turns_numbered_and_stable cfg (evs : list (Event Intent)) s :
  numbered (turns s) ->
  gapless (Z.of_nat (length (turns s)))
    (map turnNumber (emitted (snd (run cfg evs s))))
  /\ numbered (turns (fst (run cfg evs s)))
  /\ Forall2 sameTurn (turns s ++ emitted (snd (run cfg evs s)))
       (turns (fst (run cfg evs s))).
Proof.
  intros Hn. destruct (run_stable cfg evs s) as [H G].
  split; [exact G|]. split; [|exact H].
  unfold numbered in *. rewrite (sameTurn_numbers _ _ H), map_app.
  apply gapless_app. rewrite length_map. split; [exact Hn | exact G].
Qed.

(** *** Emission is gated by back-pressure and by the scaled interval *)

(** Both conditions of the timer callback: the consumer has completed every
    committed turn, and the tick interval scaled by the current multiplier
    has elapsed since [turnStartTime]. *)
Definition due cfg (now : Z) s : Prop :=
  turnsExecuted s = Z.of_nat (length (turns s))
  /\ (inject_Z (turnStartTime s)
      + inject_Z (turnIntervalMs cfg) * replaySpeedMultiplier s
      < inject_Z now)%Q.

(** The scaled interval has elapsed between the instants [p] and [now]. *)
Definition elapsedSince cfg (p now : Z) s : Prop :=
  (inject_Z p + inject_Z (turnIntervalMs cfg) * replaySpeedMultiplier s
   < inject_Z now)%Q.

(** The clock read by the handlers never goes back: [c] is the last value
    read before the events [es]. *)
Fixpoint clockMonotone (c : Z) (es : list (Event Intent)) : Prop :=
  match es with
  | [] => True
  | TurnCheck now1 now2 :: rest =>
      c <= now1 /\ now1 <= now2 /\ clockMonotone now2 rest
  | Start now :: rest => c <= now /\ clockMonotone now rest
  | _ :: rest => clockMonotone c rest
  end.

(** The instant of the last emission in a run ([last] if there is none):
    the clock value the emitting timer callback stored. *)
Fixpoint lastEmission cfg (es : list (Event Intent)) s (last : option Z)
  : option Z :=
  match es with
  | [] => last
  | e :: rest =>
      lastEmission cfg rest (fst (step cfg e s))
        match e, emitted (snd (step cfg e s)) with
        | TurnCheck _ now2, _ :: _ => Some now2
        | _, _ => last
        end
  end.

Lemma intervalElapsed_spec cfg now s :
  intervalElapsed cfg now s = true
  <-> (inject_Z (turnStartTime s)
       + inject_Z (turnIntervalMs cfg) * replaySpeedMultiplier s
       < inject_Z now)%Q.
Proof.
  unfold intervalElapsed. rewrite negb_true_iff, <- not_true_iff_false.
  rewrite Qle_bool_iff. split; [apply Qnot_le_lt | apply Qlt_not_le].
Qed.

(** [endTurn] reads and writes neither the clock field nor the multiplier. *)
Lemma endTurn_set_turnStartTime cfg now s :
  endTurn cfg (set_turnStartTime now s)
  = (set_turnStartTime now (fst (endTurn cfg s)), snd (endTurn cfg s)).
Proof.
  unfold endTurn, endGame. cbn.
  split_tests; try reflexivity.
  destruct (replayTurns s !! length (turns s)); reflexivity.
Qed.

Lemma endTurn_set_replaySpeedMultiplier cfg m s :
  endTurn cfg (set_replaySpeedMultiplier m s)
  = (set_replaySpeedMultiplier m (fst (endTurn cfg s)), snd (endTurn cfg s)).
Proof.
  unfold endTurn, endGame. cbn.
  split_tests; try reflexivity.
  destruct (replayTurns s !! length (turns s)); reflexivity.
Qed.

Lemma endTurn_turnStartTime cfg s :
  turnStartTime (fst (endTurn cfg s)) = turnStartTime s.
Proof.
  unfold endTurn, endGame.
  split_tests; try reflexivity.
  destruct (replayTurns s !! length (turns s)); reflexivity.
Qed.

Lemma onMessage_emits_nothing cfg msg s :
  emitted (snd (onMessage cfg msg s)) = [].
Proof.
  destruct msg as [i|n h|w|l|]; cbn [onMessage]; try reflexivity.
  - destruct (hasGameRecord cfg); [reflexivity|]. now destruct (paused s).
  - destruct (negb _).
    + destruct (Z.rem n 100 =? 0); [|reflexivity].
      now destruct (index (turns s) n).
    + destruct (index (replayTurns s) n) as [a|]; [|reflexivity].
      destruct (hash a) as [ah|]; [|reflexivity].
      destruct (negb (truthy (Some ah))); [reflexivity|].
      now destruct (negb (ah =? h)).
Qed.

(** Only the timer callback emits turns, and only when both conditions
    hold; it then stores the clock value it read. *)
Lemma step_emits_when_due cfg e s :
  emitted (snd (step cfg e s)) <> [] ->
  exists now1 now2,
    e = TurnCheck now1 now2 /\ due cfg now1 s
    /\ turnStartTime (fst (step cfg e s)) = now2
    /\ step cfg e s = endTurn cfg (set_turnStartTime now2 s).
Proof.
  intros Hem. destruct e as [now|now1 now2|m| | |msg| |].
  - exfalso. apply Hem. cbn. unfold start.
    destruct (gameRecord cfg), (negb (hasGameStartInfo cfg)); reflexivity.
  - exists now1, now2. cbn [step] in *.
    destruct (turnCheckInterval s); [|now destruct Hem].
    unfold turnCheck in *.
    destruct (turnsExecuted s =? Z.of_nat (length (turns s))) eqn:Hx;
      [|now destruct Hem].
    destruct (intervalElapsed cfg now1 s) eqn:Hi; [|now destruct Hem].
    cbn [andb] in *. repeat split.
    + now apply Z.eqb_eq.
    + now apply intervalElapsed_spec.
    + now rewrite endTurn_turnStartTime.
  - now destruct Hem.
  - now destruct Hem.
  - now destruct Hem.
  - exfalso. apply Hem. apply onMessage_emits_nothing.
  - now destruct Hem.
  - exfalso. apply Hem. apply endGame_emits_nothing.
Qed.

Lemma onMessage_turnStartTime cfg msg s :
  turnStartTime (fst (onMessage cfg msg s)) = turnStartTime s.
Proof.
  destruct msg as [i|n h|w|l|]; cbn [onMessage]; try reflexivity.
  - destruct (hasGameRecord cfg); [reflexivity|]. now destruct (paused s).
  - destruct (negb _).
    + destruct (Z.rem n 100 =? 0); [|reflexivity].
      now destruct (index (turns s) n).
    + destruct (index (replayTurns s) n) as [a|]; [|reflexivity].
      destruct (hash a) as [ah|]; [|reflexivity].
      destruct (negb (truthy (Some ah))); [reflexivity|].
      now destruct (negb (ah =? h)).
Qed.

(** [turnStartTime] only ever receives the second clock value of a timer
    callback. *)
Lemma step_turnStartTime cfg e s :
  turnStartTime (fst (step cfg e s)) = turnStartTime s
  \/ exists now1 now2,
       e = TurnCheck now1 now2 /\ turnStartTime (fst (step cfg e s)) = now2.
Proof.
  destruct e as [now|now1 now2|m| | |msg| |]; cbn [step];
    try (left; reflexivity).
  - left. unfold start.
    destruct (gameRecord cfg), (negb (hasGameStartInfo cfg)); reflexivity.
  - destruct (turnCheckInterval s); [|left; reflexivity].
    unfold turnCheck. destruct (_ && _); [|left; reflexivity].
    right. exists now1, now2. split; [reflexivity|].
    now rewrite endTurn_turnStartTime.
  - left. apply onMessage_turnStartTime.
  - left. unfold endGame. destruct (isReplay cfg); [reflexivity|].
    now destruct (negb (hasGameStartInfo cfg)).
Qed.

Lemma run_cons cfg e (es : list (Event Intent)) s :
  run cfg (e :: es) s
  = (fst (run cfg es (fst (step cfg e s))),
     snd (step cfg e s) ++ snd (run cfg es (fst (step cfg e s)))).
Proof.
  cbn [run]. destruct (step cfg e s) as [s1 o1].
  cbn [fst snd]. now destruct (run cfg es s1).
Qed.

Lemma run_app cfg (es1 es2 : list (Event Intent)) s :
  run cfg (es1 ++ es2) s
  = (fst (run cfg es2 (fst (run cfg es1 s))),
     snd (run cfg es1 s) ++ snd (run cfg es2 (fst (run cfg es1 s)))).
Proof.
  revert s. induction es1 as [|e es1 IH]; intros s.
  - cbn. now destruct (run cfg es2 s).
  - rewrite <- app_comm_cons, !run_cons, IH. cbn [fst snd].
    now rewrite app_assoc.
Qed.

(** With a clock that never goes back, [turnStartTime] is never earlier
    than the last emission. *)
Lemma lastEmission_bound cfg (es : list (Event Intent)) :
  forall s last c,
    clockMonotone c es ->
    (forall q, last = Some q -> q <= turnStartTime s /\ q <= c) ->
    forall p, lastEmission cfg es s last = Some p ->
              p <= turnStartTime (fst (run cfg es s)).
Proof.
  induction es as [|e es IH]; intros s last c Hmono Hinv p Hlast.
  - cbn in *. now apply Hinv.
  - rewrite run_cons. cbn [fst lastEmission] in *.
    pose proof (step_turnStartTime cfg e s) as Hts.
    destruct e as [now|now1 now2|m| | |msg| |].
    2: {
      destruct Hmono as (Hc1 & Hc2 & Hmono).
      destruct (emitted (snd (step cfg (TurnCheck now1 now2) s))) as [|t ts] eqn:Hem.
      - apply (IH _ last now2 Hmono); [|exact Hlast].
        intros q Hq. destruct (Hinv q Hq) as [Hq1 Hq2].
        destruct Hts as [Hts|(a & b & Heq & Hts)].
        + rewrite Hts. lia.
        + injection Heq as <- <-. rewrite Hts. lia.
      - apply (IH _ (Some now2) now2 Hmono); [|exact Hlast].
        intros q Hq. injection Hq as <-.
        destruct (step_emits_when_due cfg (TurnCheck now1 now2) s)
          as (a & b & Heq & _ & Hst & _); [now rewrite Hem|].
        injection Heq as <- <-. rewrite Hst. lia.
    }
    1: destruct Hmono as [Hc Hmono].
    1: apply (IH _ last now Hmono); [|exact Hlast].
    2-7: apply (IH _ last c Hmono); [|exact Hlast].
    all: intros q Hq; destruct (Hinv q Hq) as [Hq1 Hq2];
      (destruct Hts as [Hts|(a & b & Heq & _)]; [rewrite Hts; lia | discriminate Heq]).
Qed.

(** C4.  Let the clock never go back.  If a handler of the local server
    emits a turn in a state reached by any run, then the handler is the
    timer callback and both conditions hold there: the turns-executed
    counter equals the number of committed turns, and the tick interval
    scaled by the current speed multiplier has elapsed since
    [turnStartTime], hence also since the previous emission of the run.
    Under any other speed multiplier the same event in the same state either
    emits nothing or emits exactly the same turn: the multiplier decides
    when a turn is emitted, never what it contains. *)
Theorem turn_emitted_only_when_due cfg (evs : list (Event Intent)) e s0 c0 :
  clockMonotone c0 evs ->
  emitted (snd (step cfg e (fst (run cfg evs s0)))) <> [] ->
  (exists now1 now2,
      e = TurnCheck now1 now2
      /\ due cfg now1 (fst (run cfg evs s0))
      /\ forall p, lastEmission cfg evs s0 None = Some p ->
                   elapsedSince cfg p now1 (fst (run cfg evs s0)))
  /\ forall m,
       emitted (snd (step cfg e (onReplaySpeedChange m (fst (run cfg evs s0)))))
       = []
       \/ emitted (snd (step cfg e (onReplaySpeedChange m (fst (run cfg evs s0)))))
          = emitted (snd (step cfg e (fst (run cfg evs s0)))).
Proof.
  intros Hmono Hem. set (s := fst (run cfg evs s0)) in *.
  destruct (step_emits_when_due cfg e s Hem)
    as (now1 & now2 & -> & Hdue & _ & Hstep).
  split.
  - exists now1, now2. split; [reflexivity|]. split; [exact Hdue|].
    intros p Hp. unfold elapsedSince. destruct Hdue as [_ Hlt].
    assert (Hle : p <= turnStartTime s).
    { apply (lastEmission_bound cfg evs s0 None c0 Hmono); [|exact Hp].
      intros q Hq. discriminate Hq. }
    eapply Qle_lt_trans; [|exact Hlt].
    apply Qplus_le_l. now rewrite <- Zle_Qle.
  - intros m. rewrite Hstep, endTurn_set_turnStartTime. cbn [snd step].
    unfold onReplaySpeedChange. cbn [turnCheckInterval set_replaySpeedMultiplier].
    destruct (turnCheckInterval s); [|left; reflexivity].
    unfold turnCheck. destruct (_ && _); [|left; reflexivity].
    right. now rewrite endTurn_set_turnStartTime, endTurn_set_replaySpeedMultiplier.
Qed.

(** *** Pause *)

(** C6.  While the server is paused: [endTurn] does nothing; the timer
    callback emits no turn and leaves the committed turns, the pending
    intents and the pause flag as they are; an intent message leaves the
    whole state unchanged, so every later run behaves as if the intent had
    never been submitted.  Resuming only clears the pause flag, pausing and
    resuming a running server gives back the same state, and in
    single-player mode [endTurn] on the resumed server seals the pending
    intents into the next turn. *)
Theorem paused_is_a_hard_stop cfg s :
  paused s = true ->
  endTurn cfg s = (s, [])
  /\ (forall now1 now2,
        emitted (snd (step cfg (TurnCheck now1 now2) s)) = []
        /\ turns (fst (step cfg (TurnCheck now1 now2) s)) = turns s
        /\ intents (fst (step cfg (TurnCheck now1 now2) s)) = intents s
        /\ paused (fst (step cfg (TurnCheck now1 now2) s)) = true)
  /\ (forall intent, onMessage cfg (ClientIntentMessage intent) s = (s, []))
  /\ (forall intent rest,
        run cfg (Message (ClientIntentMessage intent) :: rest) s
        = run cfg rest s)
  /\ paused (resume s) = false
  /\ turns (resume s) = turns s /\ intents (resume s) = intents s
  /\ (forall s0, paused s0 = false -> resume (pause s0) = s0)
  /\ (replayTurns s = [] ->
      emitted (snd (endTurn cfg (resume s)))
      = [mkTurn (Z.of_nat (length (turns s))) (intents s) None]).
Proof.
  intros Hp.
  assert (Hend : forall s1, paused s1 = true -> endTurn cfg s1 = (s1, []))
    by (intros s1 H1; unfold endTurn; now rewrite H1).
  assert (Hint : forall intent,
             onMessage cfg (ClientIntentMessage intent) s = (s, [])).
  { intros intent. cbn [onMessage]. rewrite Hp.
    now destruct (hasGameRecord cfg). }
  split; [now apply Hend|]. split; [|split; [exact Hint|split]].
  - intros now1 now2. cbn [step].
    destruct (turnCheckInterval s); [|cbn; now rewrite Hp].
    unfold turnCheck. destruct (_ && _); [|cbn; now rewrite Hp].
    rewrite Hend by exact Hp. cbn. now rewrite Hp.
  - intros intent rest. rewrite run_cons. cbn [step]. rewrite Hint.
    cbn [fst snd app]. now destruct (run cfg rest s).
  - repeat split.
    + intros [] H0. cbn in *. now rewrite H0.
    + intros Hr. unfold endTurn, resume. cbn. now rewrite Hr.
Qed.

(** *** Hashes *)

(** C9.  In single-player mode (no game record) a hash reported for a
    committed turn [n] is stored on that turn's record when [n % 100 === 0],
    leaving its number and intents and every other record alone; for any
    other [n] the message changes nothing.  So, unless the record already
    held that very hash, the record holds the reported hash afterwards if
    and only if [n % 100 === 0].  No hash message, whatever its turn number,
    leads to a desync message: nothing is compared. *)
Theorem singleplayer_hash_sampled cfg s (n h : Z) (t : Turn Intent) :
  gameRecord cfg = None ->
  index (turns s) n = Some t ->
  (Z.rem n 100 = 0 ->
     onMessage cfg (ClientHashMessage n h) s
     = (set_turns (<[Z.to_nat n := set_hash (Some h) t]> (turns s)) s, [])
     /\ index (turns (fst (onMessage cfg (ClientHashMessage n h) s))) n
        = Some (mkTurn (turnNumber t) (Schemas.intents t) (Some h))
     /\ forall k, k <> Z.to_nat n ->
          turns (fst (onMessage cfg (ClientHashMessage n h) s)) !! k
          = turns s !! k)
  /\ (Z.rem n 100 <> 0 -> onMessage cfg (ClientHashMessage n h) s = (s, []))
  /\ (hash t <> Some h ->
      index (turns (fst (onMessage cfg (ClientHashMessage n h) s))) n
      = Some (set_hash (Some h) t)
      <-> Z.rem n 100 = 0)
  /\ (forall n' h',
        existsb isDesync (snd (onMessage cfg (ClientHashMessage n' h') s))
        = false).
Proof.
  intros Hg Hidx.
  assert (Hno : Z.rem n 100 <> 0 ->
                onMessage cfg (ClientHashMessage n h) s = (s, [])).
  { intros Hrem. cbn [onMessage]. unfold hasGameRecord. rewrite Hg.
    cbn [negb]. apply Z.eqb_neq in Hrem. now rewrite Hrem. }
  assert (Hyes : Z.rem n 100 = 0 ->
                 index (turns (fst (onMessage cfg (ClientHashMessage n h) s))) n
                 = Some (set_hash (Some h) t)).
  { intros Hrem. cbn [onMessage]. unfold hasGameRecord. rewrite Hg.
    cbn [negb]. apply Z.eqb_eq in Hrem. rewrite Hrem, Hidx.
    cbn [fst turns set_turns]. unfold index in *.
    destruct (n <? 0); [discriminate|].
    rewrite list_lookup_insert_eq; [reflexivity|].
    now apply lookup_lt_Some in Hidx. }
  split; [|split; [exact Hno|split]].
  2: { intros Hh. split; [|exact Hyes]. intros Hst.
       destruct (Z.eq_dec (Z.rem n 100) 0) as [|Hrem]; [assumption|].
       rewrite (Hno Hrem) in Hst. cbn [fst] in Hst. rewrite Hidx in Hst.
       injection Hst as Hst. exfalso. apply Hh. rewrite Hst. reflexivity. }
  - intros Hrem. cbn [onMessage]. unfold hasGameRecord. rewrite Hg.
    cbn [negb]. apply Z.eqb_eq in Hrem. rewrite Hrem, Hidx. cbn [fst turns set_turns].
    split; [reflexivity|]. unfold index in *. destruct (n <? 0); [discriminate|].
    split.
    + rewrite list_lookup_insert_eq; [reflexivity|].
      now apply lookup_lt_Some in Hidx.
    + intros k Hk. now apply list_lookup_insert_ne.
  - intros n' h'. cbn [onMessage]. unfold hasGameRecord. rewrite Hg.
    cbn [negb]. destruct (Z.rem n' 100 =? 0); [|reflexivity].
    now destruct (index (turns s) n').
Qed.

(** In replay mode, for an archived turn whose hash is a non-zero number:
    a different reported hash yields a desync message naming the turn, the
    archived hash and the reported hash; an equal one yields none.  With no
    archived hash the check is skipped. *)
Lemma replay_hash_check cfg s (n h : Z) (archived : Turn Intent) arch :
  gameRecord cfg = Some arch ->
  index (replayTurns s) n = Some archived ->
  match hash archived with
  | None => onMessage cfg (ClientHashMessage n h) s = (s, [ConsoleWarn])
  | Some ah =>
      ah <> 0 ->
      (ah <> h ->
         onMessage cfg (ClientHashMessage n h) s
         = (s, [ConsoleError; clientMessage (ServerDesyncMessage n ah 0 1 h)]))
      /\ (ah = h ->
            onMessage cfg (ClientHashMessage n h) s = (s, [ConsoleLog]))
  end.
Proof.
  intros Hg Hidx. cbn [onMessage]. unfold hasGameRecord. rewrite Hg.
  cbn [negb]. rewrite Hidx. destruct (hash archived) as [ah|]; [|reflexivity].
  intros Hnz. cbn [truthy]. apply Z.eqb_neq in Hnz. rewrite Hnz. cbn [negb].
  split; intros Hh.
  - apply Z.eqb_neq in Hh. now rewrite Hh.
  - apply Z.eqb_eq in Hh. now rewrite Hh.
Qed.

(** *** Replay *)

(** In replay mode with a non-empty archived turn list: intent messages are
    ignored; [endTurn] emits, as turn [N], the intents archived at index
    [N]; and once as many turns are committed as were archived, [endTurn]
    ends the game, which clears the timer, so that no further turn is
    emitted. *)
Lemma replay_follows_archive cfg s (arch : list (Turn Intent)) :
  gameRecord cfg = Some arch -> replayTurns s = arch -> arch <> [] ->
  (forall intent, onMessage cfg (ClientIntentMessage intent) s = (s, []))
  /\ (paused s = false ->
      forall archived, arch !! length (turns s) = Some archived ->
        emitted (snd (endTurn cfg s))
        = [mkTurn (Z.of_nat (length (turns s))) (Schemas.intents archived) None])
  /\ (paused s = false -> (length arch <= length (turns s))%nat ->
      endTurn cfg s = endGame cfg s
      /\ emitted (snd (endTurn cfg s)) = []
      /\ turnCheckInterval (fst (endTurn cfg s)) = false
      /\ forall now1 now2,
           step cfg (TurnCheck now1 now2) (fst (endTurn cfg s))
           = (fst (endTurn cfg s), [])).
Proof.
  intros Hg Hr Hne. split; [|split].
  - intros intent. cbn [onMessage]. unfold hasGameRecord. rewrite Hg.
    reflexivity.
  - intros Hp archived Hl. unfold endTurn. rewrite Hp, Hr.
    replace (0 <? Z.of_nat (length arch)) with true
      by (symmetry; apply Z.ltb_lt; destruct arch; [congruence | cbn; lia]).
    apply lookup_lt_Some in Hl as Hlt.
    replace (Z.of_nat (length arch) <=? Z.of_nat (length (turns s))) with false
      by (symmetry; apply Z.leb_gt; lia).
    now rewrite Hl.
  - intros Hp Hle.
    assert (E : endTurn cfg s = endGame cfg s).
    { unfold endTurn. rewrite Hp, Hr.
      replace (0 <? Z.of_nat (length arch)) with true
        by (symmetry; apply Z.ltb_lt; destruct arch; [congruence | cbn; lia]).
      replace (Z.of_nat (length arch) <=? Z.of_nat (length (turns s))) with true
        by (symmetry; apply Z.leb_le; lia).
      reflexivity. }
    rewrite E. pose proof (endGame_emits_nothing cfg s) as (H1 & _ & H3).
    repeat split; [exact H1 | exact H3|].
    intros now1 now2. cbn [step]. now rewrite H3.
Qed.

End Props.

(** *** Concrete runs *)

(** A single-player game and a replay of an archived turn list, both with
    the default tick interval of 100 ms. *)
Definition singlePlayer : Config string := mkConfig None true 100 false.
Definition replayOf (archive : list (Turn string)) : Config string :=
  mkConfig (Some archive) true 100 true.

(** A single-player run: one intent, the first turn at 150 ms, its
    completion and its hash, then fast replay speed. *)
Definition firstTurn : list (Event string) :=
  [Start 0; Message (ClientIntentMessage "spawn"%string); TurnCheck 150 150;
   TurnComplete; Message (ClientHashMessage 0 42); ReplaySpeedChange fast].

Lemma turn_emitted_only_when_due_witness :
  clockMonotone 0 firstTurn
  /\ emitted (snd (step singlePlayer (TurnCheck 201 202)
                     (fst (run singlePlayer firstTurn (init string))))) <> []
  /\ (exists now1 now2,
         TurnCheck 201 202 = TurnCheck (Intent := string) now1 now2
         /\ due singlePlayer now1 (fst (run singlePlayer firstTurn (init string)))
         /\ forall p,
              lastEmission singlePlayer firstTurn (init string) None = Some p ->
              elapsedSince singlePlayer p now1
                (fst (run singlePlayer firstTurn (init string))))
  /\ forall m,
       emitted (snd (step singlePlayer (TurnCheck 201 202)
                       (onReplaySpeedChange m
                          (fst (run singlePlayer firstTurn (init string))))))
       = []
       \/ emitted (snd (step singlePlayer (TurnCheck 201 202)
                          (onReplaySpeedChange m
                             (fst (run singlePlayer firstTurn (init string))))))
          = emitted (snd (step singlePlayer (TurnCheck 201 202)
                            (fst (run singlePlayer firstTurn (init string))))).
Proof.
  split; [cbn; lia|]. split; [vm_compute; discriminate|].
  apply (turn_emitted_only_when_due singlePlayer firstTurn (TurnCheck 201 202)
           (init string) 0).
  - cbn; lia.
  - vm_compute; discriminate.
Defined.

Lemma paused_is_a_hard_stop_witness :
  paused (pause (fst (run singlePlayer firstTurn (init string)))) = true
  /\ endTurn singlePlayer (pause (fst (run singlePlayer firstTurn (init string))))
     = (pause (fst (run singlePlayer firstTurn (init string))), []).
Proof.
  split; [reflexivity|].
  apply (paused_is_a_hard_stop singlePlayer
           (pause (fst (run singlePlayer firstTurn (init string))))).
  reflexivity.
Defined.

Lemma committed_turns_numbered_and_stable_witness :
  numbered (turns (init string))
  /\ gapless 0
       (map turnNumber
          (emitted (snd (run singlePlayer
                           (firstTurn ++ [TurnCheck 201 202]) (init string)))))
  /\ numbered (turns (fst (run singlePlayer
                             (firstTurn ++ [TurnCheck 201 202]) (init string))))
  /\ Forall2 sameTurn
       (turns (init string)
        ++ emitted (snd (run singlePlayer
                           (firstTurn ++ [TurnCheck 201 202]) (init string))))
       (turns (fst (run singlePlayer
                      (firstTurn ++ [TurnCheck 201 202]) (init string)))).
Proof.
  split; [exact I|].
  apply (committed_turns_numbered_and_stable singlePlayer
           (firstTurn ++ [TurnCheck 201 202]) (init string)).
  exact I.
Defined.

(** The run above commits turn 0 with the intent and turn 1 empty, and
    keeps the hash reported for turn 0. *)
Example firstTurn_committed :
  turns (fst (run singlePlayer (firstTurn ++ [TurnCheck 201 202]) (init string)))
  = [mkTurn 0 ["spawn"%string] (Some 42); mkTurn 1 [] None].
Proof. reflexivity. Qed.

Lemma singleplayer_hash_sampled_witness :
  gameRecord singlePlayer = None
  /\ index [mkTurn 0 ["spawn"%string] None] 0
     = Some (mkTurn 0 ["spawn"%string] None)
  /\ (Z.rem 0 100 = 0 ->
      onMessage singlePlayer (ClientHashMessage 0 42)
        (set_turns [mkTurn 0 ["spawn"%string] None] (init string))
      = (set_turns [mkTurn 0 ["spawn"%string] (Some 42)] (init string), [])).
Proof.
  split; [reflexivity|]. split; [reflexivity|]. intros H.
  apply (singleplayer_hash_sampled singlePlayer
           (set_turns [mkTurn 0 ["spawn"%string] None] (init string))
           0 42 (mkTurn 0 ["spawn"%string] None) eq_refl eq_refl).
  exact H.
Defined.

(** A hash for turn 7 is dropped in single-player mode. *)
Example singleplayer_hash_dropped :
  let s := set_turns (map (fun n => mkTurn n [] None) [0; 1; 2; 3; 4; 5; 6; 7])
             (init string) in
  onMessage singlePlayer (ClientHashMessage 7 42) s = (s, []).
Proof. reflexivity. Qed.

(** C5 (the code departs from the claim).  The archive of a replay holds
    turn 0 with the hash 0.  After turn 0 is emitted the client reports the
    hash 7 for it.  The guard [if (!archivedHash)] takes the archived hash 0
    for a missing one: the server only logs a warning, and no desync message
    is delivered although the archived and the reported hash differ. *)
Theorem replay_zero_hash_not_compared :
  let cfg := replayOf [mkTurn 0 ["spawn"%string] (Some 0)] in
  let s := fst (run cfg [Start 0; TurnCheck 150 150; TurnComplete]
                  (init string)) in
  hash <$> replayTurns s !! 0%nat = Some (Some 0)
  /\ onMessage cfg (ClientHashMessage 0 7) s = (s, [ConsoleWarn])
  /\ existsb isDesync (snd (onMessage cfg (ClientHashMessage 0 7) s)) = false.
Proof. cbv zeta. repeat split. Qed.

(** With any non-zero archived hash the same report is answered by a
    desync message. *)
Example replay_nonzero_hash_compared :
  let cfg := replayOf [mkTurn 0 ["spawn"%string] (Some 9)] in
  let s := fst (run cfg [Start 0; TurnCheck 150 150; TurnComplete]
                  (init string)) in
  onMessage cfg (ClientHashMessage 0 7) s
  = (s, [ConsoleError; clientMessage (ServerDesyncMessage 0 9 0 1 7)]).
Proof. reflexivity. Qed.

(** C8 (the code departs from the claim).  A replay of a game record with
    no turns: [endTurn] recognises a replay by [this.replayTurns.length > 0],
    so with an empty archived list it takes the single-player path.  All
    (zero) archived turns have been emitted, yet the server does not end the
    game: it keeps the timer armed and emits the turns 0 and 1, empty, which
    are at no index of the archive. *)
Theorem empty_replay_keeps_emitting :
  let cfg := replayOf [] in
  let res := run cfg [Start 0; Message (ClientIntentMessage "spawn"%string);
                      TurnCheck 150 150; TurnComplete; TurnCheck 300 300]
               (init string) in
  replayTurns (fst res) = []
  /\ emitted (snd res) = [mkTurn 0 [] None; mkTurn 1 [] None]
  /\ turnCheckInterval (fst res) = true
  /\ ~ In ClearInterval (snd res).
Proof.
  cbv zeta. split; [reflexivity|]. split; [reflexivity|].
  split; [reflexivity|]. vm_compute. intuition discriminate.
Qed.

(** A replay of a two-turn archive emits the archived intents and then
    ends: the third timer callback clears the timer and later ones are not
    run. *)
Example replay_two_turns :
  let cfg := replayOf [mkTurn 0 ["spawn"%string] None;
                       mkTurn 1 ["attack"%string] (Some 9)] in
  let res := run cfg [Start 0; TurnCheck 150 150; TurnComplete;
                      Message (ClientIntentMessage "emoji"%string);
                      TurnCheck 300 300; TurnComplete; TurnCheck 450 450;
                      TurnCheck 600 600]
               (init string) in
  emitted (snd res) = [mkTurn 0 ["spawn"%string] None;
                       mkTurn 1 ["attack"%string] None]
  /\ turnCheckInterval (fst res) = false.
Proof. cbv zeta. split; reflexivity. Qed.

End LocalServerProps.

(** * Further properties of the three classes *)

(** ** LocalServer over whole runs *)

Module LocalServerRuns.
Import Schemas LocalServer LocalServerProps.

(** Case analysis on every test of a handler body. *)
Ltac case_tests :=
  repeat match goal with
         | |- context [if ?b then _ else _] => destruct b eqn:?
         | |- context [match ?o with Some _ => _ | None => _ end] =>
             destruct o eqn:?
         end.

Section Runs.
Context {Intent : Type}.
Implicit Types (cfg : Config Intent) (s : Server Intent) (e : Event Intent).

(** The intents a run accepts: those received while the pause flag, as
    the pause and resume events of the run set it, is clear. *)
Fixpoint acceptedIntents (isPaused : bool) (es : list (Event Intent))
  : list Intent :=
  match es with
  | [] => []
  | Pause :: rest => acceptedIntents true rest
  | Resume :: rest => acceptedIntents false rest
  | Message (ClientIntentMessage intent) :: rest =>
      if isPaused then acceptedIntents isPaused rest
      else intent :: acceptedIntents isPaused rest
  | _ :: rest => acceptedIntents isPaused rest
  end.

(** A committed turn list whose hashes sit only on turn numbers divisible
    by 100. *)
Definition sampled (l : list (Turn Intent)) : Prop :=
  Forall (fun t => hash t = None \/ Z.rem (turnNumber t) 100 = 0) l.

Definition isRecord (e : Effect Intent) : bool :=
  match e with CreatePartialGameRecord _ _ => true | _ => false end.

(** The committed turns follow the archive [arch]: the server replays
    [arch], has committed no more turns than it holds, and the intents
    committed so far are those of its first entries. *)
Definition followsArchive (arch : list (Turn Intent)) s : Prop :=
  replayTurns s = arch
  /\ (length (turns s) <= length arch)%nat
  /\ map Schemas.intents (turns s)
     = map Schemas.intents (take (length (turns s)) arch).

(** *** Field by field: what a handler leaves alone *)

Lemma endTurn_fields cfg s :
  turnsExecuted (fst (endTurn cfg s)) = turnsExecuted s
  /\ paused (fst (endTurn cfg s)) = paused s
  /\ replayTurns (fst (endTurn cfg s)) = replayTurns s
  /\ winner (fst (endTurn cfg s)) = winner s.
Proof.
  unfold endTurn, endGame. case_tests; repeat split; cbn; congruence.
Qed.

Lemma onMessage_fields cfg msg s :
  turnsExecuted (fst (onMessage cfg msg s)) = turnsExecuted s
  /\ paused (fst (onMessage cfg msg s)) = paused s
  /\ replayTurns (fst (onMessage cfg msg s)) = replayTurns s
  /\ turnCheckInterval (fst (onMessage cfg msg s)) = turnCheckInterval s.
Proof.
  destruct msg; cbn [onMessage]; case_tests; repeat split; cbn; congruence.
Qed.

Lemma step_turnsExecuted cfg e s :
  turnsExecuted s <= turnsExecuted (fst (step cfg e s))
  /\ (e <> TurnComplete ->
      turnsExecuted (fst (step cfg e s)) = turnsExecuted s).
Proof.
  destruct e as [now|now1 now2|m| | |msg| |]; cbn [step].
  - unfold start. case_tests; cbn; split; (lia || reflexivity).
  - destruct (turnCheckInterval s); [|cbn; split; (lia || reflexivity)].
    unfold turnCheck. destruct (_ && _); [|cbn; split; (lia || reflexivity)].
    destruct (endTurn_fields cfg (set_turnStartTime now2 s)) as (-> & _).
    cbn; split; (lia || reflexivity).
  - cbn; split; (lia || reflexivity).
  - cbn; split; (lia || reflexivity).
  - cbn; split; (lia || reflexivity).
  - destruct (onMessage_fields cfg msg s) as (-> & _).
    split; (lia || reflexivity).
  - cbn. split; [lia | congruence].
  - unfold endGame. case_tests; cbn; split; (lia || reflexivity).
Qed.

Lemma turnsChange_length s s' out :
  turnsChange s s' out ->
  length (turns s') = (length (turns s) + length (emitted out))%nat.
Proof.
  intros [? ? Ht He|? ? ? Ht He|? ? ? ? ? _ Ht He]; rewrite Ht, He; cbn.
  - lia.
  - rewrite length_app. cbn. lia.
  - rewrite length_insert. lia.
Qed.

(** *** Back-pressure over runs *)

Lemma step_outstanding cfg e s :
  Z.of_nat (length (turns s)) <= turnsExecuted s + 1 ->
  Z.of_nat (length (turns (fst (step cfg e s))))
  <= turnsExecuted (fst (step cfg e s)) + 1.
Proof.
  intros H. pose proof (turnsChange_length _ _ _ (step_change cfg e s)) as Hl.
  pose proof (step_turnsExecuted cfg e s) as [Hx Hsame].
  destruct (emitted (snd (step cfg e s))) as [|t ts] eqn:Hem.
  - cbn [length] in Hl. lia.
  - destruct (step_emits_when_due cfg e s) as (n1 & n2 & -> & [Hdue _] & _);
      [now rewrite Hem|].
    rewrite Hsame in * by discriminate.
    pose proof (step_change cfg (TurnCheck n1 n2) s) as Hc.
    inversion Hc as [? ? _ He|? ? ? _ He|? ? ? ? ? _ _ He];
      rewrite Hem in He; try discriminate He.
    injection He as _ ->. cbn [length] in Hl. lia.
Qed.

(** X1.  The server is never more than one turn ahead of its consumer:
    along any sequence of events, the number of committed turns exceeds the
    turns-executed counter by at most one. *)
Theorem never_more_than_one_turn_ahead cfg (es : list (Event Intent)) s :
  Z.of_nat (length (turns s)) <= turnsExecuted s + 1 ->
  Z.of_nat (length (turns (fst (run cfg es s))))
  <= turnsExecuted (fst (run cfg es s)) + 1.
Proof.
  revert s. induction es as [|e es IH]; intros s H; [exact H|].
  rewrite run_cons. cbn [fst]. apply IH, step_outstanding, H.
Qed.

Lemma step_oversignalled cfg e s :
  Z.of_nat (length (turns s)) < turnsExecuted s ->
  emitted (snd (step cfg e s)) = []
  /\ Z.of_nat (length (turns (fst (step cfg e s))))
     < turnsExecuted (fst (step cfg e s)).
Proof.
  intros H.
  assert (Hem : emitted (snd (step cfg e s)) = []).
  { destruct (emitted (snd (step cfg e s))) as [|t ts] eqn:Hem; [reflexivity|].
    destruct (step_emits_when_due cfg e s) as (n1 & n2 & _ & [Hdue _] & _);
      [now rewrite Hem | lia]. }
  split; [exact Hem|].
  pose proof (turnsChange_length _ _ _ (step_change cfg e s)) as Hl.
  pose proof (step_turnsExecuted cfg e s) as [Hx _].
  rewrite Hem in Hl. cbn [length] in Hl. lia.
Qed.

(** X2.  Completion signals are compared with [===]: once more turns have
    been signalled complete than were committed, no sequence of events makes
    the server emit or commit a turn again. *)
Theorem oversignalled_server_never_emits cfg (es : list (Event Intent)) s :
  Z.of_nat (length (turns s)) < turnsExecuted s ->
  emitted (snd (run cfg es s)) = []
  /\ length (turns (fst (run cfg es s))) = length (turns s).
Proof.
  revert s. induction es as [|e es IH]; intros s H.
  - split; reflexivity.
  - rewrite run_cons. cbn [fst snd].
    destruct (step_oversignalled cfg e s H) as [Hem Hlt].
    destruct (IH _ Hlt) as [Hem' Hlen].
    rewrite emitted_app, Hem, Hem'. split; [reflexivity|].
    rewrite Hlen.
    pose proof (turnsChange_length _ _ _ (step_change cfg e s)) as Hl.
    rewrite Hem in Hl. cbn [length] in Hl. lia.
Qed.

(** *** After the game has ended *)

Definition isStart e : bool :=
  match e with Start _ => true | _ => false end.

Lemma step_ended cfg e s :
  turnCheckInterval s = false -> isStart e = false ->
  emitted (snd (step cfg e s)) = []
  /\ turnCheckInterval (fst (step cfg e s)) = false.
Proof.
  intros Ht Hs. destruct e as [now|now1 now2|m| | |msg| |];
    try discriminate Hs; cbn [step].
  - rewrite Ht. split; [reflexivity | exact Ht].
  - split; [reflexivity | exact Ht].
  - split; [reflexivity | exact Ht].
  - split; [reflexivity | exact Ht].
  - split; [apply onMessage_emits_nothing|].
    destruct (onMessage_fields cfg msg s) as (_ & _ & _ & ->). exact Ht.
  - split; [reflexivity | exact Ht].
  - pose proof (endGame_emits_nothing cfg s) as (H1 & _ & H3). now split.
Qed.

(** X3.  Ending the game is final: after [endGame], whatever events follow
    short of a new [start], the server emits no turn and its timer stays
    cleared. *)
Theorem ended_server_emits_nothing cfg (es : list (Event Intent)) s :
  forallb (fun e => negb (isStart e)) es = true ->
  emitted (snd (run cfg es (fst (endGame cfg s)))) = []
  /\ turnCheckInterval (fst (run cfg es (fst (endGame cfg s)))) = false.
Proof.
  intros Hes.
  assert (H0 : turnCheckInterval (fst (endGame cfg s)) = false)
    by apply endGame_emits_nothing.
  revert H0. generalize (fst (endGame cfg s)). clear s.
  induction es as [|e es IH]; intros s H0; [now split|].
  cbn [forallb] in Hes. apply andb_true_iff in Hes as [He Hes].
  apply negb_true_iff in He. rewrite run_cons. cbn [fst snd].
  destruct (step_ended cfg e s H0 He) as [Hem Ht].
  destruct (IH Hes _ Ht) as [Hem' Ht'].
  now rewrite emitted_app, Hem, Hem'.
Qed.

(** *** Single-player: what becomes of the intents *)

Lemma step_paused cfg e s :
  paused (fst (step cfg e s))
  = match e with Pause => true | Resume => false | _ => paused s end
  /\ (gameRecord cfg = None -> replayTurns s = [] ->
      replayTurns (fst (step cfg e s)) = []).
Proof.
  destruct e as [now|now1 now2|m| | |msg| |]; cbn [step].
  - unfold start. split; [case_tests; reflexivity|].
    intros -> Hr. case_tests; exact Hr.
  - destruct (turnCheckInterval s); [|now split].
    unfold turnCheck. destruct (_ && _); [|now split].
    destruct (endTurn_fields cfg (set_turnStartTime now2 s))
      as (_ & -> & -> & _). now split.
  - now split.
  - now split.
  - now split.
  - destruct (onMessage_fields cfg msg s) as (_ & -> & -> & _). now split.
  - now split.
  - unfold endGame. case_tests; now split.
Qed.

Lemma step_intents cfg e s :
  gameRecord cfg = None -> replayTurns s = [] ->
  concat (map Schemas.intents (emitted (snd (step cfg e s))))
    ++ intents (fst (step cfg e s))
  = intents s ++ acceptedIntents (paused s) [e].
Proof.
  intros Hg Hr. destruct e as [now|now1 now2|m| | |msg| |]; cbn [step].
  - unfold start. rewrite Hg. case_tests; cbn; now rewrite app_nil_r.
  - destruct (turnCheckInterval s); [|cbn; now rewrite app_nil_r].
    unfold turnCheck. destruct (_ && _); [|cbn; now rewrite app_nil_r].
    unfold endTurn. cbn [paused replayTurns set_turnStartTime].
    rewrite Hr. cbn [length]. change (0 <? Z.of_nat 0) with false.
    destruct (paused s); cbn; now rewrite ?app_nil_r.
  - cbn. now rewrite app_nil_r.
  - cbn. now rewrite app_nil_r.
  - cbn. now rewrite app_nil_r.
  - rewrite onMessage_emits_nothing.
    destruct msg as [i|n h|w|l|]; cbn [onMessage acceptedIntents];
      unfold hasGameRecord; rewrite ?Hg; cbn [negb map concat app].
    + destruct (paused s); cbn; now rewrite ?app_nil_r.
    + case_tests; cbn; now rewrite app_nil_r.
    + cbn; now rewrite app_nil_r.
    + cbn; now rewrite app_nil_r.
    + cbn; now rewrite app_nil_r.
  - cbn. now rewrite app_nil_r.
  - unfold endGame. case_tests; cbn; now rewrite app_nil_r.
Qed.

Lemma acceptedIntents_cons (p : bool) e (es : list (Event Intent)) :
  acceptedIntents p (e :: es)
  = acceptedIntents p [e]
    ++ acceptedIntents
         (match e with Pause => true | Resume => false | _ => p end) es.
Proof.
  destruct e as [now|now1 now2|m| | |msg| |]; try reflexivity.
  destruct msg; try reflexivity. cbn. now destruct p.
Qed.

(** X4.  In single-player mode no accepted intent is lost, duplicated or
    reordered: along any sequence of events, the intents of the emitted
    turns, in order, followed by the intents still pending, are the intents
    pending at the outset followed by the intents received while the server
    was not paused, in order of arrival. *)
Theorem singleplayer_intents_conserved cfg (es : list (Event Intent)) s :
  gameRecord cfg = None -> replayTurns s = [] ->
  concat (map Schemas.intents (emitted (snd (run cfg es s))))
    ++ intents (fst (run cfg es s))
  = intents s ++ acceptedIntents (paused s) es.
Proof.
  intros Hg. revert s. induction es as [|e es IH]; intros s Hr.
  - cbn. now rewrite app_nil_r.
  - rewrite run_cons. cbn [fst snd].
    pose proof (step_intents cfg e s Hg Hr) as H1.
    destruct (step_paused cfg e s) as [H3 H2].
    rewrite emitted_app, map_app, concat_app, <- app_assoc,
      (IH _ (H2 Hg Hr)), H3.
    rewrite app_assoc, H1, <- app_assoc. f_equal.
    symmetry. apply acceptedIntents_cons.
Qed.

(** *** Replay: the archive decides the content *)

Lemma sameTurn_intents (l l' : list (Turn Intent)) :
  Forall2 sameTurn l l' -> map Schemas.intents l' = map Schemas.intents l.
Proof.
  induction 1 as [|a b l l' [_ Hi] _ IH]; [reflexivity|].
  cbn. now rewrite Hi, IH.
Qed.

Lemma onMessage_replay_turns cfg msg s arch :
  gameRecord cfg = Some arch -> turns (fst (onMessage cfg msg s)) = turns s.
Proof.
  intros Hg. destruct msg; cbn [onMessage]; unfold hasGameRecord;
    rewrite ?Hg; cbn [negb]; case_tests; reflexivity.
Qed.

Lemma endTurn_followsArchive cfg s arch :
  arch <> [] -> followsArchive arch s -> followsArchive arch (fst (endTurn cfg s)).
Proof.
  intros Hne (Hr & Hlen & Hint). unfold endTurn.
  destruct (paused s); [now repeat split|]. rewrite Hr.
  replace (0 <? Z.of_nat (length arch)) with true
    by (symmetry; apply Z.ltb_lt; destruct arch; [congruence | cbn; lia]).
  destruct (Z.leb_spec (Z.of_nat (length arch)) (Z.of_nat (length (turns s))))
    as [Hle|Hlt].
  - unfold endGame. case_tests; now repeat split.
  - destruct (lookup_lt_is_Some_2 arch (length (turns s))) as [archived Ha];
      [lia|].
    rewrite Ha. unfold followsArchive, commitTurn.
    cbn [fst turns replayTurns intents set_intents set_turns].
    repeat split; [exact Hr | |].
    + rewrite length_app. cbn. lia.
    + rewrite length_app, map_app, Hint. cbn [length map].
      replace (length (turns s) + 1)%nat with (S (length (turns s))) by lia.
      rewrite (take_S_r _ _ _ Ha), map_app. reflexivity.
Qed.

Lemma step_followsArchive cfg e s arch :
  gameRecord cfg = Some arch -> arch <> [] ->
  followsArchive arch s -> followsArchive arch (fst (step cfg e s)).
Proof.
  intros Hg Hne H. destruct e as [now|now1 now2|m| | |msg| |]; cbn [step];
    try exact H.
  - destruct H as (_ & Hlen & Hint). unfold start. rewrite Hg.
    case_tests; now repeat split.
  - destruct (turnCheckInterval s); [|exact H].
    unfold turnCheck. destruct (_ && _); [|exact H].
    apply endTurn_followsArchive; [exact Hne|]. exact H.
  - destruct H as (Hr & Hlen & Hint). unfold followsArchive.
    destruct (onMessage_fields cfg msg s) as (_ & _ & -> & _).
    now rewrite (onMessage_replay_turns cfg msg s arch Hg).
  - destruct H as (Hr & Hlen & Hint). unfold endGame.
    case_tests; now repeat split.
Qed.

Lemma run_followsArchive cfg (es : list (Event Intent)) s arch :
  gameRecord cfg = Some arch -> arch <> [] ->
  followsArchive arch s -> followsArchive arch (fst (run cfg es s)).
Proof.
  intros Hg Hne. revert s. induction es as [|e es IH]; intros s H; [exact H|].
  rewrite run_cons. cbn [fst]. now apply IH, step_followsArchive.
Qed.

(** X5.  A replay of a non-empty archive emits the archive and nothing
    else.  For a server that replays an archive holding at least one turn
    and whose committed turns carry the intents of the archive's first
    entries: along any sequence of events (timer callbacks at any times,
    pauses, speed changes, intent and hash messages, completion signals),
    the intents of the turns emitted are those of the archived turns that
    follow the ones already committed, in order, and never more turns are
    committed than the archive holds.  The archive has to hold a turn: on an
    empty one the test [replayTurns.length > 0] of [endTurn] fails and the
    server commits turns of its own. *)
Theorem replay_emits_archive_in_order cfg (es : list (Event Intent)) s arch :
  gameRecord cfg = Some arch -> arch <> [] -> followsArchive arch s ->
  followsArchive arch (fst (run cfg es s))
  /\ map Schemas.intents (emitted (snd (run cfg es s)))
     = map Schemas.intents
         (take (length (emitted (snd (run cfg es s))))
            (drop (length (turns s)) arch)).
Proof.
  intros Hg Hne H.
  pose proof (run_followsArchive cfg es s arch Hg Hne H) as H'.
  split; [exact H'|].
  destruct H as (_ & _ & Hint). destruct H' as (_ & _ & Hint').
  destruct (run_stable cfg es s) as [Hsame _].
  pose proof (Forall2_length _ _ _ Hsame) as Hl.
  apply sameTurn_intents in Hsame. rewrite Hsame, <- Hl in Hint'.
  rewrite length_app, map_app, <- take_take_drop, map_app, <- Hint in Hint'.
  now apply app_inv_head in Hint'.
Qed.

(** X6.  A replay never archives: with [isReplay] set, no sequence of
    events makes the server build a game record. *)
Theorem replay_never_archives cfg (es : list (Event Intent)) s :
  isReplay cfg = true -> existsb isRecord (snd (run cfg es s)) = false.
Proof.
  intros Hr. revert s. induction es as [|e es IH]; intros s; [reflexivity|].
  rewrite run_cons. cbn [snd]. rewrite existsb_app, IH, orb_false_r.
  destruct e as [now|now1 now2|m| | |msg| |]; cbn [step]; try reflexivity.
  - unfold start. case_tests; reflexivity.
  - unfold turnCheck, endTurn, endGame. rewrite Hr. case_tests; reflexivity.
  - destruct msg; cbn [onMessage]; case_tests; reflexivity.
  - unfold endGame. rewrite Hr. reflexivity.
Qed.

(** *** Single-player: where hashes end up *)

Lemma gapless_lookup (l : list (Turn Intent)) :
  forall (from : Z) (i : nat) t,
    gapless from (map turnNumber l) -> l !! i = Some t ->
    turnNumber t = from + Z.of_nat i.
Proof.
  induction l as [|a l IH]; intros from [|i] t H Hl; try discriminate.
  - cbn in *. injection Hl as <-. destruct H as [-> _]. lia.
  - cbn in *. destruct H as [_ H]. rewrite (IH _ _ _ H Hl). lia.
Qed.

Lemma turnsChange_numbered s s' out :
  turnsChange s s' out -> numbered (turns s) -> numbered (turns s').
Proof.
  intros Hc Hn. destruct (turnsChange_stable _ _ _ Hc) as [Hs Hg].
  unfold numbered in *. rewrite (sameTurn_numbers _ _ Hs), map_app.
  apply gapless_app. rewrite length_map. now split.
Qed.

Lemma endTurn_sampled cfg s :
  sampled (turns s) -> sampled (turns (fst (endTurn cfg s))).
Proof.
  intros H. unfold endTurn, endGame, commitTurn. case_tests; cbn; try exact H.
  all: apply Forall_app; split; [exact H|]; repeat constructor.
Qed.

Lemma step_sampled cfg e s :
  numbered (turns s) -> sampled (turns s) ->
  sampled (turns (fst (step cfg e s))).
Proof.
  intros Hn H. destruct e as [now|now1 now2|m| | |msg| |]; cbn [step];
    try exact H.
  - unfold start. case_tests; exact H.
  - destruct (turnCheckInterval s); [|exact H].
    unfold turnCheck. destruct (_ && _); [|exact H].
    now apply endTurn_sampled.
  - destruct msg as [i|n h|w|l|]; cbn [onMessage]; try exact H.
    + case_tests; exact H.
    + destruct (negb (hasGameRecord cfg)).
      * destruct (Z.eqb_spec (Z.rem n 100) 0) as [Hrem|_]; [|exact H].
        unfold index. destruct (Z.ltb_spec n 0) as [_|Hn0]; [exact H|].
        destruct (turns s !! Z.to_nat n) as [t|] eqn:Hl; [|exact H].
        cbn. apply Forall_insert; [exact H|]. right. cbn.
        rewrite (gapless_lookup _ _ _ _ Hn Hl). rewrite Z2Nat.id by lia.
        exact Hrem.
      * case_tests; exact H.
  - unfold endGame. case_tests; exact H.
Qed.

(** X7.  Hash sampling as an invariant of the committed list: starting
    from a list numbered 0, 1, 2, ... whose hashes sit on turn numbers
    divisible by 100, every sequence of events leaves such a list.  Turns
    are committed without a hash, and a reported hash is only ever attached
    to a turn whose number is divisible by 100. *)
Theorem committed_hashes_only_every_100 cfg (es : list (Event Intent)) s :
  numbered (turns s) -> sampled (turns s) ->
  sampled (turns (fst (run cfg es s))).
Proof.
  revert s. induction es as [|e es IH]; intros s Hn H; [exact H|].
  rewrite run_cons. cbn [fst]. apply IH.
  - eapply turnsChange_numbered; [apply step_change | exact Hn].
  - now apply step_sampled.
Qed.

End Runs.

(** *** Concrete runs *)

(** A single-player run with a pause in it. *)
Definition pausedRun : list (Event string) :=
  firstTurn
  ++ [Pause; Message (ClientIntentMessage "emoji"%string); Resume;
      Message (ClientIntentMessage "attack"%string); TurnCheck 300 301;
      TurnComplete; EndGame].

(** A two-turn archive and a replay of it with a stray intent. *)
Definition twoTurns : list (Turn string) :=
  [mkTurn 0 ["spawn"%string] None; mkTurn 1 ["attack"%string] (Some 9)].
Definition replayRun : list (Event string) :=
  [TurnCheck 150 150; TurnComplete;
   Message (ClientIntentMessage "emoji"%string); Pause; TurnCheck 200 200;
   Resume; ReplaySpeedChange fastest; TurnCheck 300 300; TurnComplete;
   TurnCheck 450 450; TurnCheck 600 600].

Lemma never_more_than_one_turn_ahead_witness :
  Z.of_nat (length (turns (init string))) <= turnsExecuted (init string) + 1
  /\ Z.of_nat (length (turns (fst (run singlePlayer pausedRun (init string)))))
     <= turnsExecuted (fst (run singlePlayer pausedRun (init string))) + 1.
Proof.
  split; [cbn; lia|].
  apply (never_more_than_one_turn_ahead singlePlayer pausedRun (init string)).
  cbn; lia.
Defined.

Lemma oversignalled_server_never_emits_witness :
  Z.of_nat (length (turns (turnComplete (init string))))
  < turnsExecuted (turnComplete (init string))
  /\ emitted (snd (run singlePlayer pausedRun (turnComplete (init string))))
     = []
  /\ length (turns (fst (run singlePlayer pausedRun
                           (turnComplete (init string)))))
     = length (turns (turnComplete (init string))).
Proof.
  split; [cbn; lia|].
  apply (oversignalled_server_never_emits singlePlayer pausedRun
           (turnComplete (init string))).
  cbn; lia.
Defined.

Lemma ended_server_emits_nothing_witness :
  forallb (fun e => negb (isStart e))
    [TurnCheck 900 900; Message (ClientIntentMessage "spawn"%string);
     TurnComplete; TurnCheck 1200 1200] = true
  /\ emitted (snd (run singlePlayer
                     [TurnCheck 900 900;
                      Message (ClientIntentMessage "spawn"%string);
                      TurnComplete; TurnCheck 1200 1200]
                     (fst (endGame singlePlayer
                             (fst (run singlePlayer firstTurn (init string)))))))
     = []
  /\ turnCheckInterval
       (fst (run singlePlayer
               [TurnCheck 900 900;
                Message (ClientIntentMessage "spawn"%string);
                TurnComplete; TurnCheck 1200 1200]
               (fst (endGame singlePlayer
                       (fst (run singlePlayer firstTurn (init string)))))))
     = false.
Proof.
  split; [reflexivity|].
  apply (ended_server_emits_nothing singlePlayer
           [TurnCheck 900 900; Message (ClientIntentMessage "spawn"%string);
            TurnComplete; TurnCheck 1200 1200]
           (fst (run singlePlayer firstTurn (init string)))).
  reflexivity.
Defined.

Lemma singleplayer_intents_conserved_witness :
  gameRecord singlePlayer = None /\ replayTurns (init string) = []
  /\ concat (map Schemas.intents
               (emitted (snd (run singlePlayer pausedRun (init string)))))
       ++ intents (fst (run singlePlayer pausedRun (init string)))
     = intents (init string)
       ++ acceptedIntents (paused (init string)) pausedRun.
Proof.
  split; [reflexivity|]. split; [reflexivity|].
  apply (singleplayer_intents_conserved singlePlayer pausedRun (init string));
    reflexivity.
Defined.

(** The run above: the intent sent during the pause is gone, the two others
    are in turns 0 and 1. *)
Example pausedRun_turns :
  emitted (snd (run singlePlayer pausedRun (init string)))
  = [mkTurn 0 ["spawn"%string] None; mkTurn 1 ["attack"%string] None]
  /\ acceptedIntents false pausedRun = ["spawn"%string; "attack"%string].
Proof. split; reflexivity. Qed.

Lemma replay_emits_archive_in_order_witness :
  gameRecord (replayOf twoTurns) = Some twoTurns /\ twoTurns <> []
  /\ followsArchive twoTurns (fst (start (replayOf twoTurns) 0 (init string)))
  /\ followsArchive twoTurns
       (fst (run (replayOf twoTurns) replayRun
               (fst (start (replayOf twoTurns) 0 (init string)))))
  /\ map Schemas.intents
       (emitted (snd (run (replayOf twoTurns) replayRun
                        (fst (start (replayOf twoTurns) 0 (init string))))))
     = map Schemas.intents
         (take (length
                  (emitted (snd (run (replayOf twoTurns) replayRun
                                   (fst (start (replayOf twoTurns) 0
                                           (init string)))))))
            (drop (length (turns (fst (start (replayOf twoTurns) 0
                                         (init string)))))
               twoTurns)).
Proof.
  split; [reflexivity|]. split; [discriminate|].
  split; [repeat split; cbn; lia|].
  apply (replay_emits_archive_in_order (replayOf twoTurns) replayRun
           (fst (start (replayOf twoTurns) 0 (init string))) twoTurns).
  - reflexivity.
  - discriminate.
  - repeat split; cbn; lia.
Defined.

(** The replay above emits both archived turns, whatever was sent to it. *)
Example replayRun_turns :
  map Schemas.intents
    (emitted (snd (run (replayOf twoTurns) replayRun
                     (fst (start (replayOf twoTurns) 0 (init string))))))
  = [["spawn"%string]; ["attack"%string]].
Proof. reflexivity. Qed.

Lemma replay_never_archives_witness :
  isReplay (replayOf twoTurns) = true
  /\ existsb isRecord
       (snd (run (replayOf twoTurns) (replayRun ++ [EndGame])
               (fst (start (replayOf twoTurns) 0 (init string)))))
     = false.
Proof.
  split; [reflexivity|].
  apply (replay_never_archives (replayOf twoTurns) (replayRun ++ [EndGame])
           (fst (start (replayOf twoTurns) 0 (init string)))).
  reflexivity.
Defined.

Lemma committed_hashes_only_every_100_witness :
  numbered (turns (init string)) /\ sampled (turns (init string))
  /\ sampled (turns (fst (run singlePlayer pausedRun (init string)))).
Proof.
  split; [exact I|]. split; [constructor|].
  apply (committed_hashes_only_every_100 singlePlayer pausedRun (init string)).
  - exact I.
  - constructor.
Defined.

End LocalServerRuns.

(** ** Transport: what is buffered, what is sent, what is dropped *)

Module TransportMore.
Import Schemas Transport TransportProps.

Section More.
Context {Intent : Type} (stringify : ClientMessage Intent -> string).
Implicit Types (t : Transport) (e : Event Intent).

(** [onSendWinnerEvent]: the same guard as [sendIntent]. *)
Definition onSendWinnerEvent (winner : string) t
  : Transport * list (Effect Intent) :=
  if isLocal t || isOpen t then sendMsg stringify (ClientSendWinnerMessage winner) t
  else (t, [ConsoleLog Intent]).

(** The callback of the 5 s interval armed by [startPing]. *)
Definition pingTick t : Transport * list (Effect Intent) :=
  if isOpen t then sendMsg stringify ClientPingMessage t else (t, []).

(** The message a method call submits. *)
Definition submitted e : option (ClientMessage Intent) :=
  match e with
  | CallJoinGame n => Some (ClientJoinMessage n)
  | CallSendIntent i => Some (ClientIntentMessage i)
  | CallSendHash k h => Some (ClientHashMessage k h)
  | SocketOpened => None
  | SocketClosed _ => None
  end.

Definition isSocketOpened e : bool :=
  match e with SocketOpened => true | _ => false end.

(** X8.  A local transport never touches a socket or the buffer: along any
    sequence of calls and (stray) socket events it stays exactly as it was,
    nothing is handed to a socket, and every submitted message is forwarded
    to the local server, in order of submission. *)
Theorem local_transport_forwards_everything (es : list (Event Intent)) t :
  isLocal t = true -> socket t = None ->
  fst (run stringify es t) = t
  /\ snd (run stringify es t) = map (LocalServerOnMessage Intent) (omap submitted es)
  /\ wire (snd (run stringify es t)) = [].
Proof.
  intros Hl Hs.
  assert (H : run stringify es t
              = (t, map (LocalServerOnMessage Intent) (omap submitted es))).
  { induction es as [|e es IH]; [reflexivity|]. cbn [run].
    assert (He : step stringify e t
                 = (t, map (LocalServerOnMessage Intent)
                         (option_list (submitted e)))).
    { destruct e; cbn; unfold joinGame, sendIntent, onSendHashEvent, sendMsg;
        rewrite ?Hl, ?Hs; reflexivity. }
    rewrite He, IH. f_equal. destruct e; reflexivity. }
  rewrite H. cbn [fst snd]. repeat split. clear H.
  induction (omap submitted es) as [|m ms IH]; [reflexivity | exact IH].
Qed.

(** On a remote transport intents, hashes, winner reports and pings are
    handed to the socket when it is open and dropped otherwise; the
    transport is left as it was. *)
Lemma guarded_sends t :
  isLocal t = false ->
  (forall intent,
      sendIntent stringify intent t
      = (t, if isOpen t then [SocketSend (stringify (ClientIntentMessage intent))]
            else [ConsoleLog Intent]))
  /\ (forall tick h,
        onSendHashEvent stringify tick h t
        = (t, if isOpen t then [SocketSend (stringify (ClientHashMessage tick h))]
              else [ConsoleLog Intent]))
  /\ (forall w,
        onSendWinnerEvent w t
        = (t, if isOpen t then [SocketSend (stringify (ClientSendWinnerMessage w))]
              else [ConsoleLog Intent]))
  /\ pingTick t
     = (t, if isOpen t then [SocketSend (stringify ClientPingMessage)] else []).
Proof.
  intros Hl. unfold sendIntent, onSendHashEvent, onSendWinnerEvent, pingTick,
    sendMsg, isOpen. rewrite Hl. cbn [orb].
  destruct (socket t) as [[| | |]|]; repeat split.
Qed.

(** A string that serialises a join request. *)
Definition isJoin (str : string) : Prop :=
  exists lastTurn, str = stringify (ClientJoinMessage lastTurn).

Lemma step_buffers_joins e t :
  Forall isJoin (buffer t) -> Forall isJoin (buffer (fst (step stringify e t))).
Proof.
  intros H. destruct e as [n|i|k h| |code]; cbn [step].
  - unfold joinGame, sendMsg, connectRemote, killExistingSocket, startPing.
    destruct (isLocal t) eqn:Hl; [exact H|].
    destruct (socket t) as [[| | |]|]; cbn; rewrite ?Hl; cbn; try exact H.
    apply Forall_app. split; [exact H|]. repeat constructor. now exists n.
  - unfold sendIntent, sendMsg, isOpen.
    destruct (isLocal t), (socket t) as [[| | |]|]; exact H.
  - unfold onSendHashEvent, sendMsg, isOpen.
    destruct (isLocal t), (socket t) as [[| | |]|]; exact H.
  - destruct (socket t) eqn:Hs; [|exact H].
    rewrite (onopen_flushes_reversed (set_socket (Some OPEN) t) OPEN eq_refl).
    constructor.
  - destruct (socket t); [|exact H].
    unfold onclose, reconnect, connect, connectLocal, connectRemote,
      killExistingSocket, startPing.
    destruct (code =? 1002); [exact H|].
    destruct (negb (code =? 1000)); [|exact H].
    cbn. destruct (isLocal t); exact H.
Qed.

(** X9.  Only join requests are ever buffered: if the buffer holds nothing
    but serialised join requests (in particular, if it is empty), it still
    does after any sequence of calls and socket events.  Intents and hashes
    submitted while the socket is not open are dropped, not queued. *)
Theorem only_joins_are_buffered (es : list (Event Intent)) t :
  Forall isJoin (buffer t) ->
  Forall isJoin (buffer (fst (run stringify es t))).
Proof.
  revert t. induction es as [|e es IH]; intros t H; [exact H|].
  cbn [run]. pose proof (step_buffers_joins e t H) as H1.
  destruct (step stringify e t) as [t1 o1]. cbn [fst] in H1.
  specialize (IH t1 H1). now destruct (run stringify es t1).
Qed.

Lemma step_keeps_buffer e t :
  isSocketOpened e = false ->
  buffer t `prefix_of` buffer (fst (step stringify e t))
  /\ wire (snd (step stringify e t)) `sublist_of`
       option_list (stringify <$> submitted e).
Proof.
  intros He. destruct e as [n|i|k h| |code]; try discriminate He; cbn [step].
  - unfold joinGame, sendMsg, connectRemote, killExistingSocket, startPing.
    destruct (isLocal t) eqn:Hl; [cbn; split; [reflexivity | apply sublist_nil_l]|].
    destruct (socket t) as [[| | |]|]; cbn; rewrite ?Hl; cbn;
      split; try reflexivity; try apply sublist_nil_l.
    apply prefix_app_r. reflexivity.
  - unfold sendIntent, sendMsg, isOpen.
    destruct (isLocal t), (socket t) as [[| | |]|]; cbn;
      split; try reflexivity; apply sublist_nil_l.
  - unfold onSendHashEvent, sendMsg, isOpen.
    destruct (isLocal t), (socket t) as [[| | |]|]; cbn;
      split; try reflexivity; apply sublist_nil_l.
  - destruct (socket t); [|cbn; split; reflexivity].
    unfold onclose, reconnect, connect, connectLocal, connectRemote,
      killExistingSocket, startPing.
    destruct (code =? 1002); [cbn; split; reflexivity|].
    destruct (negb (code =? 1000)); [|cbn; split; reflexivity].
    cbn. destruct (isLocal t); cbn; split; reflexivity.
Qed.

(** X10.  Nothing leaves the buffer before a socket opens: along any
    sequence of calls and socket closes, with or without reconnects, the
    buffer as it was is a prefix of the buffer afterwards. *)
Theorem buffer_kept_until_open (es : list (Event Intent)) t :
  forallb (fun e => negb (isSocketOpened e)) es = true ->
  buffer t `prefix_of` buffer (fst (run stringify es t)).
Proof.
  revert t. induction es as [|e es IH]; intros t Hes; [reflexivity|].
  cbn [forallb] in Hes. apply andb_true_iff in Hes as [He Hes].
  apply negb_true_iff in He. cbn [run].
  destruct (step_keeps_buffer e t He) as [Hp _].
  destruct (step stringify e t) as [t1 o1]. cbn [fst] in Hp.
  specialize (IH t1 Hes). destruct (run stringify es t1) as [t2 o2].
  cbn [fst] in *. etransitivity; eassumption.
Qed.

Lemma wire_sends (l : list string) :
  wire (map (SocketSend (Intent := Intent)) l ++ [Onconnect]) = l.
Proof.
  induction l as [|x l IH]; [reflexivity|]. cbn. unfold wire in IH.
  now rewrite IH.
Qed.

Lemma opened_flushes t (rs : ReadyState) :
  socket t = Some rs ->
  step stringify SocketOpened t
  = (set_buffer [] (set_socket (Some OPEN) t),
     map SocketSend (rev (buffer t)) ++ [Onconnect]).
Proof.
  intros Hs. cbn [step]. rewrite Hs.
  now rewrite (onopen_flushes_reversed (set_socket (Some OPEN) t) OPEN eq_refl).
Qed.



(** In the game runner [joinGame] is only called from the open callback and
    from the message callback, when the current socket is open.  Along such
    runs nothing is ever buffered. *)
Fixpoint joinsOnOpenSocket (es : list (Event Intent)) t : bool :=
  match es with
  | [] => true
  | e :: rest =>
      match e with CallJoinGame _ => isOpen t | _ => true end
      && joinsOnOpenSocket rest (fst (step stringify e t))
  end.

Lemma joins_on_open_socket_never_buffer (es : list (Event Intent)) t :
  buffer t = [] -> joinsOnOpenSocket es t = true ->
  buffer (fst (run stringify es t)) = [].
Proof.
  revert t. induction es as [|e es IH]; intros t Hb Hes; [exact Hb|].
  cbn [joinsOnOpenSocket] in Hes. apply andb_true_iff in Hes as [He Hes].
  cbn [run].
  assert (H1 : buffer (fst (step stringify e t)) = []).
  { destruct e as [n|i|k h| |code]; cbn [step].
    - unfold joinGame, sendMsg, isOpen in *.
      destruct (isLocal t); [exact Hb|].
      destruct (socket t) as [[| | |]|]; try discriminate He; exact Hb.
    - unfold sendIntent, sendMsg, isOpen.
      destruct (isLocal t), (socket t) as [[| | |]|]; exact Hb.
    - unfold onSendHashEvent, sendMsg, isOpen.
      destruct (isLocal t), (socket t) as [[| | |]|]; exact Hb.
    - destruct (socket t) eqn:Hs; [|exact Hb].
      now rewrite (onopen_flushes_reversed (set_socket (Some OPEN) t) OPEN
                     eq_refl).
    - destruct (socket t); [|exact Hb].
      unfold onclose, reconnect, connect, connectLocal, connectRemote,
        killExistingSocket, startPing.
      destruct (code =? 1002); [exact Hb|].
      destruct (negb (code =? 1000)); [|exact Hb].
      cbn. destruct (isLocal t); exact Hb. }
  destruct (step stringify e t) as [t1 o1]. cbn [fst] in *.
  specialize (IH t1 H1 Hes). now destruct (run stringify es t1).
Qed.

(** X11.  When the socket opens every buffered message is handed to it
    exactly once and the buffer is emptied, before the open callback runs;
    a socket that opens right after that finds nothing left to send. *)
Theorem flush_sends_each_message_once t (rs : ReadyState) :
  socket t = Some rs ->
  wire (snd (step stringify SocketOpened t)) ≡ₚ buffer t
  /\ buffer (fst (step stringify SocketOpened t)) = []
  /\ last (snd (step stringify SocketOpened t))
     = Some (Onconnect (Intent := Intent))
  /\ wire (snd (step stringify SocketOpened
                  (fst (step stringify SocketOpened t)))) = [].
Proof.
  intros Hs. rewrite (opened_flushes t rs Hs). cbn [fst snd].
  rewrite (opened_flushes (set_buffer [] (set_socket (Some OPEN) t)) OPEN
             eq_refl).
  cbn [fst snd buffer set_buffer].
  rewrite wire_sends. repeat split.
  - symmetry. apply Permutation_rev.
  - apply last_snoc.
Qed.

(** X12.  A buffered message survives an abnormal close: on a remote
    transport with a current socket, a close with a code other than 1000 and
    1002 requests exactly one new socket and keeps the buffer, and when that
    socket opens the whole buffer is flushed. *)
Theorem buffer_survives_abnormal_close t (rs : ReadyState) (code : Z) :
  isLocal t = false -> socket t = Some rs -> code <> 1000 -> code <> 1002 ->
  snd (step stringify (SocketClosed code) t) = [NewWebSocket]
  /\ socket (fst (step stringify (SocketClosed code) t)) = Some CONNECTING
  /\ buffer (fst (step stringify (SocketClosed code) t)) = buffer t
  /\ wire (snd (run stringify [SocketClosed code; SocketOpened] t))
     ≡ₚ buffer t.
Proof.
  intros Hl Hs H0 H2.
  assert (E : step stringify (SocketClosed code) t
              = (mkTransport false (Some CONNECTING) (buffer t) true,
                 [NewWebSocket])).
  { cbn [step]. rewrite Hs. unfold onclose, reconnect, connect.
    apply Z.eqb_neq in H0, H2. rewrite H0, H2. cbn [negb].
    cbn [isLocal set_socket]. rewrite Hl.
    unfold connectRemote, killExistingSocket, startPing.
    cbn. rewrite ?Hl. cbn. unfold set_socket, set_pingInterval. cbn.
    rewrite ?Hl. reflexivity. }
  cbn [run]. rewrite E. cbn [fst snd socket buffer]. repeat split.
  rewrite (opened_flushes
             (mkTransport false (Some CONNECTING) (buffer t) true)
             CONNECTING eq_refl).
  cbn [fst snd buffer app].
  rewrite app_nil_r.
  assert (Hn : forall l : list (Effect Intent),
             wire (NewWebSocket :: l) = wire l) by reflexivity.
  rewrite Hn, wire_sends. symmetry. apply Permutation_rev.
Qed.

End More.

(** *** Concrete runs *)

(** A remote session: a join is buffered on a closed socket, an intent is
    dropped while the new socket connects, the socket is lost abnormally,
    and a hash is dropped on the way. *)
Definition lossyRun : list (Event string) :=
  [CallJoinGame 3; CallSendIntent "spawn"%string; SocketClosed 1006;
   CallSendHash 7 42].


Lemma local_transport_forwards_everything_witness :
  isLocal (mkTransport true None [] false) = true
  /\ socket (mkTransport true None [] false) = None
  /\ snd (run showMessage (lossyRun ++ [SocketOpened])
            (mkTransport true None [] false))
     = [LocalServerOnMessage string (ClientJoinMessage 3);
        LocalServerOnMessage string (ClientIntentMessage "spawn"%string);
        LocalServerOnMessage string (ClientHashMessage 7 42)].
Proof.
  split; [reflexivity|]. split; [reflexivity|].
  apply (local_transport_forwards_everything showMessage
           (lossyRun ++ [SocketOpened]) (mkTransport true None [] false));
    reflexivity.
Defined.

Lemma only_joins_are_buffered_witness :
  Forall (isJoin showMessage) (buffer (mkTransport false (Some CLOSED) [] true))
  /\ Forall (isJoin showMessage)
       (buffer (fst (run showMessage lossyRun
                       (mkTransport false (Some CLOSED) [] true)))).
Proof.
  split; [constructor|].
  apply (only_joins_are_buffered showMessage lossyRun
           (mkTransport false (Some CLOSED) [] true)).
  constructor.
Defined.

(** After the run above only the join is in the buffer. *)
Example lossyRun_buffer :
  buffer (fst (run showMessage lossyRun
                 (mkTransport false (Some CLOSED) [] true)))
  = ["join from later"%string]
  /\ wire (snd (run showMessage lossyRun
                  (mkTransport false (Some CLOSED) [] true))) = [].
Proof. split; reflexivity. Qed.

Lemma buffer_kept_until_open_witness :
  forallb (fun e => negb (isSocketOpened e)) lossyRun = true
  /\ buffer (mkTransport false (Some CLOSED) ["join from 0"%string] true)
     `prefix_of`
     buffer (fst (run showMessage lossyRun
                    (mkTransport false (Some CLOSED) ["join from 0"%string]
                       true))).
Proof.
  split; [reflexivity|].
  apply (buffer_kept_until_open showMessage lossyRun
           (mkTransport false (Some CLOSED) ["join from 0"%string] true)).
  reflexivity.
Defined.

Lemma flush_sends_each_message_once_witness :
  socket (mkTransport false (Some CONNECTING)
            ["join from later"; "join from 0"]%string true)
  = Some CONNECTING
  /\ wire (snd (step showMessage SocketOpened
                  (mkTransport false (Some CONNECTING)
                     ["join from later"; "join from 0"]%string true)))
     ≡ₚ ["join from later"; "join from 0"]%string.
Proof.
  split; [reflexivity|].
  apply (flush_sends_each_message_once showMessage
           (mkTransport false (Some CONNECTING)
              ["join from later"; "join from 0"]%string true) CONNECTING).
  reflexivity.
Defined.

Lemma buffer_survives_abnormal_close_witness :
  isLocal (mkTransport false (Some CONNECTING) ["join from 0"%string] true)
  = false
  /\ socket (mkTransport false (Some CONNECTING) ["join from 0"%string] true)
     = Some CONNECTING
  /\ 1006 <> 1000 /\ 1006 <> 1002
  /\ snd (step showMessage (SocketClosed 1006)
            (mkTransport false (Some CONNECTING) ["join from 0"%string] true))
     = [NewWebSocket].
Proof.
  split; [reflexivity|]. split; [reflexivity|].
  split; [lia|]. split; [lia|].
  apply (buffer_survives_abnormal_close showMessage
           (mkTransport false (Some CONNECTING) ["join from 0"%string] true)
           CONNECTING 1006); (reflexivity || lia).
Defined.

End TransportMore.

(** ** ClientGameRunner: the counter, catch-up, the watchdog, stopping *)

Module ClientGameRunnerMore.
Import Schemas ClientGameRunner ClientGameRunnerProps.

(** [onConnectionCheck], the body of the one-second watchdog interval;
    [isLocal] is [this.transport.isLocal] and [now] is [Date.now()].  The
    boolean tells whether [this.transport.reconnect()] was called. *)
Definition onConnectionCheck (isLocal : bool) (now : Z) (r : Runner)
  : Runner * bool :=
  if isLocal then (r, false)
  else if now - lastMessageTime r >? 5000
       then (set_lastMessageTime now r, true)
       else (r, false).

Section More.
Context {Intent : Type}.
Implicit Types (r : Runner) (turn : Turn Intent).

(** A sequence of server messages, each with the clock value its handler
    reads. *)
Fixpoint onmessages (ms : list (Z * ServerMessage Intent)) r
  : Runner * list (Effect Intent) :=
  match ms with
  | [] => (r, [])
  | (now, message) :: rest =>
      let (r1, es1) := onmessage now message r in
      let (r2, es2) := onmessages rest r1 in
      (r2, es1 ++ es2)
  end.

(** What happens to a runner besides messages: updates from the worker and
    calls of [stop()]. *)
Inductive Callback : Type :=
| Update (gu : WorkerUpdate)
| Stop.

Fixpoint callbacks (cs : list Callback) r : Runner * list (Effect Intent) :=
  match cs with
  | [] => (r, [])
  | c :: rest =>
      let (r1, es1) := match c with
                       | Update gu => onWorkerUpdate Intent gu r
                       | Stop => stop Intent r
                       end in
      let (r2, es2) := callbacks rest r1 in
      (r2, es1 ++ es2)
  end.

Definition isCleanup (e : Effect Intent) : bool :=
  match e with WorkerCleanup _ => true | _ => false end.

Lemma length_emptyTurns (from : Z) (n : nat) :
  length (emptyTurns (Intent := Intent) from n) = n.
Proof. revert from. induction n; intros; cbn; [reflexivity | now rewrite IHn]. Qed.

Lemma startTurn_counts turn r :
  turnsSeen (fst (startTurn turn r))
  = turnsSeen r + Z.of_nat (length (sentTurns (snd (startTurn turn r))))
  /\ hasJoined (fst (startTurn turn r)) = hasJoined r
  /\ isActive (fst (startTurn turn r)) = isActive r.
Proof.
  unfold startTurn. destruct (turnNumber turn <? turnsSeen r).
  - cbn. repeat split. lia.
  - pose proof (fillGap_spec (Intent := Intent) (turnNumber turn) (turnsSeen r))
      as (F1 & F2 & _).
    destruct (fillGap Intent (turnNumber turn) (turnsSeen r)) as [seen es].
    cbn [fst snd turnsSeen hasJoined isActive set_turnsSeen] in *.
    rewrite sentTurns_app, length_app, F2, length_emptyTurns. cbn.
    repeat split. lia.
Qed.

Lemma startTurns_counts (batch : list (Turn Intent)) r :
  turnsSeen (fst (startTurns batch r))
  = turnsSeen r + Z.of_nat (length (sentTurns (snd (startTurns batch r))))
  /\ hasJoined (fst (startTurns batch r)) = hasJoined r
  /\ isActive (fst (startTurns batch r)) = isActive r.
Proof.
  revert r. induction batch as [|turn batch IH]; intros r; cbn [startTurns].
  - cbn. repeat split. lia.
  - destruct (startTurn_counts turn r) as (H1 & H2 & H3).
    destruct (startTurn turn r) as [r1 es1]. cbn [fst snd] in *.
    destruct (IH r1) as (I1 & I2 & I3).
    destruct (startTurns batch r1) as [r2 es2]. cbn [fst snd] in *.
    rewrite sentTurns_app, length_app. repeat split; [lia | congruence..].
Qed.

Lemma startTurns_lastMessageTime (batch : list (Turn Intent)) r :
  lastMessageTime (fst (startTurns batch r)) = lastMessageTime r.
Proof.
  revert r. induction batch as [|t b IH]; intros r; cbn [startTurns];
    [reflexivity|].
  assert (H : lastMessageTime (fst (startTurn t r)) = lastMessageTime r).
  { unfold startTurn. destruct (_ <? _); [reflexivity|].
    now destruct (fillGap Intent _ _). }
  destruct (startTurn t r) as [r1 ?]. cbn [fst] in *.
  specialize (IH r1). destruct (startTurns b r1). cbn [fst] in *. congruence.
Qed.

Lemma onmessage_counts (now : Z) (message : ServerMessage Intent) r :
  turnsSeen (fst (onmessage now message r))
  = turnsSeen r
    + Z.of_nat (length (sentTurns (snd (onmessage now message r))))
  /\ (hasJoined r = true -> hasJoined (fst (onmessage now message r)) = true)
  /\ lastMessageTime (fst (onmessage now message r)) = now.
Proof.
  unfold onmessage. destruct message as [turns|? ? ? ? ?|? ?|turn|].
  - destruct (startTurns_counts turns
                (set_hasJoined true (set_lastMessageTime now r)))
      as (H1 & H2 & _).
    split; [exact H1|]. split; [intros _; now rewrite H2|].
    now rewrite startTurns_lastMessageTime.
  - cbn. destruct (hasGameStartInfo r); cbn; repeat split; (lia || auto).
  - cbn. repeat split; (lia || auto).
  - cbn [hasJoined turnsSeen set_lastMessageTime].
    destruct (hasJoined r) eqn:Hj; cbn [negb].
    + destruct (turnsSeen r =? turnNumber turn); cbn; repeat split;
        try lia; auto.
    + cbn. repeat split; try lia; try discriminate; auto.
  - cbn. repeat split; (lia || auto).
Qed.

(** X13.  The turns-seen counter counts the turns handed to the worker:
    over any sequence of server messages (start batches with or without gaps,
    live turns in or out of step, anything else) the counter grows by exactly
    the number of [sendTurn] calls made, so it never decreases; and once the
    client has joined it stays joined. *)
Theorem counter_counts_turns_sent (ms : list (Z * ServerMessage Intent)) r :
  turnsSeen (fst (onmessages ms r))
  = turnsSeen r + Z.of_nat (length (sentTurns (snd (onmessages ms r))))
  /\ (hasJoined r = true -> hasJoined (fst (onmessages ms r)) = true).
Proof.
  revert r. induction ms as [|[now message] ms IH]; intros r; cbn [onmessages].
  - cbn. split; [lia | auto].
  - destruct (onmessage_counts now message r) as (H1 & H2 & _).
    destruct (onmessage now message r) as [r1 es1]. cbn [fst snd] in *.
    destruct (IH r1) as [I1 I2].
    destruct (onmessages ms r1) as [r2 es2]. cbn [fst snd] in *.
    rewrite sentTurns_app, length_app. split; [lia | auto].
Qed.

(** X14.  In step, nothing is dropped: once joined, a stream of live turns
    that continues the counter without a gap is handed to the worker turn
    for turn, in order, and the counter advances by its length. *)
Theorem live_turns_in_step_are_all_applied
  (ts : list (Z * Turn Intent)) r :
  hasJoined r = true ->
  gapless (turnsSeen r) (map (fun nt => turnNumber (snd nt)) ts) ->
  snd (onmessages (map (fun nt => (fst nt, ServerTurnMessage (snd nt))) ts) r)
  = map (fun nt => WorkerSendTurn (snd nt)) ts
  /\ turnsSeen (fst (onmessages
                      (map (fun nt => (fst nt, ServerTurnMessage (snd nt))) ts)
                      r))
     = turnsSeen r + Z.of_nat (length ts).
Proof.
  revert r. induction ts as [|[now turn] ts IH]; intros r Hj Hg.
  - cbn. split; [reflexivity | lia].
  - destruct Hg as [Hn Hg]. cbn [map fst snd onmessages] in *.
    assert (E : onmessage now (ServerTurnMessage turn) r
                = (set_turnsSeen (turnsSeen r + 1) (set_lastMessageTime now r),
                   [WorkerSendTurn turn])).
    { unfold onmessage. cbn [hasJoined turnsSeen set_lastMessageTime].
      rewrite Hj, Hn, Z.eqb_refl. reflexivity. }
    rewrite E.
    destruct (IH (set_turnsSeen (turnsSeen r + 1) (set_lastMessageTime now r)))
      as [I1 I2]; [exact Hj | exact Hg |].
    destruct (onmessages _ _) as [r2 es2]. cbn [fst snd] in *.
    rewrite I1, I2. cbn [turnsSeen set_turnsSeen length]. split; [reflexivity | lia].
Qed.

Lemma startTurns_seen (batch : list (Turn Intent)) r :
  Forall (fun t => turnNumber t < turnsSeen r) batch ->
  startTurns batch r = (r, []).
Proof.
  induction 1 as [|t batch Ht _ IH]; [reflexivity|].
  cbn [startTurns]. now rewrite (startTurn_seen r t Ht), IH.
Qed.

Lemma gapless_below (from : Z) (l : list Z) :
  gapless from l -> Forall (fun n => n < from + Z.of_nat (length l)) l.
Proof.
  revert from. induction l as [|n l IH]; intros from H; [constructor|].
  destruct H as [-> H]. constructor; [cbn [length]; lia|].
  apply IH in H. eapply Forall_impl; [exact H|].
  intros x Hx. cbn [length] in *. lia.
Qed.

(** X15.  A start batch that continues the counter without a gap is
    handed to the worker exactly as it is and marks the client as joined;
    when the same start message arrives again (after a reconnect, say) every
    turn of it is skipped, so no turn is applied twice. *)
Theorem start_batch_applied_once
  (now1 now2 : Z) (batch : list (Turn Intent)) r :
  gapless (turnsSeen r) (map turnNumber batch) ->
  snd (onmessage now1 (ServerStartGameMessage batch) r)
  = map WorkerSendTurn batch
  /\ turnsSeen (fst (onmessage now1 (ServerStartGameMessage batch) r))
     = turnsSeen r + Z.of_nat (length batch)
  /\ hasJoined (fst (onmessage now1 (ServerStartGameMessage batch) r)) = true
  /\ snd (onmessage now2 (ServerStartGameMessage batch)
            (fst (onmessage now1 (ServerStartGameMessage batch) r)))
     = [].
Proof.
  intros Hg. unfold onmessage at 1 2 3 5.
  rewrite (startTurns_gapless batch
             (set_hasJoined true (set_lastMessageTime now1 r)) Hg).
  cbn [fst snd turnsSeen hasJoined set_turnsSeen set_hasJoined
         set_lastMessageTime].
  repeat split. unfold onmessage. rewrite startTurns_seen; [reflexivity|].
  cbn [turnsSeen set_turnsSeen set_hasJoined set_lastMessageTime].
  apply gapless_below in Hg. rewrite length_map in Hg.
  apply Forall_map in Hg. exact Hg.
Qed.

(** X16.  The watchdog: on a local transport it never reconnects.  On a
    remote one, a check made no later than 5000 ms after a server message
    was handled does nothing; a check made later asks for a reconnect and
    restarts the wait, so that a further check within the next 5000 ms does
    nothing again. *)
Theorem watchdog_reconnects_after_5s_of_silence
  (now : Z) (message : ServerMessage Intent) r (check : Z) :
  (forall r0, onConnectionCheck true check r0 = (r0, false))
  /\ (check - now <= 5000 ->
      onConnectionCheck false check (fst (onmessage now message r))
      = (fst (onmessage now message r), false))
  /\ (check - now > 5000 ->
      snd (onConnectionCheck false check (fst (onmessage now message r)))
      = true
      /\ forall again, again - check <= 5000 ->
           snd (onConnectionCheck false again
                  (fst (onConnectionCheck false check
                          (fst (onmessage now message r)))))
           = false).
Proof.
  destruct (onmessage_counts now message r) as (_ & _ & Hl).
  split; [reflexivity|]. unfold onConnectionCheck. rewrite Hl. split.
  - intros H. replace (check - now >? 5000) with false; [reflexivity|].
    symmetry. destruct (Z.gtb_spec (check - now) 5000); [lia | reflexivity].
  - intros H. replace (check - now >? 5000) with true
      by (symmetry; destruct (Z.gtb_spec (check - now) 5000); [reflexivity | lia]).
    split; [reflexivity|]. intros again Ha.
    cbn [fst lastMessageTime set_lastMessageTime].
    replace (again - check >? 5000) with false; [reflexivity|].
    symmetry. destruct (Z.gtb_spec (again - check) 5000); [lia | reflexivity].
Qed.

Definition callback (c : Callback) r : Runner * list (Effect Intent) :=
  match c with
  | Update gu => onWorkerUpdate Intent gu r
  | Stop => stop Intent r
  end.

Lemma callbacks_cons (c : Callback) (cs : list Callback) r :
  callbacks (c :: cs) r
  = (fst (callbacks cs (fst (callback c r))),
     snd (callback c r) ++ snd (callbacks cs (fst (callback c r)))).
Proof.
  cbn [callbacks]. fold (callback c r). destruct (callback c r) as [r1 es1].
  cbn [fst snd]. now destruct (callbacks cs r1).
Qed.

Lemma hash_reports_no_cleanup (hus : list (Z * Z)) (rest : list (Effect Intent)) :
  existsb isCleanup
    (map (fun hu => EmitSendHashEvent Intent (fst hu) (snd hu)) hus ++ rest)
  = existsb isCleanup rest.
Proof. induction hus as [|hu hus IH]; [reflexivity | exact IH]. Qed.

Lemma no_cleanup_filter (es : list (Effect Intent)) :
  existsb isCleanup es = false ->
  filter (fun e => isCleanup e = true) es = [].
Proof.
  induction es as [|e es IH]; [reflexivity|]. cbn [existsb].
  intros H. apply orb_false_iff in H as [He H]. rewrite filter_cons.
  destruct (decide (isCleanup e = true)); [congruence | now apply IH].
Qed.

(** One callback either cleans nothing up and leaves the activity flag, or
    is the one that deactivates an active runner and cleans up once. *)
Lemma callback_cleanup (c : Callback) r :
  (existsb isCleanup (snd (callback c r)) = false
   /\ isActive (fst (callback c r)) = isActive r)
  \/ (isActive r = true /\ isActive (fst (callback c r)) = false
      /\ filter (fun e => isCleanup e = true) (snd (callback c r))
         = [WorkerCleanup Intent]).
Proof.
  destruct c as [[errMsg|hus hasWin]|]; unfold callback, onWorkerUpdate, stop.
  - destruct (hasGameStartInfo r); cbn [negb]; [|left; now split].
    destruct (isActive r) eqn:Ha; cbn [negb]; [right | left]; now repeat split.
  - destruct (hasGameStartInfo r); cbn [negb]; [|left; now split].
    left. split; [|reflexivity]. cbn [snd existsb isCleanup orb].
    rewrite hash_reports_no_cleanup. now destruct hasWin.
  - destruct (isActive r) eqn:Ha; cbn [negb]; [right | left]; now repeat split.
Qed.

Lemma callbacks_inactive (cs : list Callback) r :
  isActive r = false ->
  existsb isCleanup (snd (callbacks cs r)) = false.
Proof.
  revert r. induction cs as [|c cs IH]; intros r Hr; [reflexivity|].
  rewrite callbacks_cons. cbn [snd]. rewrite existsb_app.
  destruct (callback_cleanup c r) as [[H1 H2]|[Ha _]]; [|congruence].
  rewrite H1, IH; [reflexivity | congruence].
Qed.

(** X17.  The worker is cleaned up at most once: over any sequence of
    worker updates (errors included) and [stop()] calls, at most one
    [worker.cleanup()] is made, and none at all by a runner that is not
    active. *)
Theorem worker_cleaned_up_at_most_once (cs : list Callback) r :
  (length (filter (fun e => isCleanup e = true) (snd (callbacks cs r))) <= 1)%nat
  /\ (isActive r = false ->
      existsb isCleanup (snd (callbacks cs r)) = false).
Proof.
  split; [|apply callbacks_inactive].
  revert r. induction cs as [|c cs IH]; intros r; [cbn; lia|].
  rewrite callbacks_cons. cbn [snd]. rewrite filter_app, length_app.
  destruct (callback_cleanup c r) as [[H1 _]|(_ & Hr & H1)].
  - rewrite (no_cleanup_filter _ H1). cbn [length]. apply IH.
  - rewrite H1, (no_cleanup_filter _ (callbacks_inactive cs _ Hr)).
    cbn. lia.
Qed.

End More.

(** *** Concrete runs *)

Definition joinedAt3 : Runner := mkRunner true true 3 true 0.

Definition liveTurns : list (Z * Turn string) :=
  [(10, mkTurn 3 ["spawn"%string] None); (110, mkTurn 4 [] None);
   (210, mkTurn 5 ["attack"%string] None)].

Lemma live_turns_in_step_are_all_applied_witness :
  hasJoined joinedAt3 = true
  /\ gapless (turnsSeen joinedAt3)
       (map (fun nt => turnNumber (snd nt)) liveTurns)
  /\ snd (onmessages
            (map (fun nt => (fst nt, ServerTurnMessage (snd nt))) liveTurns)
            joinedAt3)
     = map (fun nt => WorkerSendTurn (snd nt)) liveTurns.
Proof.
  split; [reflexivity|]. split; [cbn; repeat split|].
  apply (live_turns_in_step_are_all_applied liveTurns joinedAt3).
  - reflexivity.
  - cbn; repeat split.
Defined.

Lemma start_batch_applied_once_witness :
  gapless (turnsSeen joinedAt3) (map turnNumber (map snd liveTurns))
  /\ snd (onmessage 10 (ServerStartGameMessage (map snd liveTurns)) joinedAt3)
     = map WorkerSendTurn (map snd liveTurns).
Proof.
  split; [cbn; repeat split|].
  apply (start_batch_applied_once 10 20 (map snd liveTurns) joinedAt3).
  cbn; repeat split.
Defined.

(** A mixed stream: a stale live turn, a start batch with a turn already
    seen, a live turn out of step.  Three turns reach the worker and the
    counter goes from 3 to 6. *)
Example mixed_stream_counter :
  let ms := [(5, ServerTurnMessage (mkTurn 2 ["emoji"%string] None));
             (6, ServerStartGameMessage
                   [mkTurn 2 [] None; mkTurn 3 ["spawn"%string] None;
                    mkTurn 4 [] None]);
             (7, ServerTurnMessage (mkTurn 9 [] None));
             (8, ServerTurnMessage (mkTurn 5 [] None))] in
  turnsSeen (fst (onmessages ms joinedAt3)) = 6
  /\ map turnNumber (sentTurns (snd (onmessages ms joinedAt3))) = [3; 4; 5].
Proof.
  cbv zeta. cbn [onmessages onmessage]. cbn [hasJoined turnsSeen set_lastMessageTime
    set_hasJoined joinedAt3 negb Z.eqb turnNumber Pos.eqb].
  cbn [startTurns].
  rewrite (startTurn_seen (Intent := string)) by (cbn; lia).
  rewrite (startTurn_next (Intent := string)) by reflexivity.
  cbn [turnsSeen set_turnsSeen Z.add Pos.add Pos.succ].
  rewrite (startTurn_next (Intent := string)) by reflexivity.
  cbn. split; reflexivity.
Qed.

End ClientGameRunnerMore.

(** ** ClientGameRunner: choosing the building to upgrade *)

Module NearestUpgrade.
Section Nearest.
Variables TileRef UnitType : Type.

(** [this.gameView.manhattanDist]. *)
Variable manhattanDist : TileRef -> TileRef -> Z.

(** An entry of [actions.buildableUnits]; [canUpgrade] is [false] or the id
    of the unit that can be upgraded. *)
Record BuildableUnit : Type := mkBuildableUnit {
  canUpgrade : option Z;
  type : UnitType
}.

(** A unit of [this.gameView.units()]. *)
Record UnitView : Type := mkUnitView {
  id : Z;
  tile : TileRef
}.

(** An entry of the local array [upgradeUnits]. *)
Record Upgrade : Type := mkUpgrade {
  unitId : Z;
  unitType : UnitType;
  distance : Z
}.

(** [units.find((unit) => unit.id() === bu.canUpgrade)]. *)
Definition findUnit (units : list UnitView) (uid : Z) : option UnitView :=
  List.find (fun unit => id unit =? uid) units.

(** The [for (const bu of actions.buildableUnits)] loop: the entries pushed,
    in order. *)
Fixpoint upgradeUnits (clickedTile : TileRef) (units : list UnitView)
  (buildableUnits : list BuildableUnit) : list Upgrade :=
  match buildableUnits with
  | [] => []
  | bu :: rest =>
      match canUpgrade bu with
      | Some uid =>
          match findUnit units uid with
          | Some existingUnit =>
              mkUpgrade uid (type bu)
                (manhattanDist clickedTile (tile existingUnit))
              :: upgradeUnits clickedTile units rest
          | None => upgradeUnits clickedTile units rest
          end
      | None => upgradeUnits clickedTile units rest
      end
  end.

(** [upgradeUnits.sort((a, b) => a.distance - b.distance)]: the sort of
    arrays is stable, so the result is the one of this stable insertion
    sort. *)
Fixpoint insertByDistance (x : Upgrade) (l : list Upgrade) : list Upgrade :=
  match l with
  | [] => [x]
  | y :: rest =>
      if distance x <=? distance y then x :: l
      else y :: insertByDistance x rest
  end.

Definition sortByDistance (l : list Upgrade) : list Upgrade :=
  foldr insertByDistance [] l.

(** [findAndUpgradeNearestBuilding], once [actions] has arrived: the
    arguments of the [SendUpgradeStructureIntentEvent] it emits, if any. *)
Definition findAndUpgradeNearestBuilding (clickedTile : TileRef)
  (units : list UnitView) (buildableUnits : list BuildableUnit)
  : option (Z * UnitType) :=
  let ups := upgradeUnits clickedTile units buildableUnits in
  if 0 <? Z.of_nat (length ups) then
    match sortByDistance ups with
    | bestUpgrade :: _ => Some (unitId bestUpgrade, unitType bestUpgrade)
    | [] => None
    end
  else None.

(** [best] is the first entry of [l] with the least distance. *)
Definition firstNearest (best : Upgrade) (l : list Upgrade) : Prop :=
  exists pre post,
    l = pre ++ best :: post
    /\ Forall (fun c => distance best < distance c) pre
    /\ Forall (fun c => distance best <= distance c) post.

Lemma sortByDistance_head (l : list Upgrade) :
  l <> [] ->
  exists best rest, sortByDistance l = best :: rest /\ firstNearest best l.
Proof.
  induction l as [|x l IH]; [congruence|]. intros _.
  destruct l as [|y l].
  - exists x, []. split; [reflexivity|]. exists [], []. now repeat split.
  - destruct IH as (b & rest & Hs & pre & post & Hl & Hpre & Hpost);
      [discriminate|].
    change (sortByDistance (x :: y :: l))
      with (insertByDistance x (sortByDistance (y :: l))).
    rewrite Hs. cbn [insertByDistance].
    destruct (Z.leb_spec (distance x) (distance b)) as [Hle|Hlt].
    + exists x, (b :: rest). split; [reflexivity|].
      exists [], (y :: l). split; [reflexivity|]. split; [constructor|].
      rewrite Hl. apply Forall_app. split.
      * eapply Forall_impl; [exact Hpre|]. cbn. intros; lia.
      * constructor; [exact Hle|].
        eapply Forall_impl; [exact Hpost|]. cbn. intros; lia.
    + exists b, (insertByDistance x rest). split; [reflexivity|].
      exists (x :: pre), post. rewrite Hl. split; [reflexivity|].
      split; [constructor; assumption | exact Hpost].
Qed.

(** [existingUnit] is the unit [units.find] returns for [uid]: the first
    unit of [units] with that id. *)
Definition firstWithId (uid : Z) (existingUnit : UnitView)
  (units : list UnitView) : Prop :=
  exists before after,
    units = before ++ existingUnit :: after
    /\ id existingUnit = uid
    /\ Forall (fun unit => id unit <> uid) before.

(** What one pass of the loop pushes for [bu], if anything. *)
Definition upgradeOf (clickedTile : TileRef) (units : list UnitView)
  (bu : BuildableUnit) : option Upgrade :=
  match canUpgrade bu with
  | Some uid =>
      match findUnit units uid with
      | Some existingUnit =>
          Some (mkUpgrade uid (type bu)
                  (manhattanDist clickedTile (tile existingUnit)))
      | None => None
      end
  | None => None
  end.

Lemma upgradeUnits_omap clickedTile units bus :
  upgradeUnits clickedTile units bus = omap (upgradeOf clickedTile units) bus.
Proof.
  induction bus as [|bu bus IH]; [reflexivity|].
  cbn [upgradeUnits omap list_omap]. unfold upgradeOf at 1.
  destruct (canUpgrade bu) as [uid|]; [|exact IH].
  destruct (findUnit units uid); [|exact IH]. now rewrite IH.
Qed.

Lemma findUnit_first units uid existingUnit :
  findUnit units uid = Some existingUnit <-> firstWithId uid existingUnit units.
Proof.
  unfold findUnit, firstWithId. induction units as [|u units IH]; cbn [find].
  - split; [discriminate|]. intros (before & after & H & _).
    destruct before; discriminate H.
  - destruct (Z.eqb_spec (id u) uid) as [He|Hne].
    + split.
      * intros [= <-]. exists [], units. now repeat split.
      * intros (before & after & H & Hid & Hb).
        destruct before as [|v before].
        -- injection H as ->. reflexivity.
        -- injection H as -> _. inversion Hb; contradiction.
    + rewrite IH. split.
      * intros (before & after & -> & Hid & Hb).
        exists (u :: before), after. repeat split; [exact Hid|].
        constructor; assumption.
      * intros (before & after & H & Hid & Hb).
        destruct before as [|v before].
        -- injection H as -> _. contradiction.
        -- injection H as -> ->. exists before, after.
           repeat split; [exact Hid|]. now inversion Hb.
Qed.

Lemma omap_split {A B : Type} (f : A -> option B) (l : list A)
  (pre' : list B) (x : B) (post' : list B) :
  omap f l = pre' ++ x :: post' ->
  exists pre a post,
    l = pre ++ a :: post /\ f a = Some x
    /\ omap f pre = pre' /\ omap f post = post'.
Proof.
  revert pre'. induction l as [|a l IH]; intros pre' H.
  - destruct pre'; discriminate H.
  - cbn [omap list_omap] in H. destruct (f a) as [b|] eqn:Hf.
    + destruct pre' as [|p pre'].
      * injection H as -> H. exists [], a, l. now repeat split.
      * injection H as -> H. destruct (IH pre' H)
          as (pre & a' & post & -> & Hfa & Hpre & Hpost).
        exists (a :: pre), a', post. repeat split; try assumption.
        cbn [omap list_omap]. now rewrite Hf, Hpre.
    + destruct (IH pre' H) as (pre & a' & post & -> & Hfa & Hpre & Hpost).
      exists (a :: pre), a', post. repeat split; try assumption.
      cbn [omap list_omap]. now rewrite Hf.
Qed.

Lemma omap_In {A B : Type} (f : A -> option B) (l : list A) (a : A) (b : B) :
  In a l -> f a = Some b -> In b (omap f l).
Proof.
  intros Hin Hf. induction l as [|a' l IH]; [destruct Hin|].
  cbn [omap list_omap]. destruct Hin as [->|Hin].
  - rewrite Hf. now left.
  - destruct (f a'); [right|]; auto.
Qed.

(** X18.  The upgrade intent goes to the nearest upgradable building.  A
    candidate is an entry of [buildableUnits] that names a unit to upgrade
    for which [units] holds a unit with that id; its distance is the
    Manhattan distance from the clicked tile to the first such unit.  If
    [findAndUpgradeNearestBuilding] emits an intent for unit [uid] and type
    [ty], these are the id and type of a candidate that is strictly nearer
    than every candidate before it in [buildableUnits] and at least as near
    as every candidate after it.  It emits nothing exactly when there is no
    candidate. *)
Theorem upgrade_goes_to_nearest_building clickedTile units bus :
  match findAndUpgradeNearestBuilding clickedTile units bus with
  | Some (uid, ty) =>
      exists earlier bu later existingUnit,
        bus = earlier ++ bu :: later
        /\ canUpgrade bu = Some uid /\ type bu = ty
        /\ firstWithId uid existingUnit units
        /\ (forall bu' uid' unit',
              In bu' earlier -> canUpgrade bu' = Some uid' ->
              firstWithId uid' unit' units ->
              manhattanDist clickedTile (tile existingUnit)
              < manhattanDist clickedTile (tile unit'))
        /\ (forall bu' uid' unit',
              In bu' later -> canUpgrade bu' = Some uid' ->
              firstWithId uid' unit' units ->
              manhattanDist clickedTile (tile existingUnit)
              <= manhattanDist clickedTile (tile unit'))
  | None =>
      forall bu uid unit,
        In bu bus -> canUpgrade bu = Some uid -> In unit units ->
        id unit <> uid
  end.
Proof.
  unfold findAndUpgradeNearestBuilding.
  destruct (upgradeUnits clickedTile units bus) as [|u ups] eqn:Hu.
  - cbn. intros bu uid unit Hbu Hc Hunit Hid.
    destruct (findUnit units uid) as [ex|] eqn:Hf.
    + rewrite upgradeUnits_omap in Hu.
      assert (Hin : In (mkUpgrade uid (type bu)
                          (manhattanDist clickedTile (tile ex)))
                       (omap (upgradeOf clickedTile units) bus)).
      { apply (omap_In _ _ bu); [exact Hbu|]. unfold upgradeOf.
        now rewrite Hc, Hf. }
      rewrite Hu in Hin. destruct Hin.
    + unfold findUnit in Hf. apply (find_none _ _ Hf) in Hunit.
      apply Z.eqb_neq in Hunit. contradiction.
  - cbn [length]. replace (0 <? Z.of_nat (S (length ups))) with true
      by (symmetry; apply Z.ltb_lt; lia).
    destruct (sortByDistance_head (u :: ups))
      as (best & rest & Hs & pre' & post' & Hl & Hpre & Hpost);
      [discriminate|].
    rewrite Hs. rewrite <- Hu, upgradeUnits_omap in Hl.
    destruct (omap_split _ _ _ _ _ Hl)
      as (earlier & bu & later & Hbus & Hbest & Hearlier & Hlater).
    unfold upgradeOf in Hbest.
    destruct (canUpgrade bu) as [uid|] eqn:Hc; [|discriminate].
    destruct (findUnit units uid) as [ex|] eqn:Hf; [|discriminate].
    injection Hbest as <-. cbn [unitId unitType distance] in *.
    exists earlier, bu, later, ex.
    split; [exact Hbus|]. split; [exact Hc|]. split; [reflexivity|].
    split; [now apply findUnit_first|]. split.
    + intros bu' uid' unit' Hin Hc' Hfirst. apply findUnit_first in Hfirst.
      rewrite Forall_forall in Hpre.
      apply (Hpre (mkUpgrade uid' (type bu')
                     (manhattanDist clickedTile (tile unit')))).
      rewrite <- Hearlier. apply list_elem_of_In.
      apply (omap_In _ _ bu'); [exact Hin|].
      unfold upgradeOf. now rewrite Hc', Hfirst.
    + intros bu' uid' unit' Hin Hc' Hfirst. apply findUnit_first in Hfirst.
      rewrite Forall_forall in Hpost.
      apply (Hpost (mkUpgrade uid' (type bu')
                      (manhattanDist clickedTile (tile unit')))).
      rewrite <- Hlater. apply list_elem_of_In.
      apply (omap_In _ _ bu'); [exact Hin|].
      unfold upgradeOf. now rewrite Hc', Hfirst.
Qed.

End Nearest.

(** Two upgradable buildings at the same distance and a nearer one that does
    not exist any more: the first of the two is chosen. *)
Example upgrade_tie_goes_to_first :
  findAndUpgradeNearestBuilding Z string (fun a b => Z.abs (a - b)) 10
    [mkUnitView Z 1 14; mkUnitView Z 2 6; mkUnitView Z 3 30]
    [mkBuildableUnit string None "Port"; mkBuildableUnit string (Some 9) "City";
     mkBuildableUnit string (Some 3) "Silo"; mkBuildableUnit string (Some 2) "Port";
     mkBuildableUnit string (Some 1) "City"]%string
  = Some (2, "Port"%string).
Proof. reflexivity. Qed.

End NearestUpgrade.

(** ** The local game: runner, local transport and local server wired up

    In a single-player game or a replay, [Transport.connect] builds a
    [LocalServer] whose [clientConnect] and [clientMessage] are the runner's
    [onconnect] and [onmessage]; the runner's calls on the transport
    ([joinGame], [turnComplete], the handler of [SendHashEvent],
    [leaveGame]) reach the server through the transport's local branches.
    All of these are synchronous calls, so one task of the event loop runs a
    chain of handlers to its end; an exception thrown anywhere in the chain
    ends it. *)

Module LocalGame.
Import Schemas.
Module R := ClientGameRunner.
Module T := Transport.
Module S := LocalServer.

Section Game.
Context {Intent : Type}.
Variable cfg : S.Config Intent.
Variable stringify : ClientMessage Intent -> string.

Record Game : Type := mkGame {
  transport : T.Transport;
  server : S.Server Intent;
  runner : R.Runner
}.

Definition set_transport (t : T.Transport) (g : Game) : Game :=
  mkGame t (server g) (runner g).
Definition set_server (s : S.Server Intent) (g : Game) : Game :=
  mkGame (transport g) s (runner g).
Definition set_runner (r : R.Runner) (g : Game) : Game :=
  mkGame (transport g) (server g) r.

(** The calls that leave the three objects: those of the runner on the
    worker and the view, and those of the server on the console and the
    archive. *)
Inductive Output : Type :=
| RunnerDid (e : R.Effect Intent)
| ServerDid (e : S.Effect Intent).

(** The result of a chain of handlers: the objects afterwards, the calls
    made, and whether an exception is on its way out. *)
Record Outcome : Type := mkOutcome {
  game : Game;
  log : list Output;
  threw : bool
}.

Definition isThrowR (e : R.Effect Intent) : bool :=
  match e with R.Throw _ _ => true | _ => false end.
Definition isThrowS (e : S.Effect Intent) : bool :=
  match e with S.Throw _ => true | _ => false end.

(** The calls of a handler one after the other, until one throws. *)
Fixpoint each {A : Type} (f : A -> Game -> Outcome) (l : list A) (g : Game)
  : Outcome :=
  match l with
  | [] => mkOutcome g [] false
  | a :: rest =>
      let o1 := f a g in
      if threw o1 then o1
      else
        let o2 := each f rest (game o1) in
        mkOutcome (game o2) (log o1 ++ log o2) (threw o2)
  end.

(** [this.clientMessage(m)] called by the server while it handles a message
    of the client (a desync report): the runner's [onmessage] runs; of what
    it does then only the modal and the console remain to be recorded. *)
Definition reportToClient (now : Z)
  : list (S.Effect Intent) -> Game -> Outcome :=
  each (fun e g =>
          match e with
          | S.clientMessage m =>
              let (r', res) := R.onmessage now m (runner g) in
              mkOutcome (set_runner r' g) (map RunnerDid res)
                (existsb isThrowR res)
          | _ => mkOutcome g [ServerDid e] (isThrowS e)
          end).

(** The calls of the local transport on its server. *)
Definition toServer (now : Z)
  : list (T.Effect Intent) -> Game -> Outcome :=
  each (fun e g =>
          match e with
          | T.LocalServerOnMessage _ msg =>
              let (s', ses) := S.onMessage cfg msg (server g) in
              reportToClient now ses (set_server s' g)
          | T.LocalServerTurnComplete _ =>
              mkOutcome (set_server (S.turnComplete (server g)) g) [] false
          | _ => mkOutcome g [] false
          end).

(** [leaveGame()] on a local transport: [this.localServer.endGame()]. *)
Definition leaveGame (g : Game) : Outcome :=
  let (s', ses) := S.endGame cfg (server g) in
  mkOutcome (set_server s' g) (map ServerDid ses) (existsb isThrowS ses).

(** The calls of the runner: those on the transport are carried out, the
    others recorded. *)
Definition fromRunner (now : Z)
  : list (R.Effect Intent) -> Game -> Outcome :=
  each (fun e g =>
          match e with
          | R.TransportTurnComplete _ =>
              let (t', tes) := T.turnComplete Intent (transport g) in
              toServer now tes (set_transport t' g)
          | R.EmitSendHashEvent _ tick h =>
              let (t', tes) := T.onSendHashEvent stringify tick h (transport g) in
              toServer now tes (set_transport t' g)
          | R.TransportJoinGame _ numTurns =>
              let (t', tes) := T.joinGame stringify numTurns (transport g) in
              toServer now tes (set_transport t' g)
          | R.TransportLeaveGame _ => leaveGame g
          | _ => mkOutcome g [RunnerDid e] (isThrowR e)
          end).

(** The calls of the server on its two callbacks: [clientConnect] is the
    runner's [onconnect], which joins with the turns-seen counter, and
    [clientMessage] is its [onmessage]. *)
Definition fromServer (now : Z)
  : list (S.Effect Intent) -> Game -> Outcome :=
  each (fun e g =>
          match e with
          | S.clientConnect =>
              fromRunner now [R.TransportJoinGame Intent (R.turnsSeen (runner g))] g
          | S.clientMessage m =>
              let (r', res) := R.onmessage now m (runner g) in
              fromRunner now res (set_runner r' g)
          | _ => mkOutcome g [ServerDid e] (isThrowS e)
          end).

(** What starts a task: the runner connecting its transport (which builds
    and starts a new local server), the server's timer, an update from the
    worker, the player acting, pausing or resuming, and the runner being
    stopped.  Each carries the clock values read during the task. *)
Inductive Event : Type :=
| Connect (now now' : Z)
| TimerFires (now1 now2 now3 : Z)
| WorkerDone (gu : R.WorkerUpdate) (now : Z)
| UserIntent (intent : Intent) (now : Z)
| UserPause (paused : bool)
| Stopped (now : Z).

Definition step (e : Event) (g : Game) : Outcome :=
  match e with
  | Connect now now' =>
      if T.isLocal (transport g) then
        let (s', ses) := S.start cfg now (S.init Intent) in
        fromServer now' ses (set_server s' g)
      else mkOutcome g [] false
  | TimerFires now1 now2 now3 =>
      let (s', ses) := S.step cfg (S.TurnCheck now1 now2) (server g) in
      fromServer now3 ses (set_server s' g)
  | WorkerDone gu now =>
      let (r', res) := R.onWorkerUpdate Intent gu (runner g) in
      fromRunner now res (set_runner r' g)
  | UserIntent intent now =>
      let (t', tes) := T.sendIntent stringify intent (transport g) in
      toServer now tes (set_transport t' g)
  | UserPause paused =>
      if T.isLocal (transport g)
      then mkOutcome
             (set_server (if paused then S.pause (server g)
                          else S.resume (server g)) g) [] false
      else mkOutcome g [] false
  | Stopped now =>
      let (r', res) := R.stop Intent (runner g) in
      fromRunner now res (set_runner r' g)
  end.

(** Tasks one after the other; an exception ends its task only. *)
Fixpoint run (es : list Event) (g : Game) : Game * list Output :=
  match es with
  | [] => (g, [])
  | e :: rest =>
      let o1 := step e g in
      let (g2, out2) := run rest (game o1) in
      (g2, log o1 ++ out2)
  end.

Definition isWorkerTurn (o : Output) : option (Turn Intent) :=
  match o with
  | RunnerDid (R.WorkerSendTurn t) => Some t
  | _ => None
  end.

(** The turns handed to the worker, in order. *)
Definition workerTurns (out : list Output) : list (Turn Intent) :=
  omap isWorkerTurn out.

Definition isConnect (e : Event) : bool :=
  match e with Connect _ _ => true | _ => false end.

(** Runner and server agree: the client has joined and has seen as many
    turns as the server has committed. *)
Definition inStep (g : Game) : Prop :=
  R.hasJoined (runner g) = true
  /\ R.turnsSeen (runner g) = Z.of_nat (length (S.turns (server g))).

(** *** Handlers that leave runner and server in step *)

Import LocalServerProps.

(** Nothing that matters to the turn stream changed between [g] and [g']:
    the runner's join flag and counter are the same, and the committed turns
    are the same up to hashes. *)
Definition quiet (g g' : Game) : Prop :=
  R.hasJoined (runner g') = R.hasJoined (runner g)
  /\ R.turnsSeen (runner g') = R.turnsSeen (runner g)
  /\ Forall2 sameTurn (S.turns (server g)) (S.turns (server g')).

Lemma quiet_refl g : quiet g g.
Proof. repeat split. apply sameTurn_refl. Qed.

Lemma quiet_trans g1 g2 g3 : quiet g1 g2 -> quiet g2 g3 -> quiet g1 g3.
Proof.
  intros (A1 & A2 & A3) (B1 & B2 & B3). repeat split; try congruence.
  eapply sameTurn_trans; eassumption.
Qed.

Lemma workerTurns_app (o1 o2 : list Output) :
  workerTurns (o1 ++ o2) = workerTurns o1 ++ workerTurns o2.
Proof. apply omap_app. Qed.

Lemma workerTurns_runner (res : list (R.Effect Intent)) :
  workerTurns (map RunnerDid res) = R.sentTurns res.
Proof.
  induction res as [|e res IH]; [reflexivity|].
  cbn. unfold workerTurns, R.sentTurns in *. cbn. rewrite IH.
  now destruct e.
Qed.

Lemma workerTurns_server (ses : list (S.Effect Intent)) :
  workerTurns (map ServerDid ses) = [].
Proof. induction ses as [|e ses IH]; [reflexivity | exact IH]. Qed.

Lemma each_quiet {A : Type} (P : A -> Prop) (f : A -> Game -> Outcome) :
  (forall a g, P a ->
     quiet g (game (f a g)) /\ workerTurns (log (f a g)) = []) ->
  forall l g, Forall P l ->
    quiet g (game (each f l g)) /\ workerTurns (log (each f l g)) = [].
Proof.
  intros Hf l. induction l as [|a l IH]; intros g Hl.
  - split; [apply quiet_refl | reflexivity].
  - apply Forall_cons in Hl as [Ha Hl]. cbn [each].
    destruct (Hf a g Ha) as [Hq Hw]. destruct (threw (f a g)); [now split|].
    destruct (IH (game (f a g)) Hl) as [Hq' Hw']. cbn [game log].
    split; [eapply quiet_trans; eassumption|].
    now rewrite workerTurns_app, Hw, Hw'.
Qed.

(** A call of the server that is not the delivery of a start batch or of a
    turn. *)
Definition noTurnFor (e : S.Effect Intent) : Prop :=
  match e with
  | S.clientMessage (ServerStartGameMessage _) => False
  | S.clientMessage (ServerTurnMessage _) => False
  | _ => True
  end.

Lemma onmessage_other now (m : ServerMessage Intent) r :
  noTurnFor (S.clientMessage m) ->
  R.hasJoined (fst (R.onmessage now m r)) = R.hasJoined r
  /\ R.turnsSeen (fst (R.onmessage now m r)) = R.turnsSeen r
  /\ R.sentTurns (snd (R.onmessage now m r)) = [].
Proof.
  destruct m; cbn; try contradiction; intros _;
    try destruct (R.hasGameStartInfo r); now repeat split.
Qed.

Lemma reportToClient_quiet now (ses : list (S.Effect Intent)) g :
  Forall noTurnFor ses ->
  quiet g (game (reportToClient now ses g))
  /\ workerTurns (log (reportToClient now ses g)) = [].
Proof.
  apply each_quiet. clear. intros e g He.
  destruct e as [|m| | | | | |]; try (split; [apply quiet_refl | reflexivity]).
  destruct (onmessage_other now m (runner g) He) as (H1 & H2 & H3).
  destruct (R.onmessage now m (runner g)) as [r' res]. cbn [fst snd] in *.
  cbn [game log]. rewrite workerTurns_runner. split; [|exact H3].
  repeat split; [exact H1 | exact H2 | apply sameTurn_refl].
Qed.

Lemma onMessage_noTurnFor (msg : ClientMessage Intent) s :
  Forall noTurnFor (snd (S.onMessage cfg msg s)).
Proof.
  destruct msg; cbn [S.onMessage];
    repeat match goal with
           | |- context [if ?b then _ else _] => destruct b
           | |- context [match ?o with Some _ => _ | None => _ end] =>
               destruct o
           end; repeat constructor.
Qed.

Lemma toServer_quiet now (tes : list (T.Effect Intent)) g :
  quiet g (game (toServer now tes g))
  /\ workerTurns (log (toServer now tes g)) = [].
Proof.
  apply (each_quiet (fun _ => True)); [|now apply Forall_forall].
  clear. intros e g _.
  destruct e; try (split; [apply quiet_refl | reflexivity]).
  - pose proof (onMessage_change cfg msg (server g)) as Hc.
    apply turnsChange_stable in Hc as [Hc _].
    rewrite onMessage_emits_nothing, app_nil_r in Hc.
    pose proof (onMessage_noTurnFor msg (server g)) as Hn.
    destruct (S.onMessage cfg msg (server g)) as [s' ses]. cbn [fst snd] in *.
    destruct (reportToClient_quiet now ses (set_server s' g) Hn) as [Hq Hw].
    split; [|exact Hw]. eapply quiet_trans; [|exact Hq].
    repeat split. exact Hc.
  - split; [|reflexivity]. repeat split. apply sameTurn_refl.
Qed.

Lemma leaveGame_quiet g :
  quiet g (game (leaveGame g)) /\ workerTurns (log (leaveGame g)) = [].
Proof.
  unfold leaveGame.
  pose proof (endGame_emits_nothing cfg (server g)) as (_ & Ht & _).
  destruct (S.endGame cfg (server g)) as [s' ses]. cbn [fst game log] in *.
  rewrite workerTurns_server. split; [|reflexivity].
  repeat split. cbn. rewrite Ht. apply sameTurn_refl.
Qed.

Definition noSendTurn (e : R.Effect Intent) : Prop :=
  match e with R.WorkerSendTurn _ => False | _ => True end.

Lemma fromRunner_quiet now (res : list (R.Effect Intent)) g :
  Forall noSendTurn res ->
  quiet g (game (fromRunner now res g))
  /\ workerTurns (log (fromRunner now res g)) = [].
Proof.
  apply each_quiet. clear. intros e g He.
  destruct e as [t| |n| | |k h| | | | | |]; try contradiction;
    try (split; [apply quiet_refl | reflexivity]).
  - destruct (T.joinGame stringify n (transport g)) as [t' tes].
    apply (toServer_quiet now tes (set_transport t' g)).
  - destruct (T.turnComplete Intent (transport g)) as [t' tes].
    apply (toServer_quiet now tes (set_transport t' g)).
  - apply leaveGame_quiet.
  - destruct (T.onSendHashEvent stringify k h (transport g)) as [t' tes].
    apply (toServer_quiet now tes (set_transport t' g)).
Qed.

Lemma fromServer_quiet now (ses : list (S.Effect Intent)) g :
  Forall noTurnFor ses ->
  quiet g (game (fromServer now ses g))
  /\ workerTurns (log (fromServer now ses g)) = [].
Proof.
  apply each_quiet. clear. intros e g He.
  destruct e as [|m| | | | | |]; try (split; [apply quiet_refl | reflexivity]).
  - apply fromRunner_quiet. repeat constructor.
  - destruct (onmessage_other now m (runner g) He) as (H1 & H2 & H3).
    destruct (R.onmessage now m (runner g)) as [r' res] eqn:Hm.
    cbn [fst snd] in *.
    assert (Hres : Forall noSendTurn res).
    { clear -H3. induction res as [|e res IH]; [constructor|].
      unfold R.sentTurns in *. cbn in H3.
      destruct e; try discriminate H3; constructor; cbn; auto. }
    destruct (fromRunner_quiet now res (set_runner r' g) Hres) as [Hq Hw].
    split; [|exact Hw]. eapply quiet_trans; [|exact Hq].
    repeat split; [exact H1 | exact H2 | apply sameTurn_refl].
Qed.

Lemma quiet_inStep g g' (out : list Output) :
  quiet g g' -> workerTurns out = [] -> inStep g ->
  inStep g'
  /\ Forall2 sameTurn (S.turns (server g) ++ workerTurns out)
       (S.turns (server g')).
Proof.
  intros (H1 & H2 & H3) Hw [Hj Hc]. rewrite Hw, app_nil_r.
  split; [|exact H3]. split; [congruence|].
  apply Forall2_length in H3. rewrite H2, Hc. now rewrite H3.
Qed.

(** The timer callback either delivers nothing to the client and commits
    nothing, or commits one turn, numbered by the turns committed before,
    and delivers exactly that turn. *)
Lemma turnCheck_cases (now1 now2 : Z) (s : S.Server Intent) :
  (Forall noTurnFor (snd (S.step cfg (S.TurnCheck now1 now2) s))
   /\ S.turns (fst (S.step cfg (S.TurnCheck now1 now2) s)) = S.turns s)
  \/ exists ints,
       snd (S.step cfg (S.TurnCheck now1 now2) s)
       = [S.clientMessage
            (ServerTurnMessage
               (mkTurn (Z.of_nat (length (S.turns s))) ints None))]
       /\ S.turns (fst (S.step cfg (S.TurnCheck now1 now2) s))
          = S.turns s
            ++ [mkTurn (Z.of_nat (length (S.turns s))) ints None].
Proof.
  cbn [S.step]. destruct (S.turnCheckInterval s); [|left; now split].
  unfold S.turnCheck. destruct (_ && _); [|left; now split].
  unfold S.endTurn. cbn [S.paused S.replayTurns S.turns S.set_turnStartTime].
  destruct (S.paused s); [left; now split|].
  destruct (0 <? Z.of_nat (length (S.replayTurns s))).
  - destruct (_ <=? _).
    + left. unfold S.endGame.
      destruct (S.isReplay cfg); [split; [repeat constructor | reflexivity]|].
      destruct (negb (S.hasGameStartInfo cfg));
        split; (repeat constructor || reflexivity).
    + destruct (S.replayTurns s !! length (S.turns s)) as [archived|].
      * right. exists (Schemas.intents archived). now split.
      * left. split; [repeat constructor | reflexivity].
  - right. exists (S.intents s). now split.
Qed.

Lemma onWorkerUpdate_noSendTurn (gu : R.WorkerUpdate) (r : R.Runner) :
  Forall noSendTurn (snd (R.onWorkerUpdate Intent gu r))
  /\ R.hasJoined (fst (R.onWorkerUpdate Intent gu r)) = R.hasJoined r
  /\ R.turnsSeen (fst (R.onWorkerUpdate Intent gu r)) = R.turnsSeen r.
Proof.
  unfold R.onWorkerUpdate, R.stop.
  destruct (R.hasGameStartInfo r); cbn [negb];
    [|split; [repeat constructor | now split]].
  destruct gu as [errMsg|hus hasWin].
  - destruct (R.isActive r); cbn; split; (repeat constructor || now split).
  - cbn [fst snd]. split; [|now split]. constructor; [exact I|].
    apply Forall_app. split.
    + induction hus; constructor; (exact I || assumption).
    + destruct hasWin; repeat constructor.
Qed.

Lemma step_inStep (e : Event) g :
  isConnect e = false -> inStep g ->
  inStep (game (step e g))
  /\ Forall2 sameTurn (S.turns (server g) ++ workerTurns (log (step e g)))
       (S.turns (server (game (step e g)))).
Proof.
  intros He Hin. destruct e as [? ?|now1 now2 now3|gu now|intent now|p|now];
    try discriminate He; cbn [step].
  - destruct (turnCheck_cases now1 now2 (server g)) as [[Hn Ht]|(ints & Hs & Ht)];
      destruct (S.step cfg (S.TurnCheck now1 now2) (server g)) as [s' ses];
      cbn [fst snd] in *.
    + destruct (fromServer_quiet now3 ses (set_server s' g) Hn) as [Hq Hw].
      apply (quiet_inStep g _ _); [|exact Hw | exact Hin].
      eapply quiet_trans; [|exact Hq]. repeat split. cbn. rewrite Ht.
      apply sameTurn_refl.
    + subst ses. destruct Hin as [Hj Hc].
      unfold fromServer. cbn [each]. unfold R.onmessage.
      cbn [runner set_server R.hasJoined R.turnsSeen R.set_lastMessageTime
             turnNumber].
      rewrite Hj, Hc, Z.eqb_refl. cbn [negb].
      unfold fromRunner. cbn [each threw game log app isThrowR].
      cbn [runner server set_runner set_server workerTurns omap isWorkerTurn].
      split.
      * split; [exact Hj|]. cbn. rewrite Ht, length_app. cbn [length]. lia.
      * rewrite Ht. apply sameTurn_refl.
  - destruct (onWorkerUpdate_noSendTurn gu (runner g)) as (Hn & H1 & H2).
    destruct (R.onWorkerUpdate Intent gu (runner g)) as [r' res].
    cbn [fst snd] in *.
    destruct (fromRunner_quiet now res (set_runner r' g) Hn) as [Hq Hw].
    apply (quiet_inStep g _ _); [|exact Hw | exact Hin].
    eapply quiet_trans; [|exact Hq]. repeat split; try assumption.
    apply sameTurn_refl.
  - destruct (T.sendIntent stringify intent (transport g)) as [t' tes].
    destruct (toServer_quiet now tes (set_transport t' g)) as [Hq Hw].
    apply (quiet_inStep g _ _); [|exact Hw | exact Hin].
    eapply quiet_trans; [|exact Hq]. repeat split. apply sameTurn_refl.
  - destruct (T.isLocal (transport g));
      (apply (quiet_inStep g _ []); [|reflexivity | exact Hin]);
      [|apply quiet_refl].
    repeat split. destruct p; apply sameTurn_refl.
  - unfold R.stop. destruct (R.isActive (runner g)); cbn [negb].
    + match goal with |- context [fromRunner now ?res ?g0] =>
        destruct (fromRunner_quiet now res g0) as [Hq Hw];
          [repeat constructor|] end.
      apply (quiet_inStep g _ _); [|exact Hw | exact Hin].
      eapply quiet_trans; [|exact Hq]. repeat split. apply sameTurn_refl.
    + apply (quiet_inStep g _ []); [|reflexivity | exact Hin].
      repeat split. apply sameTurn_refl.
Qed.

(** X19.  A local game stays in step.  Once runner and server agree (the
    client has joined and its counter equals the number of committed turns),
    they agree after every task, whatever happens: timer callbacks at any
    times, worker updates with any hashes or errors, intents, pauses, the
    runner being stopped.  Every turn the server commits is handed to the
    worker, exactly once and in order of commitment; the live-turn handler
    never meets a turn whose number differs from the counter. *)
Theorem local_game_stays_in_step (es : list Event) g :
  forallb (fun e => negb (isConnect e)) es = true -> inStep g ->
  inStep (fst (run es g))
  /\ Forall2 sameTurn
       (S.turns (server g) ++ workerTurns (snd (run es g)))
       (S.turns (server (fst (run es g)))).
Proof.
  revert g. induction es as [|e es IH]; intros g Hes Hin.
  - cbn. rewrite app_nil_r. split; [exact Hin | apply sameTurn_refl].
  - cbn [forallb] in Hes. apply andb_true_iff in Hes as [He Hes].
    apply negb_true_iff in He. cbn [run].
    destruct (step_inStep e g He Hin) as [Hin1 H1].
    destruct (IH (game (step e g)) Hes Hin1) as [Hin2 H2].
    destruct (run es (game (step e g))) as [g2 out2]. cbn [fst snd] in *.
    split; [exact Hin2|]. rewrite workerTurns_app, app_assoc.
    eapply sameTurn_trans; [|exact H2].
    apply Forall2_app; [exact H1 | apply sameTurn_refl].
Qed.

(** On a local transport the runner's join request reaches the server,
    which ignores it. *)
Lemma join_is_ignored (now numTurns : Z) g :
  T.isLocal (transport g) = true ->
  fromRunner now [R.TransportJoinGame Intent numTurns] g
  = mkOutcome g [] false.
Proof.
  intros Hl. destruct g as [t s r]. cbn [transport] in Hl.
  unfold fromRunner. cbn [each]. unfold T.joinGame, T.sendMsg.
  cbn [transport]. rewrite Hl. unfold toServer. cbn [each].
  cbn [S.onMessage server set_transport]. unfold reportToClient.
  cbn [each]. reflexivity.
Qed.

(** X20.  Connecting puts a fresh local game in step: when a runner that
    has seen no turn connects its local transport and the lobby has its
    start information, the new server receives the runner's join (which it
    ignores), answers with an empty start batch, and the runner is joined
    with its counter equal to the number of committed turns, zero.  Nothing
    is handed to the worker yet, and the server's timer is armed. *)
Theorem connect_puts_fresh_game_in_step (now now' : Z) g :
  T.isLocal (transport g) = true -> S.hasGameStartInfo cfg = true ->
  R.turnsSeen (runner g) = 0 ->
  inStep (game (step (Connect now now') g))
  /\ workerTurns (log (step (Connect now now') g)) = []
  /\ threw (step (Connect now now') g) = false
  /\ S.turns (server (game (step (Connect now now') g))) = []
  /\ S.turnCheckInterval (server (game (step (Connect now now') g))) = true.
Proof.
  intros Hl Hs H0. cbn [step]. rewrite Hl. unfold S.start. rewrite Hs.
  cbn [negb]. unfold fromServer. cbn [each]. fold (fromServer now').
  rewrite join_is_ignored by exact Hl. cbn [threw game log app each].
  unfold R.onmessage. cbn [R.startTurns].
  unfold fromRunner. cbn [each threw game log app].
  cbn [runner server set_runner set_server].
  destruct g as [t s r]. cbn [runner] in H0.
  repeat split.
  - destruct (S.gameRecord cfg); cbn; exact H0.
  - destruct (S.gameRecord cfg); reflexivity.
  - destruct (S.gameRecord cfg); reflexivity.
Qed.

End Game.

Arguments Game Intent : clear implicits.
Arguments Event Intent : clear implicits.

(** A fresh single-player game on a local transport, and a session on it:
    connect, an intent, the timer firing before and after the turn interval,
    the worker reporting a hash, a pause, a late timer callback. *)
Definition freshGame : Game string :=
  mkGame (T.mkTransport true None [] false) (S.init string)
         (R.mkRunner true true 0 false 0).

Definition session : list (Event string) :=
  [UserIntent "spawn"%string 5; TimerFires 50 50 50;
   TimerFires 120 121 122;
   WorkerDone (R.GameUpdateViewData [(0, 42)] false) 130;
   TimerFires 230 231 232; UserPause true; TimerFires 400 401 402;
   Stopped 410].

Definition connected : Game string :=
  game (step LocalServerProps.singlePlayer TransportProps.showMessage
          (Connect 0 1) freshGame).

Lemma connect_puts_fresh_game_in_step_witness :
  inStep connected
  /\ workerTurns (log (step LocalServerProps.singlePlayer
                         TransportProps.showMessage (Connect 0 1) freshGame))
     = []
  /\ threw (step LocalServerProps.singlePlayer TransportProps.showMessage
              (Connect 0 1) freshGame) = false
  /\ S.turns (server connected) = []
  /\ S.turnCheckInterval (server connected) = true.
Proof.
  apply (connect_puts_fresh_game_in_step LocalServerProps.singlePlayer
           TransportProps.showMessage 0 1 freshGame); reflexivity.
Defined.

Lemma local_game_stays_in_step_witness :
  inStep (fst (run LocalServerProps.singlePlayer TransportProps.showMessage
                 session connected))
  /\ Forall2 LocalServerProps.sameTurn
       (S.turns (server connected)
        ++ workerTurns (snd (run LocalServerProps.singlePlayer
                               TransportProps.showMessage session connected)))
       (S.turns (server (fst (run LocalServerProps.singlePlayer
                                TransportProps.showMessage session
                                connected)))).
Proof.
  apply (local_game_stays_in_step LocalServerProps.singlePlayer
           TransportProps.showMessage session connected).
  - reflexivity.
  - split; reflexivity.
Defined.

(** In that session the worker is handed two turns: turn 0 with the intent,
    then turn 1, empty. *)
Example session_turns :
  map (fun t => (turnNumber t, intents t))
      (workerTurns (snd (run LocalServerProps.singlePlayer
                           TransportProps.showMessage session connected)))
  = [(0, ["spawn"%string]); (1, [])].
Proof. reflexivity. Qed.

End LocalGame.

(** * Local game statistics ([LocalPersistantStats.ts])

    [joinLobby] records the lobby of a game when it starts and [saveGame]
    its record when it ends, both in the ["game-records"] item of
    [localStorage].  The item holds a JSON object keyed by game id. *)

From stdpp Require Import gmap strings.
Local Open Scope Z_scope.

Module LocalPersistantStats.

Section Stats.
Variables Lobby GameRecord Text : Type.
(** [gameRecord.info.gameID] *)
Variable gameID : GameRecord -> string.

(** One value of [LocalStatsData]: [{ lobby, gameRecord? }]. *)
Record GameStat : Type := mkGameStat {
  lobby : Lobby;
  gameRecord : option GameRecord
}.

Definition LocalStatsData : Type := gmap string GameStat.

(** [JSON.stringify(_, replacer)], [JSON.parse] ([None]: it throws) and the
    truthiness of a stored text (the empty string is falsy). *)
Variable stringify : LocalStatsData -> Text.
Variable parse : Text -> option LocalStatsData.
Variable nonEmpty : Text -> bool.

(** What the module reads and writes: [localStorage] (which may be
    undefined), its item ["game-records"], the module variable [_startTime],
    and the callbacks handed to [setTimeout(_, 0)] that have not run yet,
    oldest first.  A callback closes over the [stats] object it will write. *)
Record World : Type := mkWorld {
  hasLocalStorage : bool;
  item : option Text;
  _startTime : option Z;
  timeouts : list LocalStatsData
}.

Definition set_item (x : option Text) (w : World) : World :=
  mkWorld (hasLocalStorage w) x (_startTime w) (timeouts w).
Definition set__startTime (x : option Z) (w : World) : World :=
  mkWorld (hasLocalStorage w) (item w) x (timeouts w).
Definition set_timeouts (x : list LocalStatsData) (w : World) : World :=
  mkWorld (hasLocalStorage w) (item w) (_startTime w) x.

Inductive Effect : Type :=
| ConsoleLog (msg : string)
| Throw (error : string).

(** [getStats]; [None] when [JSON.parse] throws. *)
Definition getStats (w : World) : option LocalStatsData :=
  match item w with
  | Some statsStr => if nonEmpty statsStr then parse statsStr else Some ∅
  | None => Some ∅
  end.

Definition save (stats : LocalStatsData) (w : World) : World :=
  set_timeouts (timeouts w ++ [stats]) w.

Definition startGame (id : string) (lobby : Lobby) (now : Z) (w : World)
  : World * list Effect :=
  if negb (hasLocalStorage w) then (w, [])
  else
    let w := set__startTime (Some now) w in
    match getStats w with
    | None => (w, [Throw "SyntaxError"])
    | Some stats => (save (<[id := mkGameStat lobby None]> stats) w, [])
    end.

Definition startTime (w : World) : option Z := _startTime w.

Definition endGame (gameRecord : GameRecord) (w : World)
  : World * list Effect :=
  if negb (hasLocalStorage w) then (w, [])
  else
    match getStats w with
    | None => (w, [Throw "SyntaxError"])
    | Some stats =>
        match stats !! gameID gameRecord with
        | None => (w, [ConsoleLog "LocalPersistantStats: game not found"])
        | Some gameStat =>
            (save (<[gameID gameRecord :=
                       mkGameStat (lobby gameStat) (Some gameRecord)]> stats)
                  w, [])
        end
    end.

(** The oldest pending callback runs:
    [localStorage.setItem("game-records", JSON.stringify(stats, replacer))]. *)
Definition timeout (w : World) : World * list Effect :=
  match timeouts w with
  | [] => (w, [])
  | stats :: rest =>
      if hasLocalStorage w
      then (set_item (Some (stringify stats)) (set_timeouts rest w), [])
      else (set_timeouts rest w, [Throw "TypeError"])
  end.

Inductive Event : Type :=
| StartGame (id : string) (lobby : Lobby) (now : Z)
| EndGame (gameRecord : GameRecord)
| Timeout.

Definition step (e : Event) (w : World) : World * list Effect :=
  match e with
  | StartGame id lobby now => startGame id lobby now w
  | EndGame gameRecord => endGame gameRecord w
  | Timeout => timeout w
  end.

Fixpoint run (es : list Event) (w : World) : World * list Effect :=
  match es with
  | [] => (w, [])
  | e :: es =>
      let (w1, out1) := step e w in
      let (w2, out2) := run es w1 in
      (w2, out1 ++ out2)
  end.

Definition isTimeout (e : Event) : bool :=
  match e with Timeout => true | _ => false end.

(** All pending callbacks run. *)
Definition drain (w : World) : World * list Effect :=
  run (replicate (length (timeouts w)) Timeout) w.

(** ** Properties *)

(** The JSON round trip is faithful on the stored data. *)
Definition roundTrip : Prop :=
  forall stats, parse (stringify stats) = Some stats
                /\ nonEmpty (stringify stats) = true.

Lemma getStats_written stats b st ts :
  roundTrip -> getStats (mkWorld b (Some (stringify stats)) st ts) = Some stats.
Proof.
  intros Hrt. unfold getStats. cbn. destruct (Hrt stats) as [-> ->].
  reflexivity.
Qed.

(** Draining writes the newest pending snapshot. *)
Lemma drain_spec w :
  hasLocalStorage w = true ->
  drain w
  = (mkWorld true
       (match last (timeouts w) with
        | Some stats => Some (stringify stats)
        | None => item w
        end) (_startTime w) [], []).
Proof.
  unfold drain. destruct w as [b it st ts]. cbn. intros ->.
  revert it. induction ts as [|stats ts IH]; intros it; cbn.
  - reflexivity.
  - unfold timeout, set_item, set_timeouts. cbn. rewrite IH.
    rewrite last_cons. destruct (last ts); reflexivity.
Qed.

Lemma startGame_spec id lobby now old w :
  hasLocalStorage w = true -> getStats w = Some old ->
  startGame id lobby now w
  = (mkWorld true (item w) (Some now)
       (timeouts w ++ [<[id := mkGameStat lobby None]> old]), []).
Proof.
  intros Hl Hold. unfold startGame. rewrite Hl. cbn [negb].
  change (getStats (set__startTime (Some now) w)) with (getStats w).
  rewrite Hold. unfold save, set_timeouts, set__startTime. cbn. rewrite Hl.
  reflexivity.
Qed.

Lemma endGame_found gameRecord stats gameStat w :
  hasLocalStorage w = true -> getStats w = Some stats ->
  stats !! gameID gameRecord = Some gameStat ->
  endGame gameRecord w
  = (mkWorld true (item w) (_startTime w)
       (timeouts w
        ++ [<[gameID gameRecord :=
                mkGameStat (lobby gameStat) (Some gameRecord)]> stats]), []).
Proof.
  intros Hl Hs Hg. unfold endGame. rewrite Hl, Hs, Hg. cbn [negb].
  unfold save, set_timeouts. rewrite Hl. reflexivity.
Qed.

Lemma endGame_missing gameRecord stats w :
  hasLocalStorage w = true -> getStats w = Some stats ->
  stats !! gameID gameRecord = None ->
  endGame gameRecord w
  = (w, [ConsoleLog "LocalPersistantStats: game not found"]).
Proof.
  intros Hl Hs Hg. unfold endGame. rewrite Hl, Hs, Hg. reflexivity.
Qed.

Lemma timeout_writes stats rest it st :
  timeout (mkWorld true it st (stats :: rest))
  = (mkWorld true (Some (stringify stats)) st rest, []).
Proof. reflexivity. Qed.

(** X21.  A game started and later ended is stored with its lobby and its
    record.  When the JSON round trip is faithful, [startGame], the deferred
    write, [endGame] for the same game and its deferred write leave under the
    game's id the lobby given at the start together with the record; the
    other games are as they were, the start time is the time of the start,
    nothing is logged or thrown and no write is left pending. *)
Theorem record_stored_with_its_lobby id lobby now gameRecord old w :
  roundTrip ->
  hasLocalStorage w = true -> timeouts w = [] -> getStats w = Some old ->
  gameID gameRecord = id ->
  getStats (fst (run [StartGame id lobby now; Timeout;
                      EndGame gameRecord; Timeout] w))
  = Some (<[id := mkGameStat lobby (Some gameRecord)]> old)
  /\ startTime (fst (run [StartGame id lobby now; Timeout;
                          EndGame gameRecord; Timeout] w)) = Some now
  /\ timeouts (fst (run [StartGame id lobby now; Timeout;
                         EndGame gameRecord; Timeout] w)) = []
  /\ snd (run [StartGame id lobby now; Timeout; EndGame gameRecord; Timeout] w)
     = [].
Proof.
  intros Hrt Hl Ht Hold Hid. cbn [run step].
  rewrite (startGame_spec _ _ _ old) by assumption. rewrite Ht. cbn [app].
  rewrite timeout_writes.
  rewrite (endGame_found _ (<[id := mkGameStat lobby None]> old)
             (mkGameStat lobby None));
    [| reflexivity | apply getStats_written; exact Hrt
     | rewrite Hid; apply lookup_insert_eq].
  cbn [timeouts app item _startTime]. rewrite timeout_writes.
  cbn [fst snd app]. rewrite getStats_written by exact Hrt.
  rewrite Hid. split; [f_equal; apply insert_insert_eq | repeat split].
Qed.

Lemma getStats_item w w' : item w = item w' -> getStats w = getStats w'.
Proof. unfold getStats. intros ->. reflexivity. Qed.

(** X22.  [endGame] changes nothing but the record of its own game.  After
    [endGame] and its deferred write, a game that was stored has the same
    lobby and the new record; a game that was not stored is still not
    stored ([endGame] never creates an entry); every other game's entry is
    untouched. *)
Theorem endGame_changes_only_its_record gameRecord old w :
  roundTrip ->
  hasLocalStorage w = true -> timeouts w = [] -> getStats w = Some old ->
  exists new,
    getStats (fst (run [EndGame gameRecord; Timeout] w)) = Some new
    /\ new !! gameID gameRecord
       = (fun gameStat => mkGameStat (lobby gameStat) (Some gameRecord))
           <$> old !! gameID gameRecord
    /\ forall id, id <> gameID gameRecord -> new !! id = old !! id.
Proof.
  intros Hrt Hl Ht Hold. cbn [run step].
  destruct (old !! gameID gameRecord) as [gameStat|] eqn:Hg.
  - rewrite (endGame_found _ old gameStat) by assumption. rewrite Ht.
    cbn [app]. rewrite timeout_writes. cbn [fst].
    eexists. split; [apply getStats_written; exact Hrt|]. split.
    + apply lookup_insert_eq.
    + intros id Hid. apply lookup_insert_ne. congruence.
  - rewrite (endGame_missing _ old) by assumption.
    unfold timeout. rewrite Ht. cbn [fst]. exists old.
    split; [exact Hold|]. split; [rewrite Hg; reflexivity | reflexivity].
Qed.

(** The snapshots a task leaves pending: each is the stored data with one
    game's entry changed. *)
Definition oneGameChanged (old stats : LocalStatsData) : Prop :=
  exists id, forall id', id' <> id -> stats !! id' = old !! id'.

Lemma task_schedules_snapshots (es : list Event) old w :
  hasLocalStorage w = true -> getStats w = Some old ->
  forallb (fun e => negb (isTimeout e)) es = true ->
  hasLocalStorage (fst (run es w)) = true
  /\ item (fst (run es w)) = item w
  /\ exists l, timeouts (fst (run es w)) = timeouts w ++ l
               /\ Forall (oneGameChanged old) l.
Proof.
  revert w. induction es as [|e es IH]; intros w Hl Hold Hes.
  - cbn. repeat split; [exact Hl|]. exists []. rewrite app_nil_r.
    split; [reflexivity | constructor].
  - cbn [forallb] in Hes. apply andb_true_iff in Hes as [He Hes].
    cbn [run].
    assert (Hstep : hasLocalStorage (fst (step e w)) = true
                    /\ item (fst (step e w)) = item w
                    /\ exists l, timeouts (fst (step e w)) = timeouts w ++ l
                                 /\ Forall (oneGameChanged old) l).
    { destruct e as [id lobby0 now|gameRecord0|]; [| |discriminate He].
      - cbn [step]. rewrite (startGame_spec _ _ _ old) by assumption.
        cbn. repeat split. eexists. split; [reflexivity|].
        repeat constructor. exists id. intros id' Hne.
        apply lookup_insert_ne. congruence.
      - cbn [step].
        destruct (old !! gameID gameRecord0) as [gameStat|] eqn:Hg.
        + rewrite (endGame_found _ old gameStat) by assumption.
          cbn. repeat split. eexists. split; [reflexivity|].
          repeat constructor. exists (gameID gameRecord0). intros id' Hne.
          apply lookup_insert_ne. congruence.
        + rewrite (endGame_missing _ old) by assumption. cbn.
          repeat split; [exact Hl|]. exists []. rewrite app_nil_r.
          split; [reflexivity | constructor]. }
    destruct Hstep as (Hl1 & Hi1 & l1 & Ht1 & Hf1).
    destruct (step e w) as [w1 out1]. cbn [fst] in *.
    assert (Hold1 : getStats w1 = Some old).
    { rewrite (getStats_item w1 w) by exact Hi1. exact Hold. }
    destruct (IH w1 Hl1 Hold1 Hes) as (Hl2 & Hi2 & l2 & Ht2 & Hf2).
    destruct (run es w1) as [w2 out2]. cbn [fst] in *.
    repeat split; [exact Hl2 | congruence |].
    exists (l1 ++ l2). split.
    + rewrite Ht2, Ht1, app_assoc. reflexivity.
    + apply Forall_app. split; assumption.
Qed.

(** X23.  Writes are deferred whole snapshots, so one task changes at most
    one game.  However many [startGame] and [endGame] calls run before the
    pending callbacks do, each reads the stored data as they were when the
    task began; once the callbacks have run, the store holds the snapshot
    scheduled last (the old data if none was scheduled), which differs from
    the old data in at most one game's entry. *)
Theorem one_task_changes_at_most_one_game (es : list Event) old w :
  roundTrip ->
  hasLocalStorage w = true -> timeouts w = [] -> getStats w = Some old ->
  forallb (fun e => negb (isTimeout e)) es = true ->
  getStats (fst (drain (fst (run es w))))
  = Some (default old (last (timeouts (fst (run es w)))))
  /\ oneGameChanged old (default old (last (timeouts (fst (run es w))))).
Proof.
  intros Hrt Hl Ht Hold Hes.
  destruct (task_schedules_snapshots es old w Hl Hold Hes)
    as (Hl1 & Hi1 & l & Ht1 & Hf).
  rewrite Ht in Ht1. cbn [app] in Ht1.
  rewrite drain_spec by exact Hl1. cbn [fst]. rewrite Ht1.
  destruct (last l) as [stats|] eqn:Hlast; cbn [default].
  - split; [apply getStats_written; exact Hrt|].
    apply last_Some in Hlast as [l' ->].
    apply Forall_app in Hf as [_ Hf]. inversion Hf; assumption.
  - split.
    + rewrite <- Hold. apply getStats_item. cbn. exact Hi1.
    + exists ""%string. reflexivity.
Qed.

End Stats.

Arguments mkGameStat {Lobby GameRecord}.
Arguments mkWorld {Lobby GameRecord Text}.
Arguments hasLocalStorage {Lobby GameRecord Text}.
Arguments item {Lobby GameRecord Text}.
Arguments timeouts {Lobby GameRecord Text}.
Arguments startTime {Lobby GameRecord Text}.
Arguments StartGame {Lobby GameRecord}.
Arguments EndGame {Lobby GameRecord}.
Arguments Timeout {Lobby GameRecord}.
Arguments isTimeout {Lobby GameRecord}.
Arguments getStats {Lobby GameRecord Text}.
Arguments run {Lobby GameRecord Text}.
Arguments drain {Lobby GameRecord Text}.
Arguments roundTrip {Lobby GameRecord Text}.
Arguments oneGameChanged {Lobby GameRecord}.

(** A store whose texts are the data themselves, lobbies that are names and
    records that are a game id with a winner. *)
Definition Stored : Type := LocalStatsData string (string * Z).
Definition idOf (gameRecord : string * Z) : string := gameRecord.1.
Definition write (stats : Stored) : Stored := stats.
Definition read (text : Stored) : option Stored := Some text.
Definition anyText (text : Stored) : bool := true.

Definition emptyStore : World string (string * Z) Stored :=
  mkWorld true None None [].

Definition runStored := run idOf write read anyText.

Definition oneGame : list (Event string (string * Z)) :=
  [StartGame "g1"%string "ffa"%string 7; Timeout;
   EndGame ("g1"%string, 2%Z); Timeout].

Lemma record_stored_with_its_lobby_witness :
  getStats read anyText (fst (runStored oneGame emptyStore))
  = Some (<[ "g1"%string :=
             mkGameStat "ffa"%string (Some ("g1"%string, 2%Z)) ]> ∅)
  /\ startTime (fst (runStored oneGame emptyStore)) = Some 7
  /\ timeouts (fst (runStored oneGame emptyStore)) = []
  /\ snd (runStored oneGame emptyStore) = [].
Proof.
  apply (record_stored_with_its_lobby string (string * Z) Stored idOf write
           read anyText "g1"%string "ffa"%string 7 ("g1"%string, 2%Z) ∅
           emptyStore);
    try reflexivity.
  intros stats. split; reflexivity.
Defined.

Definition started : World string (string * Z) Stored :=
  mkWorld true (Some {[ "g1"%string := mkGameStat "ffa"%string None ]})
          (Some 7) [].

Lemma endGame_changes_only_its_record_witness :
  exists new,
    getStats read anyText
      (fst (runStored [EndGame ("g1"%string, 2%Z); Timeout] started))
    = Some new
    /\ new !! "g1"%string
       = (fun gameStat =>
            mkGameStat (lobby _ _ gameStat) (Some ("g1"%string, 2%Z)))
           <$> ({[ "g1"%string := mkGameStat "ffa"%string None ]} : Stored)
               !! "g1"%string
    /\ forall id, id <> "g1"%string ->
         new !! id
         = ({[ "g1"%string := mkGameStat "ffa"%string None ]} : Stored) !! id.
Proof.
  apply (endGame_changes_only_its_record string (string * Z) Stored idOf
           write read anyText ("g1"%string, 2%Z)
           {[ "g1"%string := mkGameStat "ffa"%string None ]} started);
    try reflexivity.
  intros stats. split; reflexivity.
Defined.

Definition twoStarts : list (Event string (string * Z)) :=
  [StartGame "g1"%string "ffa"%string 7; StartGame "g2"%string "teams"%string 9].

(** Two games started in one task: only the second is stored. *)
Example first_start_overwritten :
  (getStats read anyText
     (fst (drain idOf write read anyText (fst (runStored twoStarts emptyStore)))))
  = Some {[ "g2"%string := mkGameStat "teams"%string None ]}.
Proof. vm_compute. reflexivity. Qed.

Lemma one_task_changes_at_most_one_game_witness :
  getStats read anyText
    (fst (drain idOf write read anyText (fst (runStored twoStarts emptyStore))))
  = Some (default ∅ (last (timeouts (fst (runStored twoStarts emptyStore)))))
  /\ oneGameChanged ∅
       (default ∅ (last (timeouts (fst (runStored twoStarts emptyStore))))).
Proof.
  apply (one_task_changes_at_most_one_game string (string * Z) Stored idOf
           write read anyText twoStarts ∅ emptyStore);
    try reflexivity.
  intros stats. split; reflexivity.
Defined.

End LocalPersistantStats.


(** * The U key of the input handler ([InputHandler.ts])

    A tap on U asks for one automatic upgrade at the centre of the canvas; a
    press held for 500 ms asks for one, and then for one more every
    100 ms until the key is released.  The [keydown] and [keyup] listeners of
    [initialize] keep a press timer, a hold interval and a long-press flag;
    the model has the page's live timers beside them. *)

Module InputHandler.

Section UKey.
(** The centre of the canvas, [(rect.width / 2, rect.height / 2)]. *)
Variable Point : Type.

(** The fields the two handlers share, and the timers of the page that they
    created and that are still live.  Timer ids are positive integers, so a
    stored id is truthy.  A live interval carries the centre its callback
    closed over. *)
Record UKey : Type := mkUKey {
  uKeyPressTimer : option positive;
  uKeyHoldInterval : option positive;
  isUKeyLongPress : bool;
  timeouts : list positive;
  intervals : list (positive * Point);
  nextId : positive
}.

Definition init : UKey := mkUKey None None false [] [] 1%positive.

Inductive Effect : Type :=
| PreventDefault
| EmitAutoUpgradeEvent (center : Point).

Definition clearTimeout (h : positive) (s : UKey) : UKey :=
  mkUKey (uKeyPressTimer s) (uKeyHoldInterval s) (isUKeyLongPress s)
         (filter (fun h' => h' <> h) (timeouts s)) (intervals s) (nextId s).

Definition clearInterval (h : positive) (s : UKey) : UKey :=
  mkUKey (uKeyPressTimer s) (uKeyHoldInterval s) (isUKeyLongPress s)
         (timeouts s) (filter (fun hc => hc.1 <> h) (intervals s)) (nextId s).

(** The [keydown] listener, for [e.code === "KeyU"]. *)
Definition keydown (repeat : bool) (s : UKey) : UKey * list Effect :=
  if repeat then (s, [])
  else
    let s := match uKeyPressTimer s with
             | Some h => clearTimeout h s
             | None => s
             end in
    (mkUKey (Some (nextId s)) (uKeyHoldInterval s) (isUKeyLongPress s)
            (timeouts s ++ [nextId s]) (intervals s) (Pos.succ (nextId s)),
     [PreventDefault]).

(** The callback of the press timer [h] runs, 500 ms after the key went
    down; nothing happens if the timer was cleared. *)
Definition pressTimerFires (h : positive) (center : Point) (s : UKey)
  : UKey * list Effect :=
  if bool_decide (h ∈ timeouts s) then
    (mkUKey (uKeyPressTimer s) (Some (nextId s)) true
            (filter (fun h' => h' <> h) (timeouts s))
            (intervals s ++ [(nextId s, center)]) (Pos.succ (nextId s)),
     [EmitAutoUpgradeEvent center])
  else (s, []).

(** A tick of the hold interval [h], every 100 ms while it is live. *)
Definition holdIntervalFires (h : positive) (s : UKey) : UKey * list Effect :=
  (s, map (fun hc => EmitAutoUpgradeEvent hc.2)
          (filter (fun hc => hc.1 = h) (intervals s))).

(** The [keyup] listener, for [e.code === "KeyU"]. *)
Definition keyup (center : Point) (s : UKey) : UKey * list Effect :=
  let s := match uKeyPressTimer s with
           | Some h =>
               let s := clearTimeout h s in
               mkUKey None (uKeyHoldInterval s) (isUKeyLongPress s)
                      (timeouts s) (intervals s) (nextId s)
           | None => s
           end in
  let s := match uKeyHoldInterval s with
           | Some h =>
               let s := clearInterval h s in
               mkUKey (uKeyPressTimer s) None (isUKeyLongPress s)
                      (timeouts s) (intervals s) (nextId s)
           | None => s
           end in
  (mkUKey (uKeyPressTimer s) (uKeyHoldInterval s) false
          (timeouts s) (intervals s) (nextId s),
   PreventDefault
   :: (if isUKeyLongPress s then [] else [EmitAutoUpgradeEvent center])).

(** [destroy], as far as these timers go. *)
Definition destroy (s : UKey) : UKey :=
  let s := match uKeyPressTimer s with
           | Some h => clearTimeout h s
           | None => s
           end in
  match uKeyHoldInterval s with
  | Some h => clearInterval h s
  | None => s
  end.

Inductive Event : Type :=
| KeyDown (repeat : bool)
| KeyUp (center : Point)
| PressTimerFires (h : positive) (center : Point)
| HoldIntervalFires (h : positive)
| Destroy.

Definition step (e : Event) (s : UKey) : UKey * list Effect :=
  match e with
  | KeyDown repeat => keydown repeat s
  | KeyUp center => keyup center s
  | PressTimerFires h center => pressTimerFires h center s
  | HoldIntervalFires h => holdIntervalFires h s
  | Destroy => (destroy s, [])
  end.

Fixpoint run (es : list Event) (s : UKey) : UKey * list Effect :=
  match es with
  | [] => (s, [])
  | e :: es =>
      let (s1, out1) := step e s in
      let (s2, out2) := run es s1 in
      (s2, out1 ++ out2)
  end.

(** The centres of the [AutoUpgradeEvent]s emitted. *)
Definition upgrades (out : list Effect) : list Point :=
  omap (fun eff => match eff with
                   | EmitAutoUpgradeEvent c => Some c
                   | PreventDefault => None
                   end) out.

(** Key events as a keyboard sends them: a first (non-repeat) [keydown]
    only while the key is up.  [down] tells whether the key is down. *)
Fixpoint alternating (down : bool) (es : list Event) : bool :=
  match es with
  | [] => true
  | KeyDown false :: es => negb down && alternating true es
  | KeyUp _ :: es => alternating false es
  | _ :: es => alternating down es
  end.

Definition isTimerEvent (e : Event) : bool :=
  match e with
  | PressTimerFires _ _ | HoldIntervalFires _ | KeyDown true => true
  | _ => false
  end.

Definition isRelease (e : Event) : bool :=
  match e with KeyUp _ | Destroy => true | _ => false end.

(** No timer is live and the long-press flag is down. *)
Definition quiescent (s : UKey) : Prop :=
  timeouts s = [] /\ intervals s = [] /\ isUKeyLongPress s = false.

(** ** Properties *)

(** Whether the key is down after [e]. *)
Definition downAfter (down : bool) (e : Event) : bool :=
  match e with
  | KeyDown false => true
  | KeyUp _ => false
  | _ => down
  end.

(** Every live timer is the one the handlers remember, and there is at most
    one; none while the key is up. *)
Definition remembered (down : bool) (s : UKey) : Prop :=
  (timeouts s = [] /\ intervals s = [])
  \/ (down = true /\ exists h,
        timeouts s = [h] /\ intervals s = [] /\ uKeyPressTimer s = Some h)
  \/ (down = true /\ exists h c,
        timeouts s = [] /\ intervals s = [(h, c)]
        /\ uKeyHoldInterval s = Some h).

Lemma filter_other (h : positive) :
  filter (fun h' => h' <> h) [h] = [].
Proof.
  rewrite filter_cons. destruct (decide (h <> h)); [congruence | reflexivity].
Qed.

Lemma filter_other_interval (h : positive) (c : Point) :
  filter (fun hc : positive * Point => hc.1 <> h) [(h, c)] = [].
Proof.
  rewrite filter_cons. cbn.
  destruct (decide (h <> h)); [congruence | reflexivity].
Qed.

Ltac ukey :=
  repeat match goal with
  | H : _ /\ _ |- _ => destruct H
  | H : exists _, _ |- _ => destruct H
  end.

Ltac same_id :=
  repeat match goal with
  | |- context [decide (?h <> ?h)] =>
      destruct (decide (h <> h)); [congruence|]
  end.

Lemma release_clears down e s :
  remembered down s -> isRelease e = true ->
  timeouts (fst (step e s)) = [] /\ intervals (fst (step e s)) = [].
Proof.
  intros Hr He. destruct s as [pt hi lp ts ivs n].
  unfold remembered in Hr. cbn in Hr.
  destruct Hr as [[-> ->]|[(_ & h & -> & -> & ->)|(_ & h & c' & -> & -> & ->)]];
    destruct e as [r|c|h0 c|h0|]; try discriminate He; cbn [step fst];
    unfold keyup, destroy, clearTimeout, clearInterval; cbn;
    try destruct pt; try destruct hi; cbn; same_id; split; reflexivity.
Qed.

Lemma step_remembered down e s :
  remembered down s -> alternating down [e] = true ->
  remembered (downAfter down e) (fst (step e s)).
Proof.
  intros Hr He. destruct e as [r|c|h c|h|].
  - destruct r.
    + exact Hr.
    + cbn in He. rewrite andb_true_r in He. apply negb_true_iff in He.
      subst down.
      destruct Hr as [[Ht Hi]|[(Hd & _)|(Hd & _)]]; try discriminate Hd.
      right. left. split; [reflexivity|].
      destruct s as [pt hi lp ts ivs n]. cbn in Ht, Hi. subst ts ivs.
      exists (match pt with Some _ => n | None => n end).
      unfold step, keydown, clearTimeout. destruct pt; cbn; repeat split.
  - left. apply (release_clears down (KeyUp c) s Hr eq_refl).
  - cbn [downAfter step]. unfold pressTimerFires.
    destruct (bool_decide (h ∈ timeouts s)) eqn:Hin; [|exact Hr].
    apply bool_decide_eq_true in Hin.
    destruct Hr as [[Ht Hi]|[(Hd & h' & Ht & Hi & Hp)|(Hd & h' & c' & Ht & Hi & Hh)]].
    + rewrite Ht in Hin. inversion Hin.
    + right. right. split; [exact Hd|]. exists (nextId s), c. cbn.
      rewrite Ht in Hin. apply list_elem_of_singleton in Hin. subst h'.
      rewrite Ht, Hi, filter_other. repeat split.
    + rewrite Ht in Hin. inversion Hin.
  - exact Hr.
  - left. apply (release_clears down Destroy s Hr eq_refl).
Qed.

Fixpoint downAfterAll (down : bool) (es : list Event) : bool :=
  match es with
  | [] => down
  | e :: es => downAfterAll (downAfter down e) es
  end.

Lemma alternating_cons down e es :
  alternating down (e :: es)
  = alternating down [e] && alternating (downAfter down e) es.
Proof.
  destruct e as [[|]| | | |]; cbn; rewrite ?andb_true_r; reflexivity.
Qed.

Lemma alternating_app down es1 es2 :
  alternating down (es1 ++ es2)
  = alternating down es1 && alternating (downAfterAll down es1) es2.
Proof.
  revert down. induction es1 as [|e es1 IH]; intros down.
  - reflexivity.
  - cbn [app downAfterAll]. rewrite alternating_cons, IH.
    rewrite (alternating_cons down e es1), andb_assoc. reflexivity.
Qed.

Lemma run_remembered down es s :
  remembered down s -> alternating down es = true ->
  remembered (downAfterAll down es) (fst (run es s)).
Proof.
  revert down s. induction es as [|e es IH]; intros down s Hr Hes.
  - exact Hr.
  - rewrite alternating_cons in Hes. apply andb_true_iff in Hes as [He Hes].
    cbn [run downAfterAll]. pose proof (step_remembered down e s Hr He) as H1.
    destruct (step e s) as [s1 out1]. cbn [fst] in H1.
    specialize (IH _ _ H1 Hes). destruct (run es s1) as [s2 out2].
    exact IH.
Qed.

Lemma ukey_run_snoc es e s :
  fst (run (es ++ [e]) s) = fst (step e (fst (run es s))).
Proof.
  revert s. induction es as [|e' es IH]; intros s; cbn.
  - destruct (step e s); reflexivity.
  - destruct (step e' s) as [s1 out1]. specialize (IH s1).
    destruct (run (es ++ [e]) s1), (run es s1). exact IH.
Qed.

(** X24.  The U-key timers never leak.  When first key-downs and key-ups
    alternate, as a keyboard sends them, then whatever timer callbacks run in
    between and whenever [destroy] is called, at most one timer of the two
    handlers is live at any time, and right after a key-up or a [destroy]
    none is. *)
Theorem u_key_timers_never_leak (es : list Event) s :
  timeouts s = [] -> intervals s = [] -> alternating false es = true ->
  (length (timeouts (fst (run es s)))
   + length (intervals (fst (run es s))) <= 1)%nat
  /\ (forall es0 e, es = es0 ++ [e] -> isRelease e = true ->
      timeouts (fst (run es s)) = [] /\ intervals (fst (run es s)) = []).
Proof.
  intros Ht Hi Hes.
  assert (Hr : remembered false s) by (left; split; assumption).
  split.
  - destruct (run_remembered _ _ _ Hr Hes)
      as [[-> ->]|[(_ & h & -> & -> & _)|(_ & h & c & -> & -> & _)]];
      cbn; lia.
  - intros es0 e -> He. rewrite ukey_run_snoc.
    rewrite alternating_app in Hes. apply andb_true_iff in Hes as [Hes _].
    apply (release_clears (downAfterAll false es0)); [|exact He].
    apply run_remembered; assumption.
Qed.

(** While the key is held: either the press timer is pending and nothing
    was emitted, or the hold interval is live and every event emitted so far
    carries the centre read when the press timer fired. *)
Definition held (s : UKey) (ups : list Point) : Prop :=
  (exists h, timeouts s = [h] /\ intervals s = []
             /\ uKeyPressTimer s = Some h /\ isUKeyLongPress s = false
             /\ ups = [])
  \/ (exists h c k, timeouts s = [] /\ intervals s = [(h, c)]
                    /\ uKeyHoldInterval s = Some h
                    /\ isUKeyLongPress s = true
                    /\ ups = replicate (S k) c).

Lemma upgrades_app out1 out2 :
  upgrades (out1 ++ out2) = upgrades out1 ++ upgrades out2.
Proof. apply omap_app. Qed.

Lemma step_held e s ups :
  held s ups -> isTimerEvent e = true ->
  held (fst (step e s)) (ups ++ upgrades (snd (step e s))).
Proof.
  intros Hh He. destruct s as [pt hi lp ts ivs n]. unfold held in Hh.
  cbn in Hh.
  destruct e as [[|]|c|h0 c|h0|]; try discriminate He; cbn [step].
  - cbn. rewrite app_nil_r. exact Hh.
  - unfold pressTimerFires. cbn [timeouts].
    destruct Hh as [(h & -> & -> & -> & -> & ->)
                   |(h & c' & k & -> & -> & -> & -> & ->)].
    + destruct (bool_decide (h0 ∈ [h])) eqn:Hin.
      * apply bool_decide_eq_true, list_elem_of_singleton in Hin. subst h0.
        right. exists n, c, 0%nat. cbn. same_id. repeat split.
      * left. exists h. cbn. repeat split.
    + destruct (bool_decide (h0 ∈ [])) eqn:Hin.
      * apply bool_decide_eq_true in Hin. inversion Hin.
      * right. exists h, c', k. cbn. rewrite app_nil_r. repeat split.
  - unfold holdIntervalFires. cbn [fst snd intervals].
    destruct Hh as [(h & -> & -> & -> & -> & ->)
                   |(h & c' & k & -> & -> & -> & -> & ->)].
    + left. exists h. cbn. repeat split.
    + right. rewrite filter_cons, filter_nil. cbn [fst].
      destruct (decide (h = h0)).
      * exists h, c', (S k). cbn [map upgrades omap]. cbn.
        repeat split. f_equal. f_equal. symmetry. apply replicate_cons_app.
      * exists h, c', k. cbn. rewrite app_nil_r. repeat split.
Qed.

Lemma run_held es s ups :
  held s ups -> forallb isTimerEvent es = true ->
  held (fst (run es s)) (ups ++ upgrades (snd (run es s))).
Proof.
  revert s ups. induction es as [|e es IH]; intros s ups Hh Hes.
  - cbn. rewrite app_nil_r. exact Hh.
  - cbn [forallb] in Hes. apply andb_true_iff in Hes as [He Hes].
    cbn [run]. pose proof (step_held e s ups Hh He) as H1.
    destruct (step e s) as [s1 out1]. cbn [fst snd] in H1.
    specialize (IH _ _ H1 Hes). destruct (run es s1) as [s2 out2].
    cbn [fst snd] in *. rewrite upgrades_app, app_assoc. exact IH.
Qed.

Lemma ukey_run_app es1 es2 s :
  run (es1 ++ es2) s
  = (fst (run es2 (fst (run es1 s))),
     snd (run es1 s) ++ snd (run es2 (fst (run es1 s)))).
Proof.
  revert s. induction es1 as [|e es1 IH]; intros s; cbn.
  - destruct (run es2 s); reflexivity.
  - destruct (step e s) as [s1 out1]. rewrite IH.
    destruct (run es1 s1) as [s2 out2]. cbn.
    rewrite app_assoc. reflexivity.
Qed.

(** X25.  Every press of U upgrades at least once and cleans up.  From a
    state with no live timer, a key-down, any timer callbacks and repeated
    key-downs, then the key-up: either exactly one [AutoUpgradeEvent] is
    emitted, with the centre read at the key-up (a tap), or one or more are,
    all with one and the same centre (a long press: the centre read when the
    press timer fired).  Afterwards no timer is live and the long-press flag
    is down. *)
Theorem u_press_upgrades_and_cleans_up (mid : list Event) center s :
  quiescent s -> forallb isTimerEvent mid = true ->
  quiescent (fst (run (KeyDown false :: mid ++ [KeyUp center]) s))
  /\ (upgrades (snd (run (KeyDown false :: mid ++ [KeyUp center]) s))
      = [center]
      \/ exists c k,
           upgrades (snd (run (KeyDown false :: mid ++ [KeyUp center]) s))
           = replicate (S k) c).
Proof.
  intros (Ht & Hi & Hl) Hmid.
  assert (H0 : held (fst (keydown false s)) []).
  { destruct s as [pt hi lp ts ivs n]. cbn in Ht, Hi, Hl. subst ts ivs lp.
    left. unfold keydown, clearTimeout. destruct pt; cbn; eexists;
      repeat split. }
  cbn [run step]. destruct (keydown false s) as [s1 out1] eqn:Hk.
  assert (Hout1 : upgrades out1 = []).
  { unfold keydown in Hk. cbn in Hk. inversion Hk. reflexivity. }
  cbn [fst] in H0. rewrite ukey_run_app.
  pose proof (run_held mid s1 [] H0 Hmid) as H1. cbn [app] in H1.
  destruct (run mid s1) as [s2 out2]. cbn [fst snd] in *.
  rewrite !upgrades_app, Hout1. cbn [app run step].
  destruct s2 as [pt hi lp ts ivs n]. unfold held in H1. cbn in H1.
  destruct H1 as [(h & -> & -> & -> & -> & ->)
                 |(h & c' & k & -> & -> & -> & -> & ->)].
  - unfold keyup, clearTimeout, clearInterval, quiescent. cbn. same_id.
    destruct hi; cbn; split; auto.
  - unfold keyup, clearTimeout, clearInterval, quiescent.
    destruct pt; cbn; same_id; (split; [auto|]); right; exists c', k;
      rewrite app_nil_r; reflexivity.
Qed.

End UKey.

Arguments init {Point}.
Arguments timeouts {Point}.
Arguments intervals {Point}.
Arguments KeyDown {Point}.
Arguments KeyUp {Point}.
Arguments PressTimerFires {Point}.
Arguments HoldIntervalFires {Point}.
Arguments Destroy {Point}.
Arguments run {Point}.
Arguments upgrades {Point}.
Arguments alternating {Point}.
Arguments isTimerEvent {Point}.
Arguments isRelease {Point}.
Arguments quiescent {Point}.

(** A tap, then a long press with two ticks, on a canvas whose centre moves
    from (400, 300) to (500, 300). *)
Definition tapThenHold : list (Event (Z * Z)) :=
  [KeyDown false; KeyUp (400, 300);
   KeyDown false; KeyDown true; PressTimerFires 2 (400, 300);
   HoldIntervalFires 3; HoldIntervalFires 3; KeyUp (500, 300)].

Lemma u_key_timers_never_leak_witness :
  (length (timeouts (fst (run tapThenHold init)))
   + length (intervals (fst (run tapThenHold init))) <= 1)%nat
  /\ (forall es0 e, tapThenHold = es0 ++ [e] -> isRelease e = true ->
      timeouts (fst (run tapThenHold init)) = []
      /\ intervals (fst (run tapThenHold init)) = []).
Proof.
  apply (u_key_timers_never_leak (Z * Z) tapThenHold init); reflexivity.
Defined.

Definition holdTicks : list (Event (Z * Z)) :=
  [KeyDown true; PressTimerFires 1 (400, 300);
   HoldIntervalFires 2; HoldIntervalFires 2].

Lemma u_press_upgrades_and_cleans_up_witness :
  quiescent (fst (run (KeyDown false :: holdTicks ++ [KeyUp (500, 300)]) init))
  /\ (upgrades (snd (run (KeyDown false :: holdTicks ++ [KeyUp (500, 300)])
                       init))
      = [(500, 300)]
      \/ exists c k,
           upgrades (snd (run (KeyDown false :: holdTicks ++ [KeyUp (500, 300)])
                            init))
           = replicate (S k) c).
Proof.
  apply (u_press_upgrades_and_cleans_up (Z * Z) holdTicks (500, 300) init).
  - repeat split.
  - reflexivity.
Defined.

Example tapThenHold_upgrades :
  upgrades (snd (run tapThenHold init))
  = [(400, 300); (400, 300); (400, 300); (400, 300)].
Proof. reflexivity. Qed.

(** Without the alternation the hold interval of the first press is
    forgotten: a second first key-down with no key-up in between (the key-up
    went to another window, say) overwrites its id, the key-up clears only
    the second interval, and the first keeps emitting. *)
Definition lostKeyUp : list (Event (Z * Z)) :=
  [KeyDown false; PressTimerFires 1 (400, 300);
   KeyDown false; PressTimerFires 3 (400, 300); KeyUp (400, 300)].

Example interval_leaks_after_lost_keyup :
  alternating false lostKeyUp = false
  /\ intervals (fst (run lostKeyUp init)) = [(2%positive, (400, 300))]
  /\ upgrades (snd (run [HoldIntervalFires 2] (fst (run lostKeyUp init))))
     = [(400, 300)].
Proof. repeat split. Qed.

End InputHandler.
